(** * A contact book with birthdays: the model of [main.py]

    The development embeds the classes [Phone], [Birthday], [Record] and
    [AddressBook] of [main.py], together with the parts of the Python
    library they call ([re], [datetime.strptime], [date] arithmetic,
    [strftime], [sorted]), the command handlers and the loop of [main],
    and proves the properties of the data model, of the validators, of
    the upcoming-birthday query and of the commands. *)

From Stdlib Require Import String Ascii.
From Stdlib Require Import ZArith List Lia Bool Permutation Sorted.
Import ListNotations.
Open Scope Z_scope.

(** ** Python values *)

(** A Python [str] is a sequence of Unicode code points. *)
Definition char := Z.
Definition str := list char.

(** An ASCII literal as a [str]. *)
Definition lit (s : string) : str :=
  map (fun a => Z.of_N (N_of_ascii a)) (list_ascii_of_string s).

Definition str_eqb (a b : str) : bool :=
  if list_eq_dec Z.eq_dec a b then true else false.

(** The exceptions the modelled code can raise; their messages are not
    modelled. *)
Inductive exn : Type :=
| ValueError
| TypeError
| OverflowError.

Inductive result (A : Type) : Type :=
| Ok (a : A)
| Raise (e : exn).
Arguments Ok {A} a.
Arguments Raise {A} e.

Definition bind {A B} (m : result A) (f : A -> result B) : result B :=
  match m with
  | Ok a => f a
  | Raise e => Raise e
  end.

Declare Scope py_scope.
Notation "x <- m ;; k" := (bind m (fun x => k))
  (at level 61, m at next level, right associativity) : py_scope.
Open Scope py_scope.

(** ** Unicode decimal digits: what [\d] and [int] accept

    In a [str] pattern [\d] matches every character of category Nd.  The
    Nd characters come in runs of ten, digit zero first; these are the
    zeros of the runs (Unicode 14). *)
Definition nd_zeros : list Z :=
  [ 0x30; 0x660; 0x6f0; 0x7c0; 0x966; 0x9e6; 0xa66; 0xae6; 0xb66; 0xbe6;
    0xc66; 0xce6; 0xd66; 0xde6; 0xe50; 0xed0; 0xf20; 0x1040; 0x1090;
    0x17e0; 0x1810; 0x1946; 0x19d0; 0x1a80; 0x1a90; 0x1b50; 0x1bb0;
    0x1c40; 0x1c50; 0xa620; 0xa8d0; 0xa900; 0xa9d0; 0xa9f0; 0xaa50;
    0xabf0; 0xff10; 0x104a0; 0x10d30; 0x11066; 0x110f0; 0x11136;
    0x111d0; 0x112f0; 0x11450; 0x114d0; 0x11650; 0x116c0; 0x11730;
    0x118e0; 0x11950; 0x11c50; 0x11d50; 0x11da0; 0x16a60; 0x16ac0;
    0x16b50; 0x1d7ce; 0x1d7d8; 0x1d7e2; 0x1d7ec; 0x1d7f6; 0x1e140;
    0x1e2f0; 0x1e950; 0x1fbf0 ].

(** The decimal value of a character, when it has one. *)
Definition decimal_in (zeros : list Z) (c : char) : option Z :=
  match find (fun z => (z <=? c) && (c <? z + 10)) zeros with
  | Some z => Some (c - z)
  | None => None
  end.

Definition decimal (c : char) : option Z := decimal_in nd_zeros c.

Definition is_decimal (c : char) : bool :=
  match decimal c with Some _ => true | None => false end.

(** The ASCII digits [0-9]. *)
Definition is_ascii_digit (c : char) : bool := (48 <=? c) && (c <=? 57).

(** ** Regular expressions: the fragment of [re] the program uses

    Matching is by backtracking, alternatives tried left to right, as in
    [re]; a named group records the text it consumed. *)
Inductive regex : Type :=
| Eps
| Lit (c : char)                       (* one literal character *)
| Digit                                (* \d *)
| Range (lo hi : char)                 (* [lo-hi] *)
| Seq (r1 r2 : regex)
| Alt (r1 r2 : regex)                  (* r1|r2 *)
| Group (name : string) (r : regex).   (* (?P<name>r) *)

(** [r{n}] *)
Fixpoint times (n : nat) (r : regex) : regex :=
  match n with
  | O => Eps
  | S n' => Seq r (times n' r)
  end.

Definition captures := list (string * str).

(** The part of [s] in front of its suffix [rest]. *)
Definition consumed (s rest : str) : str :=
  firstn (length s - length rest) s.

Fixpoint rmatch {A} (r : regex) (s : str) (caps : captures)
  (k : str -> captures -> option A) : option A :=
  match r with
  | Eps => k s caps
  | Lit c =>
      match s with
      | x :: s' => if x =? c then k s' caps else None
      | [] => None
      end
  | Digit =>
      match s with
      | x :: s' => if is_decimal x then k s' caps else None
      | [] => None
      end
  | Range lo hi =>
      match s with
      | x :: s' => if (lo <=? x) && (x <=? hi) then k s' caps else None
      | [] => None
      end
  | Seq r1 r2 => rmatch r1 s caps (fun s' caps' => rmatch r2 s' caps' k)
  | Alt r1 r2 =>
      match rmatch r1 s caps k with
      | Some a => Some a
      | None => rmatch r2 s caps k
      end
  | Group name r' =>
      rmatch r' s caps (fun s' caps' => k s' ((name, consumed s s') :: caps'))
  end.

(** A match object: where the match ends, and its named groups. *)
Record match_object : Type := { m_end : nat; m_groups : captures }.

(** [re.fullmatch(r, s)]: the whole of [s] must match. *)
Definition re_fullmatch (r : regex) (s : str) : option match_object :=
  rmatch r s []
    (fun rest caps =>
       match rest with
       | [] => Some {| m_end := length s; m_groups := caps |}
       | _ :: _ => None
       end).

(** [re.match(r, s)]: a prefix of [s] must match. *)
Definition re_match (r : regex) (s : str) : option match_object :=
  rmatch r s []
    (fun rest caps =>
       Some {| m_end := (length s - length rest)%nat; m_groups := caps |}).

(** ** Fields *)

Module Name.
Record t : Type := { value : str }.
End Name.

Module Phone.
Record t : Type := { value : str }.

(** [r"\d{10}"] *)
Definition pattern : regex := times 10 Digit.

Definition validate (value : str) : result unit :=
  match re_fullmatch pattern value with
  | None => Raise ValueError
  | Some _ => Ok tt
  end.

(** [Phone(value)] *)
Definition init (value : str) : result t :=
  _ <- validate value ;;
  Ok {| value := value |}.
End Phone.

(** ** The calendar of [datetime]

    The proleptic Gregorian calendar, as [datetime] computes it. *)

Definition MINYEAR : Z := 1.
Definition MAXYEAR : Z := 9999.
Definition MAXORDINAL : Z := 3652059.

Definition DAYS_IN_MONTH : list Z :=
  [-1; 31; 28; 31; 30; 31; 30; 31; 31; 30; 31; 30; 31].

Definition DAYS_BEFORE_MONTH : list Z :=
  [-1; 0; 31; 59; 90; 120; 151; 181; 212; 243; 273; 304; 334].

Definition index (table : list Z) (i : Z) : Z := nth (Z.to_nat i) table 0.

Definition is_leap (year : Z) : bool :=
  (year mod 4 =? 0) && (negb (year mod 100 =? 0) || (year mod 400 =? 0)).

Definition days_before_year (year : Z) : Z :=
  let y := year - 1 in
  y * 365 + y / 4 - y / 100 + y / 400.

Definition days_in_month (year month : Z) : Z :=
  if (month =? 2) && is_leap year then 29 else index DAYS_IN_MONTH month.

Definition days_before_month (year month : Z) : Z :=
  index DAYS_BEFORE_MONTH month
  + (if (2 <? month) && is_leap year then 1 else 0).

Definition ymd2ord (year month day : Z) : Z :=
  days_before_year year + days_before_month year month + day.

Definition DI400Y : Z := 146097.
Definition DI100Y : Z := 36524.
Definition DI4Y : Z := 1461.

(** [_ord2ymd]: the date of an ordinal, day 1 being 0001-01-01. *)
Definition ord2ymd (n : Z) : Z * Z * Z :=
  let n := n - 1 in
  let n400 := n / DI400Y in
  let n := n mod DI400Y in
  let year := n400 * 400 + 1 in
  let n100 := n / DI100Y in
  let n := n mod DI100Y in
  let n4 := n / DI4Y in
  let n := n mod DI4Y in
  let n1 := n / 365 in
  let n := n mod 365 in
  let year := year + n100 * 100 + n4 * 4 + n1 in
  if (n1 =? 4) || (n100 =? 4) then (year - 1, 12, 31)
  else
    let leapyear := (n1 =? 3) && (negb (n4 =? 24) || (n100 =? 3)) in
    let month := Z.shiftr (n + 50) 5 in
    let preceding :=
      index DAYS_BEFORE_MONTH month
      + (if (2 <? month) && leapyear then 1 else 0) in
    if n <? preceding then
      let month := month - 1 in
      let preceding :=
        preceding
        - (index DAYS_IN_MONTH month
           + (if (month =? 2) && leapyear then 1 else 0)) in
      (year, month, n - preceding + 1)
    else (year, month, n - preceding + 1).

(** A [datetime.date]. *)
Record date : Type := { year : Z; month : Z; day : Z }.

(** [_check_date_fields] *)
Definition check_date_fields (y m d : Z) : bool :=
  (MINYEAR <=? y) && (y <=? MAXYEAR)
  && (1 <=? m) && (m <=? 12)
  && (1 <=? d) && (d <=? days_in_month y m).

(** [date(year, month, day)] *)
Definition new_date (y m d : Z) : result date :=
  if check_date_fields y m d
  then Ok {| year := y; month := m; day := d |}
  else Raise ValueError.

Definition toordinal (d : date) : Z := ymd2ord (year d) (month d) (day d).

Definition fromordinal (n : Z) : date :=
  let '(y, m, d) := ord2ymd n in {| year := y; month := m; day := d |}.

Definition weekday (d : date) : Z := (toordinal d + 6) mod 7.

(** Dates compare as the triples (year, month, day). *)
Definition date_cmp (a b : date) : comparison :=
  match year a ?= year b with
  | Eq =>
      match month a ?= month b with
      | Eq => day a ?= day b
      | c => c
      end
  | c => c
  end.

Definition date_lt (a b : date) : bool :=
  match date_cmp a b with Lt => true | _ => false end.

Definition date_le (a b : date) : bool :=
  match date_cmp a b with Gt => false | _ => true end.

(** [d + timedelta(days=n)] *)
Definition date_add_days (d : date) (n : Z) : result date :=
  let o := toordinal d + n in
  if (0 <? o) && (o <=? MAXORDINAL) then Ok (fromordinal o)
  else Raise OverflowError.

(** [d - timedelta(days=n)], which is [d + timedelta(days=-n)]. *)
Definition date_sub_days (d : date) (n : Z) : result date :=
  date_add_days d (- n).

(** A naive [datetime.datetime]. *)
Record datetime : Type := {
  dt_date : date;
  hour : Z;
  minute : Z;
  second : Z;
  microsecond : Z
}.

(** [datetime(year, month, day)], the time of day left at midnight. *)
Definition new_datetime (y m d : Z) : result datetime :=
  dd <- new_date y m d ;;
  Ok {| dt_date := dd; hour := 0; minute := 0; second := 0;
        microsecond := 0 |}.

(** [dt.replace(year=y)]: a new datetime from the fields of [dt], checked
    again. *)
Definition datetime_replace_year (dt : datetime) (y : Z) : result datetime :=
  dd <- new_date y (month (dt_date dt)) (day (dt_date dt)) ;;
  Ok {| dt_date := dd; hour := hour dt; minute := minute dt;
        second := second dt; microsecond := microsecond dt |}.

Definition datetime_cmp (a b : datetime) : comparison :=
  match date_cmp (dt_date a) (dt_date b) with
  | Eq =>
      match hour a ?= hour b with
      | Eq =>
          match minute a ?= minute b with
          | Eq =>
              match second a ?= second b with
              | Eq => microsecond a ?= microsecond b
              | c => c
              end
          | c => c
          end
      | c => c
      end
  | c => c
  end.

Record timedelta : Type := { days : Z; seconds : Z; microseconds : Z }.

(** The objects the untyped comparisons and subtractions of the program
    meet: a [date] or a [datetime]. *)
Inductive pyobj : Type :=
| ODate (d : date)
| ODatetime (dt : datetime).

(** [a < b].  A [datetime] and a [date] do not compare: the comparison
    raises [TypeError]. *)
Definition py_lt (a b : pyobj) : result bool :=
  match a, b with
  | ODate x, ODate y => Ok (date_lt x y)
  | ODatetime x, ODatetime y =>
      Ok (match datetime_cmp x y with Lt => true | _ => false end)
  | _, _ => Raise TypeError
  end.

(** Seconds since midnight, with the microseconds, of a datetime. *)
Definition micros_of_day (dt : datetime) : Z :=
  ((hour dt * 60 + minute dt) * 60 + second dt) * 1000000 + microsecond dt.

(** [a - b].  Two dates give whole days, two datetimes a normalised
    timedelta; a [datetime] minus a [date] raises [TypeError]. *)
Definition py_sub (a b : pyobj) : result timedelta :=
  match a, b with
  | ODate x, ODate y =>
      Ok {| days := toordinal x - toordinal y; seconds := 0;
            microseconds := 0 |}
  | ODatetime x, ODatetime y =>
      let us :=
        (toordinal (dt_date x) - toordinal (dt_date y)) * 86400000000
        + (micros_of_day x - micros_of_day y) in
      Ok {| days := us / 86400000000;
            seconds := (us mod 86400000000) / 1000000;
            microseconds := us mod 1000000 |}
  | _, _ => Raise TypeError
  end.

(** ** [int], [strptime] and [strftime] *)

(** The characters [str.strip] removes. *)
Definition is_space (c : char) : bool :=
  ((9 <=? c) && (c <=? 13)) || ((28 <=? c) && (c <=? 32))
  || (c =? 0x85) || (c =? 0xa0) || (c =? 0x1680)
  || ((0x2000 <=? c) && (c <=? 0x200a))
  || (c =? 0x2028) || (c =? 0x2029) || (c =? 0x202f) || (c =? 0x205f)
  || (c =? 0x3000).

Fixpoint lstrip (s : str) : str :=
  match s with
  | c :: s' => if is_space c then lstrip s' else s
  | [] => []
  end.

Definition strip (s : str) : str := rev (lstrip (rev (lstrip s))).

(** The value of a run of decimal digits read after [acc]. *)
Fixpoint int_digits (acc : Z) (s : str) : result Z :=
  match s with
  | [] => Ok acc
  | c :: s' =>
      match decimal c with
      | Some v => int_digits (acc * 10 + v) s'
      | None => Raise ValueError
      end
  end.

(** [int(s)] for the texts [strptime] hands it: blanks around a non-empty
    run of decimal digits.  Signs and underscores, which no group of the
    patterns below can hold, are not modelled. *)
Definition py_int (s : str) : result Z :=
  match strip s with
  | [] => Raise ValueError
  | t => int_digits 0 t
  end.

(** The regular expression of a directive; [d], [m] and [Y] are the ones
    the program uses. *)
Definition directive (c : char) : result regex :=
  if c =? 100 then        (* d: 3[0-1]|[1-2]\d|0[1-9]|[1-9]| [1-9] *)
    Ok (Group "d"
          (Alt (Seq (Lit 51) (Range 48 49))
          (Alt (Seq (Range 49 50) Digit)
          (Alt (Seq (Lit 48) (Range 49 57))
          (Alt (Range 49 57)
               (Seq (Lit 32) (Range 49 57)))))))
  else if c =? 109 then   (* m: 1[0-2]|0[1-9]|[1-9] *)
    Ok (Group "m"
          (Alt (Seq (Lit 49) (Range 48 50))
          (Alt (Seq (Lit 48) (Range 49 57))
               (Range 49 57))))
  else if c =? 89 then    (* Y: \d\d\d\d *)
    Ok (Group "Y" (Seq Digit (Seq Digit (Seq Digit Digit))))
  else Raise ValueError.

(** [TimeRE.pattern]: a format becomes a regular expression, directive by
    directive; every other character stands for itself. *)
Fixpoint TimeRE_pattern (format : str) : result regex :=
  match format with
  | [] => Ok Eps
  | c :: rest =>
      if c =? 37 then
        match rest with
        | [] => Raise ValueError
        | x :: rest' =>
            r <- directive x ;;
            k <- TimeRE_pattern rest' ;;
            Ok (Seq r k)
        end
      else
        k <- TimeRE_pattern rest ;;
        Ok (Seq (Lit c) k)
  end.

Fixpoint found_dict (name : string) (caps : captures) : option str :=
  match caps with
  | [] => None
  | (n, v) :: rest => if String.eqb n name then Some v else found_dict name rest
  end.

(** The number in a group, or [None] when the format has no such group. *)
Definition int_group (name : string) (caps : captures) : result (option Z) :=
  match found_dict name caps with
  | None => Ok None
  | Some v => n <- py_int v ;; Ok (Some n)
  end.

(** [datetime.strptime(data_string, format)] *)
Definition strptime (data_string format : str) : result datetime :=
  format_regex <- TimeRE_pattern format ;;
  match re_match format_regex data_string with
  | None => Raise ValueError
  | Some found =>
      if negb (length data_string =? m_end found)%nat then Raise ValueError
      else
        y <- int_group "Y" (m_groups found) ;;
        m <- int_group "m" (m_groups found) ;;
        d <- int_group "d" (m_groups found) ;;
        let month := match m with Some v => v | None => 1 end in
        let day := match d with Some v => v | None => 1 end in
        let year :=
          match y with
          | Some v => v
          | None => if (month =? 2) && (day =? 29) then 1904 else 1900
          end in
        new_datetime year month day
  end.

(** [n] in decimal on exactly [width] digits, zeros in front. *)
Fixpoint zfill (width : nat) (n : Z) : str :=
  match width with
  | O => []
  | S w => zfill w (n / 10) ++ [48 + n mod 10]
  end.

(** How the C library behind [strftime] writes the year of [%Y]: on four
    digits, zeros in front, as the documentation of [datetime] has it; or
    without zeros in front, as glibc does
    ([date(999, 1, 1).strftime("%Y")] is ["999"] with CPython 3.11 on
    Linux). *)
Inductive year_style : Type :=
| FourDigits
| NoPadding.

(** A year from 1 to 9999 in decimal, no zeros in front. *)
Definition plain_year (y : Z) : str :=
  if y <? 10 then zfill 1 y
  else if y <? 100 then zfill 2 y
  else if y <? 1000 then zfill 3 y
  else zfill 4 y.

Definition render_year (style : year_style) (y : Z) : str :=
  match style with
  | FourDigits => zfill 4 y
  | NoPadding => plain_year y
  end.

(** [d.strftime(format)] for the directives [%Y], [%m] and [%d] (the last
    two on two digits); every other character is copied. *)
Fixpoint strftime (style : year_style) (format : str) (d : date) : str :=
  match format with
  | [] => []
  | c :: rest =>
      if c =? 37 then
        match rest with
        | [] => [c]
        | x :: rest' =>
            if x =? 89 then
              render_year style (year d) ++ strftime style rest' d
            else if x =? 109 then zfill 2 (month d) ++ strftime style rest' d
            else if x =? 100 then zfill 2 (day d) ++ strftime style rest' d
            else c :: x :: strftime style rest' d
        end
      else c :: strftime style rest d
  end.

Module Birthday.
Record t : Type := { value : datetime }.

(** [Birthday(value)]: a parse failure is raised again as [ValueError]. *)
Definition init (value : str) : result t :=
  match strptime value (lit "%d.%m.%Y") with
  | Ok dt => Ok {| value := dt |}
  | Raise ValueError => Raise ValueError
  | Raise e => Raise e
  end.

(** [__str__] *)
Definition to_str (style : year_style) (self : t) : str :=
  strftime style (lit "%d.%m.%Y") (dt_date (value self)).
End Birthday.

(** ** [class Record]

    [Record] is a keyword here, so the class is the module [Rec]. *)

(** [l[i] = v] for an index [i] of [l], the only ones [edit_phone]
    assigns to. *)
Fixpoint list_set {A} (i : nat) (v : A) (l : list A) : list A :=
  match l, i with
  | [], _ => []
  | _ :: l', O => v :: l'
  | x :: l', S i' => x :: list_set i' v l'
  end.

Module Rec.
Record t : Type := {
  name : Name.t;
  phones : list Phone.t;
  birthday : option Birthday.t
}.

Definition set_phones (self : t) (ps : list Phone.t) : t :=
  {| name := name self; phones := ps; birthday := birthday self |}.

Definition set_birthday (self : t) (b : option Birthday.t) : t :=
  {| name := name self; phones := phones self; birthday := b |}.

(** [Record(name)] *)
Definition init (name : str) : t :=
  {| name := {| Name.value := name |}; phones := []; birthday := None |}.

(** Each method returns the record as the call leaves it, and what the
    call returned or raised. *)
Definition add_phone (self : t) (phone : str) : t * result unit :=
  match Phone.init phone with
  | Ok p => (set_phones self (phones self ++ [p]), Ok tt)
  | Raise e => (self, Raise e)
  end.

Definition remove_phone (self : t) (phone : str) : t * result unit :=
  (set_phones self
     (filter (fun p => negb (str_eqb (Phone.value p) phone)) (phones self)),
   Ok tt).

(** The loop of [edit_phone] over [enumerate(self.phones)], from index
    [i] on: [ps] is what is left to visit. *)
Fixpoint edit_phone_from (self : t) (old_phone new_phone : str)
  (i : nat) (ps : list Phone.t) : t * result unit :=
  match ps with
  | [] => (self, Ok tt)
  | phone :: rest =>
      if str_eqb (Phone.value phone) old_phone then
        match Phone.init new_phone with
        | Ok p => (set_phones self (list_set i p (phones self)), Ok tt)
        | Raise e => (self, Raise e)
        end
      else edit_phone_from self old_phone new_phone (S i) rest
  end.

Definition edit_phone (self : t) (old_phone new_phone : str)
  : t * result unit :=
  edit_phone_from self old_phone new_phone 0 (phones self).

Definition add_birthday (self : t) (birthday : str) : t * result unit :=
  match Birthday.init birthday with
  | Ok b => (set_birthday self (Some b), Ok tt)
  | Raise e => (self, Raise e)
  end.

(** [days_to_birthday], with [today] for [datetime.today().date()].
    [self.birthday.value] is a [datetime] and [today] a [date]. *)
Definition days_to_birthday (today : date) (self : t) : result (option Z) :=
  match birthday self with
  | Some b =>
      next_birthday <- datetime_replace_year (Birthday.value b) (year today) ;;
      passed <- py_lt (ODatetime next_birthday) (ODate today) ;;
      next_birthday <-
        (if passed : bool
         then datetime_replace_year (Birthday.value b) (year today + 1)
         else Ok next_birthday) ;;
      delta <- py_sub (ODatetime next_birthday) (ODate today) ;;
      Ok (Some (days delta))
  | None => Ok None
  end.
End Rec.

(** ** [class AddressBook] *)

(** A Python [dict] with [str] keys keeps its items in insertion order;
    assigning to a key it holds keeps the key's place. *)
Definition dict (V : Type) := list (str * V).

Fixpoint dict_get {V} (k : str) (d : dict V) : option V :=
  match d with
  | [] => None
  | (k', v) :: rest => if str_eqb k' k then Some v else dict_get k rest
  end.

Fixpoint dict_set {V} (k : str) (v : V) (d : dict V) : dict V :=
  match d with
  | [] => [(k, v)]
  | (k', v') :: rest =>
      if str_eqb k' k then (k', v) :: rest else (k', v') :: dict_set k v rest
  end.

Definition dict_contains {V} (k : str) (d : dict V) : bool :=
  match dict_get k d with Some _ => true | None => false end.

Fixpoint dict_del {V} (k : str) (d : dict V) : dict V :=
  match d with
  | [] => []
  | (k', v') :: rest =>
      if str_eqb k' k then rest else (k', v') :: dict_del k rest
  end.

Definition dict_values {V} (d : dict V) : list V := map snd d.

(** Lexicographic [<] on [str]. *)
Fixpoint str_ltb (a b : str) : bool :=
  match a, b with
  | _, [] => false
  | [], _ :: _ => true
  | x :: a', y :: b' => (x <? y) || ((x =? y) && str_ltb a' b')
  end.

(** [sorted(l, key=key)]: the stable sort by [key]. *)
Fixpoint insert_by {A} (key : A -> str) (x : A) (l : list A) : list A :=
  match l with
  | [] => [x]
  | y :: l' =>
      if str_ltb (key x) (key y) then x :: y :: l'
      else y :: insert_by key x l'
  end.

Definition sorted {A} (key : A -> str) (l : list A) : list A :=
  fold_left (fun acc x => insert_by key x acc) l [].

(** An item of the list [get_upcoming_birthdays] returns. *)
Record upcoming : Type := { u_name : str; congratulation_date : str }.

Module AddressBook.
Record t : Type := { data : dict Rec.t }.

(** [AddressBook()] *)
Definition init : t := {| data := [] |}.

Definition add_record (self : t) (record : Rec.t) : t :=
  {| data := dict_set (Name.value (Rec.name record)) record (data self) |}.

Definition find (self : t) (name : str) : option Rec.t :=
  dict_get name (data self).

Definition delete (self : t) (name : str) : t :=
  if dict_contains name (data self)
  then {| data := dict_del name (data self) |}
  else self.

(** The birthday of [b] in the year of [today], or in the next one when
    that day is before [today]: [birthday_this_year] as the loop has it
    when it reaches the window test. *)
Definition birthday_this_year (today : date) (b : Birthday.t) : result date :=
  dt <- datetime_replace_year (Birthday.value b) (year today) ;;
  if date_lt (dt_date dt) today then
    dt' <- datetime_replace_year (Birthday.value b) (year today + 1) ;;
    Ok (dt_date dt')
  else Ok (dt_date dt).

(** One turn of the loop over [self.data.values()]: [upcoming_birthdays]
    after the turn for [record]. *)
Definition visit (style : year_style)
  (today next_week first_day_of_next_week : date)
  (upcoming_birthdays : list upcoming) (record : Rec.t)
  : result (list upcoming) :=
  match Rec.birthday record with
  | Some b =>
      bty <- birthday_this_year today b ;;
      if date_le today bty && date_le bty next_week then
        if weekday bty <=? 4 then
          Ok (upcoming_birthdays
              ++ [{| u_name := Name.value (Rec.name record);
                     congratulation_date :=
                       strftime style (lit "%Y.%m.%d") bty |}])
        else if (weekday bty =? 5) || (weekday bty =? 6) then
          Ok (upcoming_birthdays
              ++ [{| u_name := Name.value (Rec.name record);
                     congratulation_date :=
                       strftime style (lit "%Y.%m.%d")
                         first_day_of_next_week |}])
        else Ok upcoming_birthdays
      else Ok upcoming_birthdays
  | None => Ok upcoming_birthdays
  end.

Fixpoint visit_all (style : year_style)
  (today next_week first_day_of_next_week : date)
  (upcoming_birthdays : list upcoming) (records : list Rec.t)
  : result (list upcoming) :=
  match records with
  | [] => Ok upcoming_birthdays
  | record :: rest =>
      u <- visit style today next_week first_day_of_next_week
             upcoming_birthdays record ;;
      visit_all style today next_week first_day_of_next_week u rest
  end.

(** [get_upcoming_birthdays], with [today] for [datetime.today().date()]
    and [style] for the C library at work. *)
Definition get_upcoming_birthdays (style : year_style) (today : date)
  (self : t)
  : result (list upcoming) :=
  next_week <- date_add_days today 7 ;;
  first_day_of_next_week <- date_sub_days next_week (weekday next_week) ;;
  upcoming_birthdays <-
    visit_all style today next_week first_day_of_next_week []
      (dict_values (data self)) ;;
  Ok (sorted congratulation_date upcoming_birthdays).
End AddressBook.

(** ** Sequences of book operations *)

Inductive op : Type :=
| AddRecord (record : Rec.t)
| Delete (name : str)
| Find (name : str).

(** The book after one operation; [find] only reads. *)
Definition step (book : AddressBook.t) (o : op) : AddressBook.t :=
  match o with
  | AddRecord record => AddressBook.add_record book record
  | Delete name => AddressBook.delete book name
  | Find name => let _ := AddressBook.find book name in book
  end.

Definition run (ops : list op) : AddressBook.t :=
  fold_left step ops AddressBook.init.

(** Every key is the name of the record stored under it. *)
Definition keys_are_names (book : AddressBook.t) : Prop :=
  Forall (fun kv : str * Rec.t => fst kv = Name.value (Rec.name (snd kv)))
    (AddressBook.data book).

(** ** Notions for the calendar *)

(** A date the constructor [date] accepts. *)
Definition valid_date (d : date) : Prop :=
  check_date_fields (year d) (month d) (day d) = true.

(** The month and the day [_ord2ymd] finds for the [n]-th day of a year,
    counted from 0: the last part of [ord2ymd], taken apart for the
    proofs. *)
Definition month_day (leapyear : bool) (n : Z) : Z * Z :=
  let month := Z.shiftr (n + 50) 5 in
  let preceding :=
    index DAYS_BEFORE_MONTH month
    + (if (2 <? month) && leapyear then 1 else 0) in
  if n <? preceding then
    let month := month - 1 in
    let preceding :=
      preceding
      - (index DAYS_IN_MONTH month
         + (if (month =? 2) && leapyear then 1 else 0)) in
    (month, n - preceding + 1)
  else (month, n - preceding + 1).

(** What [month_day] must satisfy at [n]. *)
Definition month_day_ok (leapyear : bool) (n : Z) : bool :=
  let '(m, d) := month_day leapyear n in
  (1 <=? m) && (m <=? 12) && (1 <=? d)
  && (d <=? (if (m =? 2) && leapyear then 29 else index DAYS_IN_MONTH m))
  && (index DAYS_BEFORE_MONTH m
      + (if (2 <? m) && leapyear then 1 else 0) + d =? n + 1).

(** ** Notions for the statements *)

(** Exactly ten characters, each a decimal digit for [\d]. *)
Definition ten_decimals (s : str) : Prop :=
  length s = 10%nat /\ Forall (fun c => is_decimal c = true) s.

(** Exactly ten characters, each one of the ASCII digits. *)
Definition ten_ascii_digits (s : str) : Prop :=
  length s = 10%nat /\ Forall (fun c => is_ascii_digit c = true) s.

Definition is_ascii (s : str) : Prop := Forall (fun c => 0 <= c < 128) s.

Definition values_of (ps : list Phone.t) : list str := map Phone.value ps.

(** The entry names a day from [today] to [next_week]. *)
Definition in_window (style : year_style) (today next_week : date)
  (e : upcoming) : Prop :=
  exists d,
    congratulation_date e = strftime style (lit "%Y.%m.%d") d
    /\ valid_date d
    /\ date_le today d = true /\ date_le d next_week = true.

(** The entry of [record] for the day [d]. *)
Definition entry (style : year_style) (record : Rec.t) (d : date)
  : upcoming :=
  {| u_name := Name.value (Rec.name record);
     congratulation_date := strftime style (lit "%Y.%m.%d") d |}.

(** Every birthday of the records can be moved to the year of [today],
    or to the next one when the loop asks for it. *)
Definition birthdays_movable (today : date) (records : list Rec.t) : Prop :=
  forall record b,
    In record records -> Rec.birthday record = Some b ->
    exists bty, AddressBook.birthday_this_year today b = Ok bty.

(** ** Notions for matching and for the birthday format *)

(** [matches r w caps caps']: [r] matches exactly the text [w], and the
    groups [caps] become [caps']. *)
Inductive matches : regex -> str -> captures -> captures -> Prop :=
| M_Eps caps : matches Eps [] caps caps
| M_Lit c caps : matches (Lit c) [c] caps caps
| M_Digit x caps : is_decimal x = true -> matches Digit [x] caps caps
| M_Range lo hi x caps :
    lo <= x <= hi -> matches (Range lo hi) [x] caps caps
| M_Seq r1 r2 w1 w2 caps caps' caps'' :
    matches r1 w1 caps caps' -> matches r2 w2 caps' caps'' ->
    matches (Seq r1 r2) (w1 ++ w2) caps caps''
| M_AltL r1 r2 w caps caps' :
    matches r1 w caps caps' -> matches (Alt r1 r2) w caps caps'
| M_AltR r1 r2 w caps caps' :
    matches r2 w caps caps' -> matches (Alt r1 r2) w caps caps'
| M_Group name r w caps caps' :
    matches r w caps caps' ->
    matches (Group name r) w caps ((name, w) :: caps').

(** The full stop. *)
Definition dot : char := 46.

(** The regular expression of the format [%d.%m.%Y]. *)
Definition birthday_regex : regex :=
  Seq (Group "d"
         (Alt (Seq (Lit 51) (Range 48 49))
         (Alt (Seq (Range 49 50) Digit)
         (Alt (Seq (Lit 48) (Range 49 57))
         (Alt (Range 49 57)
              (Seq (Lit 32) (Range 49 57)))))))
 (Seq (Lit dot)
 (Seq (Group "m"
         (Alt (Seq (Lit 49) (Range 48 50))
         (Alt (Seq (Lit 48) (Range 49 57))
              (Range 49 57))))
 (Seq (Lit dot)
 (Seq (Group "Y" (Seq Digit (Seq Digit (Seq Digit Digit))))
      Eps)))).

(** The texts [%d] reads: 30 or 31, 1 or 2 and a decimal digit, 0 and a
    digit from 1 to 9, one digit from 1 to 9, or a blank and such a
    digit. *)
Definition day_text (t : str) : Prop :=
  match t with
  | [a] => 49 <= a <= 57
  | [a; b] =>
      (a = 51 /\ 48 <= b <= 49)
      \/ (49 <= a <= 50 /\ is_decimal b = true)
      \/ (a = 48 /\ 49 <= b <= 57)
      \/ (a = 32 /\ 49 <= b <= 57)
  | _ => False
  end.

(** The texts [%m] reads: 10 to 12, 0 and a digit from 1 to 9, or one
    digit from 1 to 9. *)
Definition month_text (t : str) : Prop :=
  match t with
  | [a] => 49 <= a <= 57
  | [a; b] => (a = 49 /\ 48 <= b <= 50) \/ (a = 48 /\ 49 <= b <= 57)
  | _ => False
  end.

(** The texts [%Y] reads: four decimal digits. *)
Definition year_text (t : str) : Prop :=
  length t = 4%nat /\ Forall (fun c => is_decimal c = true) t.

(** [s] is a day, a month and a year as [%d.%m.%Y] reads them, with full
    stops between, and [int] gives them the values [d], [m] and [y]. *)
Definition dotted_date (s : str) (y m d : Z) : Prop :=
  exists dt mt yt,
    s = dt ++ dot :: mt ++ dot :: yt
    /\ day_text dt /\ month_text mt /\ year_text yt
    /\ py_int dt = Ok d /\ py_int mt = Ok m /\ py_int yt = Ok y.

(** The ASCII digit of [v]. *)
Definition digit (v : Z) : char := 48 + v.

(** [s] is [DD.MM.YYYY] in ASCII digits, zeros in front, for the day [d],
    the month [m] and the year [y]. *)
Definition padded_date (s : str) (y m d : Z) : Prop :=
  exists d1 d2 m1 m2 y1 y2 y3 y4,
    s = [digit d1; digit d2; dot; digit m1; digit m2; dot;
         digit y1; digit y2; digit y3; digit y4]
    /\ Forall (fun v => 0 <= v <= 9) [d1; d2; m1; m2; y1; y2; y3; y4]
    /\ d = 10 * d1 + d2 /\ m = 10 * m1 + m2
    /\ y = 1000 * y1 + 100 * y2 + 10 * y3 + y4.

(** Midnight of a day. *)
Definition midnight (y m d : Z) : datetime :=
  {| dt_date := {| year := y; month := m; day := d |};
     hour := 0; minute := 0; second := 0; microsecond := 0 |}.

(** ** Sample data *)

(** Ten Arabic-Indic digits, U+0660 to U+0669. *)
Definition arabic_indic_number : str :=
  [0x660; 0x661; 0x662; 0x663; 0x664; 0x665; 0x666; 0x667; 0x668; 0x669].

Definition two_phones : Rec.t :=
  {| Rec.name := {| Name.value := lit "Ann" |};
     Rec.phones := [ {| Phone.value := lit "0123456789" |};
                     {| Phone.value := lit "1111111111" |};
                     {| Phone.value := lit "1111111111" |} ];
     Rec.birthday := None |}.

Definition june_3_2024 : date := {| year := 2024; month := 6; day := 3 |}.

(** A contact born on the given day, as [add_birthday] stores it. *)
Definition born (name birthday : string) : Rec.t :=
  fst (Rec.add_birthday (Rec.init (lit name)) (lit birthday)).

Definition june_1_2023 : date := {| year := 2023; month := 6; day := 1 |}.

Definition june_5_2023 : date := {| year := 2023; month := 6; day := 5 |}.

(** Bob, born on 08.06, alone in a book. *)
Definition bob_book : AddressBook.t :=
  AddressBook.add_record AddressBook.init (born "Bob" "08.06.1990").

(** A book with Bob, born on 10.06, and Eve, born on 29.02. *)
Definition bob_and_eve : AddressBook.t :=
  AddressBook.add_record
    (AddressBook.add_record AddressBook.init (born "Bob" "10.06.1990"))
    (born "Eve" "29.02.2000").

Definition dec_27_9999 : date := {| year := 9999; month := 12; day := 27 |}.

(** Bob, born on 28.12, alone in a book. *)
Definition late_book : AddressBook.t :=
  AddressBook.add_record AddressBook.init (born "Bob" "28.12.1990").

(** ** Calls on a record, one after the other *)

(** A call of one of the methods that change a record. *)
Inductive method : Type :=
| AddPhone (phone : str)
| RemovePhone (phone : str)
| EditPhone (old_phone new_phone : str)
| AddBirthday (birthday : str).

(** The record after the call, whether the call returned or raised. *)
Definition call (self : Rec.t) (m : method) : Rec.t :=
  match m with
  | AddPhone phone => fst (Rec.add_phone self phone)
  | RemovePhone phone => fst (Rec.remove_phone self phone)
  | EditPhone old_phone new_phone =>
      fst (Rec.edit_phone self old_phone new_phone)
  | AddBirthday birthday => fst (Rec.add_birthday self birthday)
  end.

(** What a record built by the methods holds: phones [Phone] accepts, and
    a birthday that is the midnight of a real date. *)
Definition well_formed (self : Rec.t) : Prop :=
  Forall (fun p => ten_decimals (Phone.value p)) (Rec.phones self)
  /\ match Rec.birthday self with
     | Some b =>
         exists y m d,
           check_date_fields y m d = true
           /\ Birthday.value b = midnight y m d
     | None => True
     end.

(** The keys of a book, in the order of the dict. *)
Definition keys (book : AddressBook.t) : list str :=
  map fst (AddressBook.data book).

(** ** Notions for the list of upcoming birthdays *)

(** What the loop of [get_upcoming_birthdays] adds for one record: its
    entry when the birthday falls inside the window, nothing otherwise. *)
Definition reported (style : year_style)
  (today next_week first_day_of_next_week : date) (record : Rec.t)
  : list upcoming :=
  match Rec.birthday record with
  | Some b =>
      match AddressBook.birthday_this_year today b with
      | Ok bty =>
          if date_le today bty && date_le bty next_week then
            [entry style record
               (if weekday bty <=? 4 then bty else first_day_of_next_week)]
          else []
      | Raise _ => []
      end
  | None => []
  end.



(** The last day from which seven days can be added. *)
Definition dec_24_9999 : date := {| year := 9999; month := 12; day := 24 |}.

Definition june_8_2024 : date := {| year := 2024; month := 6; day := 8 |}.

(** Kim, born on 15.06, alone in a book. *)
Definition kim_book : AddressBook.t :=
  AddressBook.add_record AddressBook.init (born "Kim" "15.06.1990").

(** ** The command handlers *)

(** What a handler can raise: besides the exceptions of the classes,
    [IndexError] and [KeyError]. *)
Inductive raised : Type :=
| IndexError
| KeyError
| Core (e : exn).

Inductive outcome (A : Type) : Type :=
| Returns (a : A)
| Raises (r : raised).
Arguments Returns {A} a.
Arguments Raises {A} r.

(** What a handler returns: a text, or [f"Error: {e}"] for the
    [ValueError] it caught, whose message is not modelled. *)
Inductive reply : Type :=
| Text (s : str)
| ValueErrorText.

(** The two fixed texts of [input_error], in Ukrainian. *)
Definition not_enough_arguments : str :=
  [69; 114; 114; 111; 114; 58; 32; 1085; 1077; 1076; 1086; 1089; 1090;
   1072; 1090; 1085; 1100; 1086; 32; 1072; 1088; 1075; 1091; 1084; 1077;
   1085; 1090; 1110; 1074; 46].

Definition contact_not_found : str :=
  [69; 114; 114; 111; 114; 58; 32; 1082; 1086; 1085; 1090; 1072; 1082;
   1090; 32; 1085; 1077; 32; 1079; 1085; 1072; 1081; 1076; 1077; 1085;
   1086; 46].

(** [input_error(handler)], applied: [IndexError], [KeyError] and
    [ValueError] become texts, every other exception goes through.  The
    book is the one the handler left. *)
Definition input_error (h : AddressBook.t * outcome reply)
  : AddressBook.t * outcome reply :=
  match snd h with
  | Raises IndexError => (fst h, Returns (Text not_enough_arguments))
  | Raises KeyError => (fst h, Returns (Text contact_not_found))
  | Raises (Core ValueError) => (fst h, Returns ValueErrorText)
  | _ => h
  end.

(** A method call on the record object found under [name]: the book
    holds that object, so it holds the record as the call left it.  (Each
    record object is stored under one key.) *)
Definition update (book : AddressBook.t) (name : str) (record : Rec.t)
  : AddressBook.t :=
  {| AddressBook.data := dict_set name record (AddressBook.data book) |}.

(** [add_contact], before [input_error]. *)
Definition add_contact_body (args : list str) (book : AddressBook.t)
  : AddressBook.t * outcome reply :=
  match args with
  | name :: phone :: _ =>
      let '(book, record, message) :=
        match AddressBook.find book name with
        | None =>
            let record := Rec.init name in
            (AddressBook.add_record book record, record,
             lit "Contact added.")
        | Some record => (book, record, lit "Contact updated.")
        end in
      match phone with
      | [] => (book, Returns (Text message))
      | _ :: _ =>
          let '(record, r) := Rec.add_phone record phone in
          match r with
          | Ok _ => (update book name record, Returns (Text message))
          | Raise e => (update book name record, Raises (Core e))
          end
      end
  | _ => (book, Raises (Core ValueError))
  end.

Definition add_contact (args : list str) (book : AddressBook.t)
  : AddressBook.t * outcome reply :=
  input_error (add_contact_body args book).

(** The handler [add_birthday], before [input_error]. *)
Definition add_birthday_body (args : list str) (book : AddressBook.t)
  : AddressBook.t * outcome reply :=
  match args with
  | name :: birthday :: _ =>
      match AddressBook.find book name with
      | None => (book, Returns (Text (lit "Error: contact not found.")))
      | Some record =>
          let '(record, r) := Rec.add_birthday record birthday in
          match r with
          | Ok _ =>
              (update book name record,
               Returns (Text (lit "Birthday added successfully.")))
          | Raise e => (update book name record, Raises (Core e))
          end
      end
  | _ => (book, Raises (Core ValueError))
  end.

Definition add_birthday (args : list str) (book : AddressBook.t)
  : AddressBook.t * outcome reply :=
  input_error (add_birthday_body args book).

(** [show_birthday], before [input_error]. *)
Definition show_birthday_body (style : year_style) (args : list str)
  (book : AddressBook.t) : AddressBook.t * outcome reply :=
  match args with
  | [] => (book, Raises IndexError)
  | name :: _ =>
      match AddressBook.find book name with
      | Some {| Rec.birthday := Some b |} =>
          (book,
           Returns (Text (name ++ lit "'s birthday is on "
                          ++ Birthday.to_str style b)))
      | _ =>
          (book,
           Returns
             (Text (lit "No birthday information found for this contact.")))
      end
  end.

Definition show_birthday (style : year_style) (args : list str)
  (book : AddressBook.t) : AddressBook.t * outcome reply :=
  input_error (show_birthday_body style args book).

(** [sep.join(l)] *)
Definition join (sep : str) (l : list str) : str :=
  match l with
  | [] => []
  | x :: rest => x ++ flat_map (fun y => sep ++ y) rest
  end.

(** [f"{item['name']}: {item['congratulation_date']}"] *)
Definition line_of (item : upcoming) : str :=
  u_name item ++ lit ": " ++ congratulation_date item.

(** [birthdays], before [input_error], with [today] for the day of the
    call. *)
Definition birthdays_body (style : year_style) (today : date)
  (args : list str) (book : AddressBook.t) : AddressBook.t * outcome reply :=
  match AddressBook.get_upcoming_birthdays style today book with
  | Raise e => (book, Raises (Core e))
  | Ok [] => (book, Returns (Text (lit "No birthdays in the coming week.")))
  | Ok upcoming_birthdays =>
      (book, Returns (Text (join [10] (map line_of upcoming_birthdays))))
  end.

Definition birthdays (style : year_style) (today : date)
  (args : list str) (book : AddressBook.t) : AddressBook.t * outcome reply :=
  input_error (birthdays_body style today args book).

(** [s.split()]: the words between runs of white space; [word] is the
    word being read. *)
Fixpoint split_from (word : str) (s : str) : list str :=
  match s with
  | [] => match word with [] => [] | _ :: _ => [word] end
  | c :: s' =>
      if is_space c then
        match word with
        | [] => split_from [] s'
        | _ :: _ => word :: split_from [] s'
        end
      else split_from (word ++ [c]) s'
  end.

Definition split (s : str) : list str := split_from [] s.

(** [parse_input], with [lower] for [str.lower]. *)
Definition parse_input (lower : str -> str) (user_input : str)
  : outcome (str * list str) :=
  match split user_input with
  | [] => Raises IndexError
  | first :: args => Returns (lower first, args)
  end.

(** A word of a line: not empty, and without white space. *)
Definition is_word (t : str) : Prop :=
  t <> [] /\ Forall (fun c => is_space c = false) t.


(** ** The loop of [main] *)

(** [str(record)] *)
Definition record_str (style : year_style) (self : Rec.t) : str :=
  lit "Contact name: " ++ Name.value (Rec.name self)
  ++ lit ", phones: "
  ++ join (lit "; ") (map Phone.value (Rec.phones self))
  ++ lit ", birthday: "
  ++ match Rec.birthday self with
     | Some b => Birthday.to_str style b
     | None => lit "Not set"
     end.

(** What a command of the loop does: the book as it leaves it, and the
    lines it prints, or the exception it raises. *)
Definition command_result : Type := AddressBook.t * outcome (list reply).

(** [print(handler(args, book))] *)
Definition print (h : AddressBook.t * outcome reply) : command_result :=
  match snd h with
  | Returns r => (fst h, Returns [r])
  | Raises e => (fst h, Raises e)
  end.

(** The case ["change"]. *)
Definition case_change (args : list str) (book : AddressBook.t)
  : AddressBook.t * outcome reply :=
  match args with
  | [name; old_phone; new_phone] =>
      match AddressBook.find book name with
      | Some record =>
          let '(record, r) := Rec.edit_phone record old_phone new_phone in
          match r with
          | Ok _ =>
              (update book name record,
               Returns (Text (lit "Phone number updated.")))
          | Raise e => (update book name record, Raises (Core e))
          end
      | None => (book, Returns (Text (lit "Contact not found.")))
      end
  | _ => (book, Raises (Core ValueError))
  end.

(** The case ["phone"]. *)
Definition case_phone (args : list str) (book : AddressBook.t)
  : AddressBook.t * outcome reply :=
  match args with
  | [] => (book, Raises IndexError)
  | name :: _ =>
      match AddressBook.find book name with
      | Some record =>
          (book,
           Returns
             (Text (name ++ lit "'s phones: "
                    ++ join (lit ", ")
                         (map Phone.value (Rec.phones record)))))
      | None => (book, Returns (Text (lit "Contact not found.")))
      end
  end.

(** The case ["all"]. *)
Definition case_all (style : year_style) (book : AddressBook.t)
  : command_result :=
  (book,
   Returns
     (map (fun record => Text (record_str style record))
        (dict_values (AddressBook.data book)))).

(** The cases of [match command] other than ["close"] and ["exit"], on
    the day [today]. *)
Definition run_command (style : year_style) (today : date)
  (command : str) (args : list str) (book : AddressBook.t)
  : command_result :=
  if str_eqb command (lit "hello") then
    (book, Returns [Text (lit "How can I help you?")])
  else if str_eqb command (lit "add") then print (add_contact args book)
  else if str_eqb command (lit "change") then print (case_change args book)
  else if str_eqb command (lit "phone") then print (case_phone args book)
  else if str_eqb command (lit "all") then case_all style book
  else if str_eqb command (lit "add-birthday") then
    print (add_birthday args book)
  else if str_eqb command (lit "show-birthday") then
    print (show_birthday style args book)
  else if str_eqb command (lit "birthdays") then
    print (birthdays style today args book)
  else (book, Returns [Text (lit "Invalid command.")]).

(** How a run over the lines read so far stands: the loop was left and
    [save_data(book)] called, an exception nothing catches ended the
    program before [save_data], or the loop waits for the next line. *)
Inductive ending : Type :=
| Saved (book : AddressBook.t)
| Uncaught (r : raised)
| Reading (book : AddressBook.t).

(** The loop of [main] over the lines entered, each with the day it is
    entered on: the lines printed, and how the run stands.  (The prompt
    of [input] is not among the lines printed.) *)
Fixpoint main_loop (lower : str -> str) (style : year_style)
  (book : AddressBook.t) (inputs : list (date * str))
  : list reply * ending :=
  match inputs with
  | [] => ([], Reading book)
  | (today, user_input) :: inputs =>
      match parse_input lower user_input with
      | Raises r => ([], Uncaught r)
      | Returns (command, args) =>
          if str_eqb command (lit "close") || str_eqb command (lit "exit")
          then ([Text (lit "Good bye!")], Saved book)
          else
            match run_command style today command args book with
            | (book, Returns printed) =>
                let '(more, e) := main_loop lower style book inputs in
                (printed ++ more, e)
            | (_, Raises r) => ([], Uncaught r)
            end
      end
  end.

(** [main], with [book] for what [load_data] returned. *)
Definition main (lower : str -> str) (style : year_style)
  (book : AddressBook.t) (inputs : list (date * str))
  : list reply * ending :=
  let '(printed, e) := main_loop lower style book inputs in
  (Text (lit "Welcome to the assistant bot!") :: printed, e).

(** [str.lower] on a text of ASCII characters. *)
Definition ascii_lower (s : str) : str :=
  map (fun c => if (65 <=? c) && (c <=? 90) then c + 32 else c) s.

(** ** Notions for the lines of the loop *)

(** A text of white space only. *)
Definition blank (t : str) : Prop := Forall (fun c => is_space c = true) t.

(** The words [words], each behind its gap. *)
Fixpoint gapped (gaps words : list str) : str :=
  match gaps, words with
  | gap :: gaps, word :: words => gap ++ word ++ gapped gaps words
  | _, _ => []
  end.

(** Ann, with her three numbers, alone in a book. *)
Definition ann_book : AddressBook.t :=
  AddressBook.add_record AddressBook.init two_phones.

(** A book with Bob, born on 10.06, and Kim, born on 15.06. *)
Definition bob_and_kim : AddressBook.t :=
  AddressBook.add_record
    (AddressBook.add_record AddressBook.init (born "Bob" "10.06.1990"))
    (born "Kim" "15.06.1990").
(** * Properties *)

(** ** Strings and digits *)

Lemma str_eqb_eq (a b : str) : str_eqb a b = true <-> a = b.
Proof.
  unfold str_eqb. destruct (list_eq_dec Z.eq_dec a b); split; congruence.
Qed.

Lemma str_eqb_refl (a : str) : str_eqb a a = true.
Proof. now apply str_eqb_eq. Qed.

Lemma str_eqb_neq (a b : str) : str_eqb a b = false <-> a <> b.
Proof.
  unfold str_eqb. destruct (list_eq_dec Z.eq_dec a b); split; congruence.
Qed.

Lemma find_none_below (c : char) (zeros : list Z) :
  Forall (fun z => c < z) zeros ->
  find (fun z => (z <=? c) && (c <? z + 10)) zeros = None.
Proof.
  induction 1 as [|z l Hz _ IH]; simpl; [reflexivity|].
  replace (z <=? c) with false by (symmetry; apply Z.leb_gt; lia).
  exact IH.
Qed.

(** Below U+0660 the decimal digits are the ASCII ones. *)
Lemma is_decimal_ascii (c : char) :
  c < 0x660 -> is_decimal c = is_ascii_digit c.
Proof.
  intros Hc. unfold is_decimal, decimal, decimal_in, nd_zeros, is_ascii_digit.
  match goal with
  | |- context [find ?f (?z :: ?l)] =>
      change (find f (z :: l)) with (if f z then Some z else find f l)
  end.
  cbv beta.
  destruct ((48 <=? c) && (c <? 48 + 10)) eqn:E.
  - apply andb_true_iff in E as [E1 E2].
    apply Z.leb_le in E1. apply Z.ltb_lt in E2.
    symmetry. apply andb_true_iff. split; apply Z.leb_le; lia.
  - rewrite find_none_below by (repeat constructor; lia).
    symmetry. apply andb_false_iff.
    apply andb_false_iff in E as [E|E];
      [left; exact E | right; apply Z.leb_gt; apply Z.ltb_ge in E; lia].
Qed.

Lemma is_ascii_digit_decimal (c : char) :
  is_ascii_digit c = true -> is_decimal c = true.
Proof.
  intros H. rewrite is_decimal_ascii; [exact H|].
  unfold is_ascii_digit in H. apply andb_true_iff in H as [_ H].
  apply Z.leb_le in H. lia.
Qed.

(** ** Matching *)

Lemma consumed_app (w rest : str) : consumed (w ++ rest) rest = w.
Proof.
  unfold consumed. rewrite length_app, Nat.add_sub.
  rewrite firstn_app, Nat.sub_diag, firstn_all. cbn. apply app_nil_r.
Qed.

(** What [rmatch] finds is a match of a prefix, handed on to [k]. *)
Lemma rmatch_sound {A} (r : regex) :
  forall (s : str) (caps : captures) (k : str -> captures -> option A) x,
    rmatch r s caps k = Some x ->
    exists w rest caps',
      s = w ++ rest /\ matches r w caps caps' /\ k rest caps' = Some x.
Proof.
  induction r as [|c| |lo hi|r1 IH1 r2 IH2|r1 IH1 r2 IH2|name r IH];
    intros s caps k x; cbn [rmatch].
  - intros H. exists [], s, caps. repeat split; [constructor | exact H].
  - destruct s as [|y s]; [discriminate|].
    destruct (Z.eqb_spec y c) as [->|]; [|discriminate].
    intros H. exists [c], s, caps. repeat split; [constructor | exact H].
  - destruct s as [|y s]; [discriminate|].
    destruct (is_decimal y) eqn:D; [|discriminate].
    intros H. exists [y], s, caps. repeat split; [now constructor | exact H].
  - destruct s as [|y s]; [discriminate|].
    destruct ((lo <=? y) && (y <=? hi)) eqn:D; [|discriminate].
    apply andb_true_iff in D as [D1 D2].
    apply Z.leb_le in D1. apply Z.leb_le in D2.
    intros H. exists [y], s, caps.
    repeat split; [constructor; lia | exact H].
  - intros H. apply IH1 in H as (w1 & rest1 & caps1 & -> & M1 & H).
    apply IH2 in H as (w2 & rest2 & caps2 & -> & M2 & H).
    exists (w1 ++ w2), rest2, caps2. rewrite <- app_assoc.
    repeat split; [econstructor; eassumption | exact H].
  - destruct (rmatch r1 s caps k) as [a|] eqn:E.
    + intros [= ->]. apply IH1 in E as (w & rest & caps' & -> & M & H).
      exists w, rest, caps'. repeat split; [now apply M_AltL | exact H].
    + intros H. apply IH2 in H as (w & rest & caps' & -> & M & H).
      exists w, rest, caps'. repeat split; [now apply M_AltR | exact H].
  - intros H. apply IH in H as (w & rest & caps' & -> & M & H).
    rewrite consumed_app in H.
    exists w, rest, ((name, w) :: caps').
    repeat split; [now constructor | exact H].
Qed.

(** Where a prefix matches and [k] takes the rest, [rmatch] finds a
    match, this one or one it tries before it. *)
Lemma rmatch_complete {A} (r : regex) (w : str) (caps caps' : captures) :
  matches r w caps caps' ->
  forall (rest : str) (k : str -> captures -> option A) x,
    k rest caps' = Some x ->
    exists y, rmatch r (w ++ rest) caps k = Some y.
Proof.
  induction 1 as [caps|c caps|y caps D|lo hi y caps D
                 |r1 r2 w1 w2 caps caps' caps'' M1 IH1 M2 IH2
                 |r1 r2 w caps caps' M IH|r1 r2 w caps caps' M IH
                 |name r w caps caps' M IH];
    intros rest k x Hk; cbn [rmatch app].
  - eauto.
  - rewrite Z.eqb_refl. eauto.
  - rewrite D. eauto.
  - replace ((lo <=? y) && (y <=? hi)) with true; [eauto|].
    symmetry. apply andb_true_iff. split; apply Z.leb_le; lia.
  - rewrite <- app_assoc.
    destruct (IH2 rest k x Hk) as [y Hy].
    exact (IH1 (w2 ++ rest) (fun s' c' => rmatch r2 s' c' k) y Hy).
  - destruct (IH rest k x Hk) as [y ->]. eauto.
  - destruct (rmatch r1 (w ++ rest) caps k); [eauto|].
    exact (IH rest k x Hk).
  - apply (IH rest
             (fun s' c' => k s' ((name, consumed (w ++ rest) s') :: c')) x).
    rewrite consumed_app. exact Hk.
Qed.

Lemma re_match_sound (r : regex) (s : str) (found : match_object) :
  re_match r s = Some found ->
  exists w rest,
    s = w ++ rest /\ matches r w [] (m_groups found)
    /\ m_end found = length w.
Proof.
  unfold re_match. intros H.
  apply rmatch_sound in H as (w & rest & caps' & -> & M & [= <-]).
  exists w, rest. cbn. rewrite length_app, Nat.add_sub. auto.
Qed.

Lemma re_match_complete (r : regex) (w rest : str) (caps' : captures) :
  matches r w [] caps' ->
  exists found, re_match r (w ++ rest) = Some found.
Proof.
  intros M. unfold re_match.
  eapply (rmatch_complete r w [] caps' M rest). reflexivity.
Qed.

(** *** A run of digits *)

Lemma rmatch_times_digit {A} (n : nat) :
  forall (s : str) (caps : captures) (k : str -> captures -> option A),
    rmatch (times n Digit) s caps k =
    if (n <=? length s)%nat && forallb is_decimal (firstn n s)
    then k (skipn n s) caps else None.
Proof.
  induction n as [|n IH]; intros s caps k; simpl.
  - reflexivity.
  - destruct s as [|x s]; simpl; [reflexivity|].
    destruct (is_decimal x); simpl; [apply IH|].
    now rewrite andb_false_r.
Qed.

Lemma forallb_Forall_true {A} (f : A -> bool) (l : list A) :
  forallb f l = true <-> Forall (fun x => f x = true) l.
Proof. rewrite forallb_forall, Forall_forall. reflexivity. Qed.

Lemma fullmatch_times_digit (n : nat) (s : str) :
  re_fullmatch (times n Digit) s =
  if (length s =? n)%nat && forallb is_decimal s
  then Some {| m_end := length s; m_groups := [] |} else None.
Proof.
  unfold re_fullmatch. rewrite rmatch_times_digit.
  destruct (Nat.leb_spec n (length s)) as [Hle|Hlt].
  - destruct (Nat.eqb_spec (length s) n) as [He|Hne].
    + rewrite firstn_all2, skipn_all2 by lia. cbn [andb].
      destruct (forallb is_decimal s); reflexivity.
    + cbn [andb]. destruct (skipn n s) eqn:Hs.
      * apply skipn_all_iff in Hs. lia.
      * destruct (forallb is_decimal (firstn n s)); reflexivity.
  - cbn [andb]. destruct (Nat.eqb_spec (length s) n) as [He|Hne]; [lia|].
    reflexivity.
Qed.

(** ** The calendar *)

Ltac split_month m :=
  let H := fresh in
  assert (H : m = 1 \/ m = 2 \/ m = 3 \/ m = 4 \/ m = 5 \/ m = 6 \/ m = 7
              \/ m = 8 \/ m = 9 \/ m = 10 \/ m = 11 \/ m = 12) by lia;
  repeat (destruct H as [H|H]; [subst m|]); [..|subst m].

(** Table entries at a literal index, computed. *)
Ltac eval_tables :=
  repeat match goal with
  | |- context [index ?t ?k] =>
      let v := eval vm_compute in (index t k) in
      change (index t k) with v
  end.

Ltac simpl_bools :=
  cbn [Z.eqb Pos.eqb andb orb negb Z.ltb Z.compare Pos.compare
       Pos.compare_cont] in *.

Lemma valid_date_fields (d : date) :
  valid_date d <->
  1 <= year d <= 9999 /\ 1 <= month d <= 12
  /\ 1 <= day d <= days_in_month (year d) (month d).
Proof.
  unfold valid_date, check_date_fields, MINYEAR, MAXYEAR.
  rewrite !andb_true_iff, !Z.leb_le. tauto.
Qed.

Lemma is_leap_spec (y : Z) :
  is_leap y = true <-> y mod 4 = 0 /\ (y mod 100 <> 0 \/ y mod 400 = 0).
Proof.
  unfold is_leap.
  rewrite andb_true_iff, orb_true_iff, negb_true_iff, !Z.eqb_eq, Z.eqb_neq.
  tauto.
Qed.

Lemma days_before_year_succ (y : Z) :
  days_before_year (y + 1)
  = days_before_year y + 365 + (if is_leap y then 1 else 0).
Proof.
  unfold days_before_year. cbv zeta. replace (y + 1 - 1) with y by lia.
  destruct (is_leap y) eqn:L.
  - apply is_leap_spec in L. Z.div_mod_to_equations. lia.
  - assert (N : ~ (y mod 4 = 0 /\ (y mod 100 <> 0 \/ y mod 400 = 0)))
      by (rewrite <- is_leap_spec; congruence).
    Z.div_mod_to_equations. lia.
Qed.

Lemma days_before_year_mono (y1 y2 : Z) :
  y1 <= y2 -> days_before_year y1 <= days_before_year y2.
Proof.
  intros H. destruct (Z.eq_dec y1 y2) as [->|N]; [lia|].
  unfold days_before_year. cbv zeta. Z.div_mod_to_equations. lia.
Qed.

Lemma days_in_month_bounds (y m : Z) :
  1 <= m <= 12 -> 28 <= days_in_month y m <= 31.
Proof.
  intros H. unfold days_in_month. split_month m;
    destruct (is_leap y); eval_tables; cbn; lia.
Qed.

Lemma days_before_month_succ (y m : Z) :
  1 <= m < 12 ->
  days_before_month y (m + 1) = days_before_month y m + days_in_month y m.
Proof.
  intros H. unfold days_before_month, days_in_month. split_month m;
    try lia; destruct (is_leap y); eval_tables; cbn; lia.
Qed.

Lemma days_before_month_bounds (y m : Z) :
  1 <= m <= 12 ->
  0 <= days_before_month y m
  /\ days_before_month y m + days_in_month y m
     <= 365 + (if is_leap y then 1 else 0).
Proof.
  intros H. unfold days_before_month, days_in_month. split_month m;
    destruct (is_leap y); eval_tables; cbn; lia.
Qed.

Lemma days_before_month_lt (y m1 m2 : Z) :
  1 <= m1 -> m1 < m2 -> m2 <= 12 ->
  days_before_month y m1 + days_in_month y m1 <= days_before_month y m2.
Proof.
  intros H1 H2 H3. unfold days_before_month, days_in_month.
  split_month m1; split_month m2; try lia;
    destruct (is_leap y); eval_tables; cbn; lia.
Qed.

Lemma date_cmp_eq (a b : date) : date_cmp a b = Eq -> a = b.
Proof.
  destruct a as [y1 m1 d1], b as [y2 m2 d2]. unfold date_cmp. cbn.
  destruct (Z.compare_spec y1 y2); try discriminate.
  destruct (Z.compare_spec m1 m2); try discriminate.
  destruct (Z.compare_spec d1 d2); try discriminate.
  intros _. congruence.
Qed.

Lemma date_cmp_antisym (a b : date) : date_cmp b a = CompOpp (date_cmp a b).
Proof.
  unfold date_cmp.
  rewrite (Z.compare_antisym (year a)), (Z.compare_antisym (month a)),
    (Z.compare_antisym (day a)).
  destruct (year a ?= year b); cbn; try reflexivity.
  destruct (month a ?= month b); reflexivity.
Qed.

Lemma toordinal_lt (a b : date) :
  valid_date a -> valid_date b -> date_cmp a b = Lt ->
  toordinal a < toordinal b.
Proof.
  intros Ha Hb. apply valid_date_fields in Ha, Hb.
  destruct a as [y1 m1 d1], b as [y2 m2 d2]. cbn in Ha, Hb.
  unfold date_cmp, toordinal, ymd2ord. cbn [year month day].
  pose proof (days_before_month_bounds y1 m1 ltac:(lia)) as B1.
  pose proof (days_before_month_bounds y2 m2 ltac:(lia)) as B2.
  destruct (Z.compare_spec y1 y2) as [->|Hy|Hy]; try discriminate.
  - destruct (Z.compare_spec m1 m2) as [->|Hm|Hm]; try discriminate.
    + destruct (Z.compare_spec d1 d2); try discriminate. lia.
    + intros _.
      pose proof (days_before_month_lt y2 m1 m2 ltac:(lia) Hm ltac:(lia)).
      lia.
  - intros _.
    pose proof (days_before_year_succ y1) as S1.
    pose proof (days_before_year_mono (y1 + 1) y2 ltac:(lia)).
    lia.
Qed.

Lemma date_le_ordinal (a b : date) :
  valid_date a -> valid_date b ->
  (date_le a b = true <-> toordinal a <= toordinal b).
Proof.
  intros Ha Hb. unfold date_le.
  destruct (date_cmp a b) eqn:C.
  - apply date_cmp_eq in C. subst. split; [lia | reflexivity].
  - pose proof (toordinal_lt a b Ha Hb C). split; [lia | reflexivity].
  - assert (C' : date_cmp b a = Lt)
      by (rewrite date_cmp_antisym, C; reflexivity).
    pose proof (toordinal_lt b a Hb Ha C'). split; [discriminate | lia].
Qed.

Lemma toordinal_inj (a b : date) :
  valid_date a -> valid_date b -> toordinal a = toordinal b -> a = b.
Proof.
  intros Ha Hb E. destruct (date_cmp a b) eqn:C.
  - now apply date_cmp_eq.
  - pose proof (toordinal_lt a b Ha Hb C). lia.
  - assert (C' : date_cmp b a = Lt)
      by (rewrite date_cmp_antisym, C; reflexivity).
    pose proof (toordinal_lt b a Hb Ha C'). lia.
Qed.

Lemma toordinal_bounds (d : date) :
  valid_date d -> 1 <= toordinal d <= MAXORDINAL.
Proof.
  intros H. apply valid_date_fields in H. destruct d as [y m d].
  cbn in H. unfold toordinal, ymd2ord. cbn [year month day].
  pose proof (days_before_month_bounds y m ltac:(lia)).
  pose proof (days_before_year_mono 1 y ltac:(lia)) as L.
  pose proof (days_before_year_mono (y + 1) 10000 ltac:(lia)) as U.
  rewrite days_before_year_succ in U.
  change (days_before_year 1) with 0 in L.
  change (days_before_year 10000) with 3652059 in U.
  unfold MAXORDINAL. lia.
Qed.

(** *** From an ordinal to a date and back *)

Lemma month_day_checked :
  forallb (month_day_ok true) (map Z.of_nat (seq 0 366)) = true
  /\ forallb (month_day_ok false) (map Z.of_nat (seq 0 365)) = true.
Proof. split; vm_compute; reflexivity. Qed.

Lemma month_day_spec (leapyear : bool) (n : Z) :
  0 <= n < 365 + (if leapyear then 1 else 0) ->
  month_day_ok leapyear n = true.
Proof.
  intros H. destruct month_day_checked as [Ht Hf].
  rewrite forallb_forall in Ht, Hf.
  assert (E : n = Z.of_nat (Z.to_nat n)) by lia. rewrite E.
  destruct leapyear; [apply Ht | apply Hf];
    apply in_map, in_seq; lia.
Qed.

Lemma ord2ymd_unfold (n : Z) :
  ord2ymd n =
  let n0 := n - 1 in
  let n400 := n0 / DI400Y in
  let r1 := n0 mod DI400Y in
  let n100 := r1 / DI100Y in
  let r2 := r1 mod DI100Y in
  let n4 := r2 / DI4Y in
  let r3 := r2 mod DI4Y in
  let n1 := r3 / 365 in
  let r4 := r3 mod 365 in
  let y := n400 * 400 + 1 + n100 * 100 + n4 * 4 + n1 in
  if (n1 =? 4) || (n100 =? 4) then (y - 1, 12, 31)
  else
    let '(m, d) :=
      month_day ((n1 =? 3) && (negb (n4 =? 24) || (n100 =? 3))) r4 in
    (y, m, d).
Proof.
  unfold ord2ymd, month_day. cbv zeta.
  destruct (_ || _); [reflexivity|].
  match goal with |- context [if ?c then _ else _] => destruct c end;
    reflexivity.
Qed.

(** The days before a year, from the year's place in the cycles of 400,
    100 and 4 years. *)
Lemma days_before_year_cycles (a b c e : Z) :
  0 <= b -> 0 <= c -> 0 <= e < 4 -> 4 * c + e < 100 ->
  100 * b + 4 * c + e < 400 ->
  days_before_year (400 * a + 100 * b + 4 * c + e + 1)
  = 146097 * a + 36524 * b + 1461 * c + 365 * e.
Proof.
  intros Hb Hc He H100 H400. unfold days_before_year. cbv zeta.
  replace (400 * a + 100 * b + 4 * c + e + 1 - 1)
    with (400 * a + 100 * b + 4 * c + e) by lia.
  Z.div_mod_to_equations. lia.
Qed.

Lemma is_leap_cycles (a b c e : Z) :
  0 <= b <= 3 -> 0 <= c <= 24 -> 0 <= e <= 3 ->
  is_leap (400 * a + 100 * b + 4 * c + e + 1)
  = (e =? 3) && (negb (c =? 24) || (b =? 3)).
Proof.
  intros Hb Hc He. apply eq_true_iff_eq.
  rewrite is_leap_spec, andb_true_iff, orb_true_iff, negb_true_iff,
    !Z.eqb_eq, Z.eqb_neq.
  Z.div_mod_to_equations. lia.
Qed.

(** An ordinal taken apart as [_ord2ymd] does. *)
Lemma ordinal_cycles (n0 : Z) :
  0 <= n0 ->
  let a := n0 / 146097 in
  let r1 := n0 mod 146097 in
  let b := r1 / 36524 in
  let r2 := r1 mod 36524 in
  let c := r2 / 1461 in
  let r3 := r2 mod 1461 in
  let e := r3 / 365 in
  let r4 := r3 mod 365 in
  n0 = 146097 * a + 36524 * b + 1461 * c + 365 * e + r4
  /\ 0 <= a /\ 0 <= b <= 4 /\ 0 <= c <= 24 /\ 0 <= e <= 4
  /\ 0 <= r4 < 365 /\ 0 <= r3 < 1461 /\ 0 <= r2 < 36524
  /\ r3 = 365 * e + r4 /\ r2 = 1461 * c + r3
  /\ 0 <= r1 < 146097 /\ r1 = 36524 * b + r2.
Proof.
  intros Hn a r1 b r2 c r3 e r4.
  pose proof (Z.div_mod n0 146097 ltac:(lia)) as D1.
  pose proof (Z.mod_pos_bound n0 146097 ltac:(lia)) as B1.
  pose proof (Z.div_mod r1 36524 ltac:(lia)) as D2.
  pose proof (Z.mod_pos_bound r1 36524 ltac:(lia)) as B2.
  pose proof (Z.div_mod r2 1461 ltac:(lia)) as D3.
  pose proof (Z.mod_pos_bound r2 1461 ltac:(lia)) as B3.
  pose proof (Z.div_mod r3 365 ltac:(lia)) as D4.
  pose proof (Z.mod_pos_bound r3 365 ltac:(lia)) as B4.
  fold a r1 in D1, B1. fold b r2 in D2, B2.
  fold c r3 in D3, B3. fold e r4 in D4, B4.
  clearbody a r1 b r2 c r3 e r4.
  repeat split; lia.
Qed.

Lemma ord2ymd_spec (n : Z) :
  1 <= n ->
  let '(y, m, d) := ord2ymd n in
  1 <= y /\ 1 <= m <= 12 /\ 1 <= d <= days_in_month y m
  /\ ymd2ord y m d = n.
Proof.
  intros Hn. rewrite ord2ymd_unfold. cbv zeta.
  unfold DI400Y, DI100Y, DI4Y.
  pose proof (ordinal_cycles (n - 1) ltac:(lia)) as F. cbv zeta in F.
  set (n0 := n - 1) in *.
  set (a := n0 / 146097) in *. set (r1 := n0 mod 146097) in *.
  set (b := r1 / 36524) in *. set (r2 := r1 mod 36524) in *.
  set (c := r2 / 1461) in *. set (r3 := r2 mod 1461) in *.
  set (e := r3 / 365) in *. set (r4 := r3 mod 365) in *.
  destruct F
    as (Hn0 & Ha & Hb & Hc & He & Hr4 & Hr3 & Hr2 & E3 & E2 & Hr1 & E1).
  clearbody a b c e r4 r3 r2 r1.
  assert (Hn' : n = n0 + 1) by (subst n0; lia). clearbody n0.
  destruct ((e =? 4) || (b =? 4)) eqn:Last.
  - (* the last day of a leap year *)
    unfold ymd2ord, days_before_month, days_in_month. eval_tables.
    apply orb_true_iff in Last. rewrite !Z.eqb_eq in Last.
    assert (Hy : a * 400 + 1 + b * 100 + c * 4 + e - 1 + 1
                 = 400 * a + 100 * b + 4 * c + e + 1) by lia.
    pose proof (days_before_year_succ (a * 400 + 1 + b * 100 + c * 4 + e - 1))
      as S. rewrite Hy in S.
    destruct (Z.eq_dec b 4) as [->|Nb].
    + assert (c = 0 /\ e = 0 /\ r4 = 0) as (-> & -> & ->) by lia.
      replace (400 * a + 100 * 4 + 4 * 0 + 0 + 1)
        with (400 * (a + 1) + 100 * 0 + 4 * 0 + 0 + 1) in S by lia.
      rewrite days_before_year_cycles in S by lia.
      replace (a * 400 + 1 + 4 * 100 + 0 * 4 + 0 - 1)
        with (400 * a + 100 * 3 + 4 * 24 + 3 + 1) in * by lia.
      rewrite is_leap_cycles in * by lia. simpl_bools. lia.
    + assert (e = 4 /\ r4 = 0 /\ c <= 23) as (-> & -> & Hc') by lia.
      replace (400 * a + 100 * b + 4 * c + 4 + 1)
        with (400 * a + 100 * b + 4 * (c + 1) + 0 + 1) in S by lia.
      rewrite days_before_year_cycles in S by lia.
      replace (a * 400 + 1 + b * 100 + c * 4 + 4 - 1)
        with (400 * a + 100 * b + 4 * c + 3 + 1) in * by lia.
      rewrite is_leap_cycles in * by lia.
      replace (c =? 24) with false in * by (symmetry; apply Z.eqb_neq; lia).
      simpl_bools. lia.
  - apply orb_false_iff in Last. rewrite !Z.eqb_neq in Last.
    set (leapyear := (e =? 3) && (negb (c =? 24) || (b =? 3))).
    pose proof (month_day_spec leapyear r4
                  ltac:(destruct leapyear; lia)) as M.
    unfold month_day_ok in M.
    destruct (month_day leapyear r4) as [m d].
    replace (a * 400 + 1 + b * 100 + c * 4 + e)
      with (400 * a + 100 * b + 4 * c + e + 1) by lia.
    unfold ymd2ord, days_before_month, days_in_month.
    rewrite is_leap_cycles by lia. fold leapyear.
    rewrite days_before_year_cycles by lia.
    rewrite !andb_true_iff, !Z.leb_le, Z.eqb_eq in M.
    lia.
Qed.

Lemma toordinal_fromordinal (n : Z) :
  1 <= n <= MAXORDINAL ->
  valid_date (fromordinal n) /\ toordinal (fromordinal n) = n.
Proof.
  intros [Hn Hmax]. pose proof (ord2ymd_spec n Hn) as S.
  unfold fromordinal, toordinal. destruct (ord2ymd n) as [[y m] d].
  cbn [year month day]. destruct S as (Hy & Hm & Hd & E).
  split; [|exact E]. apply valid_date_fields. cbn [year month day].
  repeat split; try lia.
  destruct (Z_le_gt_dec y 9999) as [|Hbig]; [assumption|exfalso].
  pose proof (days_before_year_mono 10000 y ltac:(lia)) as U.
  change (days_before_year 10000) with 3652059 in U.
  pose proof (days_before_month_bounds y m Hm).
  unfold ymd2ord, MAXORDINAL in *. lia.
Qed.

Lemma fromordinal_toordinal (d : date) :
  valid_date d -> fromordinal (toordinal d) = d.
Proof.
  intros H. pose proof (toordinal_bounds d H) as B.
  destruct (toordinal_fromordinal _ B) as [V E].
  now apply toordinal_inj.
Qed.

(** *** Adding days, and the days of the week *)

Lemma date_add_days_ok (d d' : date) (n : Z) :
  date_add_days d n = Ok d' ->
  valid_date d' /\ toordinal d' = toordinal d + n.
Proof.
  unfold date_add_days.
  destruct ((0 <? toordinal d + n) && (toordinal d + n <=? MAXORDINAL)) eqn:E;
    [|discriminate].
  intros [= <-]. apply andb_true_iff in E as [E1 E2].
  apply Z.ltb_lt in E1. apply Z.leb_le in E2.
  apply toordinal_fromordinal. lia.
Qed.

Lemma date_add_days_total (d : date) (n : Z) :
  1 <= toordinal d + n <= MAXORDINAL ->
  exists d', date_add_days d n = Ok d'.
Proof.
  intros H. unfold date_add_days.
  replace (0 <? toordinal d + n) with true by (symmetry; apply Z.ltb_lt; lia).
  replace (toordinal d + n <=? MAXORDINAL) with true
    by (symmetry; apply Z.leb_le; lia).
  cbn [andb]. eexists. reflexivity.
Qed.

Lemma weekday_bounds (d : date) : 0 <= weekday d < 7.
Proof. unfold weekday. apply Z.mod_pos_bound. lia. Qed.

(** The day [get_upcoming_birthdays] moves weekend birthdays to: the
    Monday of the week of [next_week]. *)
Lemma first_day_of_next_week_spec (today next_week : date) :
  valid_date today ->
  date_add_days today 7 = Ok next_week ->
  exists first,
    date_sub_days next_week (weekday next_week) = Ok first
    /\ valid_date first
    /\ weekday first = 0
    /\ toordinal first = toordinal next_week - weekday next_week
    /\ toordinal today < toordinal first <= toordinal next_week.
Proof.
  intros Ht Hnw. apply date_add_days_ok in Hnw as [Vnw Onw].
  pose proof (toordinal_bounds today Ht) as Bt.
  pose proof (toordinal_bounds next_week Vnw) as Bnw.
  pose proof (weekday_bounds next_week) as Bw.
  unfold date_sub_days.
  destruct (date_add_days_total next_week (- weekday next_week)
              ltac:(lia)) as [first Hf].
  exists first. split; [exact Hf|].
  apply date_add_days_ok in Hf as [Vf Of].
  split; [exact Vf|]. split; [|split; lia].
  unfold weekday in *. rewrite Of. Z.div_mod_to_equations. lia.
Qed.

(** ** [Phone] *)

Lemma validate_spec (s : str) :
  (ten_decimals s /\ Phone.validate s = Ok tt)
  \/ (~ ten_decimals s /\ Phone.validate s = Raise ValueError).
Proof.
  unfold Phone.validate, Phone.pattern, ten_decimals.
  rewrite fullmatch_times_digit.
  destruct (Nat.eqb_spec (length s) 10) as [He|Hne]; cbn [andb].
  - destruct (forallb is_decimal s) eqn:Hd.
    + left. apply forallb_Forall_true in Hd. auto.
    + right. split; [|reflexivity]. intros [_ Hall].
      apply forallb_Forall_true in Hall. congruence.
  - right. split; [|reflexivity]. intros [Hl _]. contradiction.
Qed.

Lemma validate_ok_iff (s : str) : Phone.validate s = Ok tt <-> ten_decimals s.
Proof.
  destruct (validate_spec s) as [[H1 H2]|[H1 H2]]; split; intros H;
    try assumption; try congruence; contradiction.
Qed.

Lemma validate_fails (s : str) :
  Phone.validate s <> Ok tt -> Phone.validate s = Raise ValueError.
Proof.
  destruct (validate_spec s) as [[_ H]|[_ H]]; [congruence | intros _; exact H].
Qed.

Lemma init_fails (s : str) :
  Phone.validate s <> Ok tt -> Phone.init s = Raise ValueError.
Proof.
  intros H. unfold Phone.init. rewrite (validate_fails s H). reflexivity.
Qed.

Lemma init_ok (s : str) :
  Phone.validate s = Ok tt -> Phone.init s = Ok {| Phone.value := s |}.
Proof. intros H. unfold Phone.init. rewrite H. reflexivity. Qed.

(** C4, as stated, fails: [Phone.validate] accepts ten Arabic-Indic
    digits, which are not ASCII digits, and [Phone] stores them. *)
Lemma phone_accepts_non_ascii_digits :
  Phone.init arabic_indic_number = Ok {| Phone.value := arabic_indic_number |}
  /\ ~ ten_ascii_digits arabic_indic_number.
Proof.
  split; [reflexivity|].
  intros [_ H]. inversion H as [|c l Hc _]. discriminate Hc.
Qed.

(** C4, amended: [Phone] accepts a string exactly when it is ten
    characters that [\d] matches, the decimal digits of Unicode; it stores
    the string as given, and raises [ValueError] on every other string.
    On ASCII strings the accepted ones are the ten-ASCII-digit strings. *)
Theorem phone_validate_ten_decimals (s : str) :
  (Phone.validate s = Ok tt <-> ten_decimals s)
  /\ (ten_decimals s -> Phone.init s = Ok {| Phone.value := s |})
  /\ (~ ten_decimals s ->
      Phone.validate s = Raise ValueError /\ Phone.init s = Raise ValueError)
  /\ (is_ascii s -> (ten_decimals s <-> ten_ascii_digits s)).
Proof.
  split; [apply validate_ok_iff|]. split; [|split].
  - intros H. apply init_ok, validate_ok_iff, H.
  - intros H.
    assert (Hv : Phone.validate s <> Ok tt)
      by (intros Hv; apply H, validate_ok_iff, Hv).
    split; [apply validate_fails | apply init_fails]; exact Hv.
  - intros Ha. unfold ten_decimals, ten_ascii_digits.
    assert (He : Forall (fun c => is_decimal c = is_ascii_digit c) s).
    { eapply Forall_impl; [|exact Ha]. cbv beta. intros c Hc.
      apply is_decimal_ascii. lia. }
    rewrite !Forall_forall in *.
    split; intros [Hl Hall]; (split; [exact Hl|]); intros c Hc;
      specialize (He c Hc); specialize (Hall c Hc); congruence.
Qed.

(** ** [Birthday] *)

Lemma birthday_pattern :
  TimeRE_pattern (lit "%d.%m.%Y") = Ok birthday_regex.
Proof. reflexivity. Qed.

Ltac invert_matches :=
  repeat match goal with
  | H : matches ?r _ _ _ |- _ =>
      tryif is_var r then fail else (inversion H; subst; clear H)
  end.

Lemma day_group_inv (w : str) (caps caps' : captures) :
  matches (Group "d"
             (Alt (Seq (Lit 51) (Range 48 49))
             (Alt (Seq (Range 49 50) Digit)
             (Alt (Seq (Lit 48) (Range 49 57))
             (Alt (Range 49 57)
                  (Seq (Lit 32) (Range 49 57))))))) w caps caps' ->
  day_text w /\ caps' = ("d"%string, w) :: caps.
Proof.
  intros H. invert_matches; cbn; (split; [|reflexivity]); tauto.
Qed.

Lemma month_group_inv (w : str) (caps caps' : captures) :
  matches (Group "m"
             (Alt (Seq (Lit 49) (Range 48 50))
             (Alt (Seq (Lit 48) (Range 49 57))
                  (Range 49 57)))) w caps caps' ->
  month_text w /\ caps' = ("m"%string, w) :: caps.
Proof.
  intros H. invert_matches; cbn; (split; [|reflexivity]); tauto.
Qed.

Lemma year_group_inv (w : str) (caps caps' : captures) :
  matches (Group "Y" (Seq Digit (Seq Digit (Seq Digit Digit)))) w caps caps' ->
  year_text w /\ caps' = ("Y"%string, w) :: caps.
Proof.
  intros H. invert_matches; cbn. split; [|reflexivity].
  split; [reflexivity|]. repeat constructor; assumption.
Qed.

Lemma birthday_regex_inv (w : str) (caps caps' : captures) :
  matches birthday_regex w caps caps' ->
  exists dt mt yt,
    w = dt ++ dot :: mt ++ dot :: yt
    /\ day_text dt /\ month_text mt /\ year_text yt
    /\ caps' = ("Y"%string, yt) :: ("m"%string, mt) :: ("d"%string, dt) :: caps.
Proof.
  unfold birthday_regex. intros H.
  inversion H as [| | | |? ? dt w1 ? c1 ? Hd H1| | |]; subst; clear H.
  inversion H1 as [| | | |? ? ? w2 ? ? ? Hdot1 H2| | |]; subst; clear H1.
  inversion Hdot1; subst; clear Hdot1.
  inversion H2 as [| | | |? ? mt w3 ? c2 ? Hm H3| | |]; subst; clear H2.
  inversion H3 as [| | | |? ? ? w4 ? ? ? Hdot2 H4| | |]; subst; clear H3.
  inversion Hdot2; subst; clear Hdot2.
  inversion H4 as [| | | |? ? yt w5 ? c3 ? Hy H5| | |]; subst; clear H4.
  inversion H5; subst; clear H5.
  apply day_group_inv in Hd as [Hd ->].
  apply month_group_inv in Hm as [Hm ->].
  apply year_group_inv in Hy as [Hy ->].
  exists dt, mt, yt. rewrite app_nil_r. cbn. auto.
Qed.

Lemma day_group_intro (w : str) (caps : captures) :
  day_text w ->
  matches (Group "d"
             (Alt (Seq (Lit 51) (Range 48 49))
             (Alt (Seq (Range 49 50) Digit)
             (Alt (Seq (Lit 48) (Range 49 57))
             (Alt (Range 49 57)
                  (Seq (Lit 32) (Range 49 57))))))) w caps
    (("d"%string, w) :: caps).
Proof.
  intros H. constructor.
  destruct w as [|a [|b [|? ?]]]; cbn in H; try contradiction.
  - do 3 apply M_AltR. apply M_AltL. now constructor.
  - destruct H as [[-> H]|[[Ha H]|[[-> H]|[-> H]]]].
    + apply M_AltL. eapply (M_Seq _ _ [51] [b]); now constructor.
    + apply M_AltR, M_AltL. eapply (M_Seq _ _ [a] [b]); now constructor.
    + do 2 apply M_AltR. apply M_AltL.
      eapply (M_Seq _ _ [48] [b]); now constructor.
    + do 4 apply M_AltR. eapply (M_Seq _ _ [32] [b]); now constructor.
Qed.

Lemma month_group_intro (w : str) (caps : captures) :
  month_text w ->
  matches (Group "m"
             (Alt (Seq (Lit 49) (Range 48 50))
             (Alt (Seq (Lit 48) (Range 49 57))
                  (Range 49 57)))) w caps (("m"%string, w) :: caps).
Proof.
  intros H. constructor.
  destruct w as [|a [|b [|? ?]]]; cbn in H; try contradiction.
  - do 2 apply M_AltR. now constructor.
  - destruct H as [[-> H]|[-> H]].
    + apply M_AltL. eapply (M_Seq _ _ [49] [b]); now constructor.
    + apply M_AltR, M_AltL. eapply (M_Seq _ _ [48] [b]); now constructor.
Qed.

Lemma year_group_intro (w : str) (caps : captures) :
  year_text w ->
  matches (Group "Y" (Seq Digit (Seq Digit (Seq Digit Digit)))) w caps
    (("Y"%string, w) :: caps).
Proof.
  intros [Hl H]. constructor.
  destruct w as [|a [|b [|c [|d [|? ?]]]]]; try discriminate.
  inversion H as [|? ? Ha H1]; subst. inversion H1 as [|? ? Hb H2]; subst.
  inversion H2 as [|? ? Hc H3]; subst. inversion H3 as [|? ? Hd _]; subst.
  eapply (M_Seq _ _ [a] [b; c; d]); [now constructor|].
  eapply (M_Seq _ _ [b] [c; d]); [now constructor|].
  eapply (M_Seq _ _ [c] [d]); now constructor.
Qed.

Lemma birthday_regex_intro (dt mt yt : str) (caps : captures) :
  day_text dt -> month_text mt -> year_text yt ->
  matches birthday_regex (dt ++ dot :: mt ++ dot :: yt) caps
    (("Y"%string, yt) :: ("m"%string, mt) :: ("d"%string, dt) :: caps).
Proof.
  intros Hd Hm Hy. unfold birthday_regex.
  apply M_Seq with (caps' := ("d"%string, dt) :: caps);
    [now apply day_group_intro|].
  eapply (M_Seq _ _ [dot]); [constructor|].
  apply M_Seq with (caps' := ("m"%string, mt) :: ("d"%string, dt) :: caps);
    [now apply month_group_intro|].
  eapply (M_Seq _ _ [dot]); [constructor|].
  rewrite <- (app_nil_r yt) at 1.
  apply M_Seq with
    (caps' := ("Y"%string, yt) :: ("m"%string, mt) :: ("d"%string, dt) :: caps);
    [now apply year_group_intro | constructor].
Qed.

(** *** One way to read a text *)

Lemma is_decimal_dot : is_decimal dot = false.
Proof. reflexivity. Qed.

Lemma day_text_no_dot (t : str) : day_text t -> ~ In dot t.
Proof.
  destruct t as [|a [|b [|? ?]]]; cbn; try contradiction; unfold dot.
  - lia.
  - intros [[-> H]|[[Ha H]|[[-> H]|[-> H]]]] [E|[E|[]]];
      try lia; subst b; discriminate H.
Qed.

Lemma month_text_no_dot (t : str) : month_text t -> ~ In dot t.
Proof.
  destruct t as [|a [|b [|? ?]]]; cbn; try contradiction; unfold dot.
  - lia.
  - intros [[-> H]|[-> H]] [E|[E|[]]]; lia.
Qed.

Lemma split_at_dot (a a' r r' : str) :
  ~ In dot a -> ~ In dot a' ->
  a ++ dot :: r = a' ++ dot :: r' -> a = a' /\ r = r'.
Proof.
  revert a'. induction a as [|x a IH]; intros [|x' a'] Ha Ha' E; cbn in *.
  - injection E as <-. auto.
  - injection E as E _. exfalso. apply Ha'. now left.
  - injection E as E _. exfalso. apply Ha. now left.
  - injection E as -> E.
    destruct (IH a') as [-> ->]; auto.
Qed.

Lemma app_same_length {A} (a a' r r' : list A) :
  length a = length a' -> a ++ r = a' ++ r' -> a = a' /\ r = r'.
Proof.
  revert a'. induction a as [|x a IH]; intros [|x' a'] Hl E;
    try discriminate; cbn in *.
  - auto.
  - injection E as -> E. injection Hl as Hl.
    destruct (IH a' Hl E) as [-> ->]. auto.
Qed.

(** How [re.match] reads a text with the pattern of [%d.%m.%Y]. *)
Lemma re_match_birthday_inv (s : str) (found : match_object) :
  re_match birthday_regex s = Some found ->
  length s = m_end found ->
  exists dt mt yt,
    s = dt ++ dot :: mt ++ dot :: yt
    /\ day_text dt /\ month_text mt /\ year_text yt
    /\ m_groups found
       = [("Y"%string, yt); ("m"%string, mt); ("d"%string, dt)].
Proof.
  intros H Hlen.
  apply re_match_sound in H as (w & rest & -> & M & Hend).
  rewrite Hend, length_app in Hlen.
  assert (rest = []) as -> by (destruct rest; [reflexivity | cbn in Hlen; lia]).
  rewrite app_nil_r.
  apply birthday_regex_inv in M as (dt & mt & yt & -> & Hd & Hm & Hy & ->).
  exists dt, mt, yt. auto.
Qed.

Lemma re_match_birthday_intro (dt mt yt : str) :
  day_text dt -> month_text mt -> year_text yt ->
  exists found,
    re_match birthday_regex (dt ++ dot :: mt ++ dot :: yt) = Some found
    /\ m_end found = length (dt ++ dot :: mt ++ dot :: yt)
    /\ m_groups found
       = [("Y"%string, yt); ("m"%string, mt); ("d"%string, dt)].
Proof.
  intros Hd Hm Hy.
  pose proof (birthday_regex_intro dt mt yt [] Hd Hm Hy) as M.
  destruct (re_match_complete _ _ [] _ M) as [found Hfound].
  rewrite app_nil_r in Hfound. exists found. split; [exact Hfound|].
  apply re_match_sound in Hfound as (w & rest & E & M' & Hend).
  apply birthday_regex_inv in M'
    as (dt' & mt' & yt' & -> & Hd' & Hm' & [Hl' Hy'] & Hg).
  rewrite <- !app_assoc in E. cbn in E. rewrite <- !app_assoc in E. cbn in E.
  apply split_at_dot in E as [<- E];
    [|now apply day_text_no_dot|now apply day_text_no_dot].
  apply split_at_dot in E as [<- E];
    [|now apply month_text_no_dot|now apply month_text_no_dot].
  rewrite <- (app_nil_r yt) in E.
  apply app_same_length in E as [<- <-]; [|destruct Hy; congruence].
  auto.
Qed.

(** *** Reading the numbers *)

Lemma decimal_digit (v : Z) : 0 <= v <= 9 -> decimal (digit v) = Some v.
Proof.
  intros H. unfold decimal, decimal_in, nd_zeros, digit.
  match goal with
  | |- context [find ?f (?z :: ?l)] =>
      change (find f (z :: l)) with (if f z then Some z else find f l)
  end.
  cbv beta.
  replace (48 <=? 48 + v) with true by (symmetry; apply Z.leb_le; lia).
  replace (48 + v <? 48 + 10) with true by (symmetry; apply Z.ltb_lt; lia).
  cbn [andb]. f_equal. lia.
Qed.

Lemma is_decimal_digit (v : Z) : 0 <= v <= 9 -> is_decimal (digit v) = true.
Proof. intros H. unfold is_decimal. now rewrite decimal_digit. Qed.

Lemma is_space_digit (v : Z) : 0 <= v <= 9 -> is_space (digit v) = false.
Proof.
  intros H. unfold is_space, digit.
  repeat match goal with
  | |- context [?a <=? ?b] =>
      first [ replace (a <=? b) with true by (symmetry; apply Z.leb_le; lia)
            | replace (a <=? b) with false by (symmetry; apply Z.leb_gt; lia) ]
  | |- context [?a =? ?b] =>
      replace (a =? b) with false by (symmetry; apply Z.eqb_neq; lia)
  end.
  reflexivity.
Qed.

Lemma py_int_2 (a b : Z) :
  0 <= a <= 9 -> 0 <= b <= 9 ->
  py_int [digit a; digit b] = Ok (10 * a + b).
Proof.
  intros Ha Hb. unfold py_int, strip. cbn [lstrip rev app].
  rewrite (is_space_digit a Ha). cbn [lstrip rev app].
  rewrite (is_space_digit b Hb). cbn [lstrip rev app int_digits].
  rewrite (decimal_digit a Ha), (decimal_digit b Hb). f_equal. lia.
Qed.

Lemma py_int_4 (a b c d : Z) :
  0 <= a <= 9 -> 0 <= b <= 9 -> 0 <= c <= 9 -> 0 <= d <= 9 ->
  py_int [digit a; digit b; digit c; digit d]
  = Ok (1000 * a + 100 * b + 10 * c + d).
Proof.
  intros Ha Hb Hc Hd. unfold py_int, strip. cbn [lstrip rev app].
  rewrite (is_space_digit a Ha). cbn [lstrip rev app].
  rewrite (is_space_digit d Hd). cbn [lstrip rev app int_digits].
  rewrite (decimal_digit a Ha), (decimal_digit b Hb), (decimal_digit c Hc),
    (decimal_digit d Hd).
  f_equal. lia.
Qed.

Lemma zfill_2 (a b : Z) :
  0 <= a <= 9 -> 0 <= b <= 9 -> zfill 2 (10 * a + b) = [digit a; digit b].
Proof.
  intros Ha Hb. cbn [zfill app]. unfold digit.
  repeat f_equal; Z.div_mod_to_equations; lia.
Qed.

Lemma zfill_4 (a b c d : Z) :
  0 <= a <= 9 -> 0 <= b <= 9 -> 0 <= c <= 9 -> 0 <= d <= 9 ->
  zfill 4 (1000 * a + 100 * b + 10 * c + d)
  = [digit a; digit b; digit c; digit d].
Proof.
  intros Ha Hb Hc Hd. cbn [zfill app]. unfold digit.
  repeat f_equal; Z.div_mod_to_equations; lia.
Qed.

Lemma int_digits_raises (s : str) :
  forall acc e, int_digits acc s = Raise e -> e = ValueError.
Proof.
  induction s as [|c s IH]; intros acc e; cbn; [discriminate|].
  destruct (decimal c); [apply IH | now intros [= <-]].
Qed.

Lemma py_int_raises (s : str) (e : exn) :
  py_int s = Raise e -> e = ValueError.
Proof.
  unfold py_int. destruct (strip s) eqn:E; [now intros [= <-]|].
  apply int_digits_raises.
Qed.

(** *** What [strptime] accepts *)

Lemma strptime_birthday_ok (s : str) (dt0 : datetime) :
  strptime s (lit "%d.%m.%Y") = Ok dt0 <->
  exists y m d,
    dotted_date s y m d /\ check_date_fields y m d = true
    /\ dt0 = midnight y m d.
Proof.
  unfold strptime. rewrite birthday_pattern. cbn [bind]. split.
  - destruct (re_match birthday_regex s) as [found|] eqn:E; [|discriminate].
    destruct (Nat.eqb_spec (length s) (m_end found)) as [L|];
      cbn [negb]; [|discriminate].
    destruct (re_match_birthday_inv s found E L)
      as (dt & mt & yt & -> & Hd & Hm & Hy & ->).
    unfold int_group. cbn [found_dict String.eqb Ascii.eqb Bool.eqb].
    destruct (py_int yt) as [y|] eqn:Ey; [|discriminate].
    destruct (py_int mt) as [m|] eqn:Em; [|discriminate].
    destruct (py_int dt) as [d|] eqn:Ed; [|discriminate].
    cbn [bind]. unfold new_datetime, new_date.
    destruct (check_date_fields y m d) eqn:C; [|discriminate].
    cbn [bind]. intros [= <-].
    exists y, m, d. split; [|auto]. exists dt, mt, yt. auto 10.
  - intros (y & m & d & (dt & mt & yt & -> & Hd & Hm & Hy & Ed & Em & Ey)
              & C & ->).
    destruct (re_match_birthday_intro dt mt yt Hd Hm Hy)
      as (found & -> & -> & ->).
    rewrite Nat.eqb_refl. cbn [negb].
    unfold int_group. cbn [found_dict String.eqb Ascii.eqb Bool.eqb].
    rewrite Ey, Em, Ed. cbn [bind]. unfold new_datetime, new_date.
    rewrite C. reflexivity.
Qed.

Lemma strptime_birthday_raises (s : str) (e : exn) :
  strptime s (lit "%d.%m.%Y") = Raise e -> e = ValueError.
Proof.
  unfold strptime. rewrite birthday_pattern. cbn [bind].
  destruct (re_match birthday_regex s) as [found|]; [|now intros [= <-]].
  destruct (negb _); [now intros [= <-]|].
  unfold int_group.
  repeat match goal with
  | |- context [found_dict ?n ?c] => destruct (found_dict n c)
  | |- context [py_int ?t] =>
      let E := fresh in
      destruct (py_int t) eqn:E;
        [|apply py_int_raises in E; subst; cbn; now intros [= <-]]
  end; cbn [bind]; unfold new_datetime, new_date;
    destruct (check_date_fields _ _ _); cbn; try discriminate;
    now intros [= <-].
Qed.

Lemma birthday_init_ok (s : str) (b : Birthday.t) :
  Birthday.init s = Ok b <->
  exists y m d,
    dotted_date s y m d /\ check_date_fields y m d = true
    /\ b = {| Birthday.value := midnight y m d |}.
Proof.
  unfold Birthday.init. split.
  - destruct (strptime s (lit "%d.%m.%Y")) as [dt0|[]] eqn:E;
      try discriminate.
    intros [= <-]. apply strptime_birthday_ok in E as (y & m & d & H & C & ->).
    eauto 6.
  - intros (y & m & d & H & C & ->).
    assert (E : strptime s (lit "%d.%m.%Y") = Ok (midnight y m d))
      by (apply strptime_birthday_ok; eauto 6).
    rewrite E. reflexivity.
Qed.

Lemma birthday_init_raises (s : str) :
  (exists b, Birthday.init s = Ok b) \/ Birthday.init s = Raise ValueError.
Proof.
  unfold Birthday.init.
  destruct (strptime s (lit "%d.%m.%Y")) as [dt0|e] eqn:E; [eauto|].
  apply strptime_birthday_raises in E. subst e. now right.
Qed.

(** *** Dates written in full *)

Lemma check_date_fields_ranges (y m d : Z) :
  check_date_fields y m d = true ->
  1 <= y <= 9999 /\ 1 <= m <= 12 /\ 1 <= d <= 31.
Proof.
  intros H.
  apply (valid_date_fields {| year := y; month := m; day := d |}) in H.
  cbn in H. pose proof (days_in_month_bounds y m ltac:(lia)). lia.
Qed.

Lemma padded_date_dotted (s : str) (y m d : Z) :
  padded_date s y m d -> check_date_fields y m d = true ->
  dotted_date s y m d.
Proof.
  intros (d1 & d2 & m1 & m2 & y1 & y2 & y3 & y4 & -> & R & -> & -> & ->) C.
  apply check_date_fields_ranges in C as (_ & Hm & Hd).
  repeat match goal with
  | H : Forall _ (_ :: _) |- _ => inversion H; subst; clear H
  | H : Forall _ [] |- _ => clear H
  end.
  exists [digit d1; digit d2], [digit m1; digit m2],
    [digit y1; digit y2; digit y3; digit y4].
  split; [reflexivity|].
  split; [|split; [|split; [|split; [|split]]]].
  - cbn [day_text]. unfold digit.
    assert (Hc : d1 = 3 \/ 1 <= d1 <= 2 \/ d1 = 0) by lia.
    destruct Hc as [-> | [Hc | ->]].
    + left. lia.
    + right. left. split; [lia|]. now apply is_decimal_digit.
    + right. right. left. lia.
  - cbn [month_text]. unfold digit. lia.
  - split; [reflexivity|]. repeat constructor; now apply is_decimal_digit.
  - now apply py_int_2.
  - now apply py_int_2.
  - now apply py_int_4.
Qed.

Lemma padded_date_dotted_same (s : str) (y m d y' m' d' : Z) :
  padded_date s y m d -> dotted_date s y' m' d' ->
  y' = y /\ m' = m /\ d' = d.
Proof.
  intros (d1 & d2 & m1 & m2 & y1 & y2 & y3 & y4 & -> & R & -> & -> & ->)
         (dt & mt & yt & E & Hd & Hm & Hy & Ed & Em & Ey).
  repeat match goal with
  | H : Forall _ (_ :: _) |- _ => inversion H; subst; clear H
  | H : Forall _ [] |- _ => clear H
  end.
  change ([digit d1; digit d2] ++ dot
          :: [digit m1; digit m2] ++ dot
          :: [digit y1; digit y2; digit y3; digit y4]
          = dt ++ dot :: mt ++ dot :: yt) in E.
  apply split_at_dot in E as [<- E];
    [| unfold digit, dot; cbn [In]; lia | now apply day_text_no_dot].
  apply split_at_dot in E as [<- <-];
    [| unfold digit, dot; cbn [In]; lia | now apply month_text_no_dot].
  rewrite py_int_2 in Ed, Em by assumption.
  rewrite py_int_4 in Ey by assumption.
  repeat split; congruence.
Qed.

Lemma strftime_dmY (style : year_style) (d : date) :
  strftime style (lit "%d.%m.%Y") d
  = zfill 2 (day d) ++ dot :: zfill 2 (month d) ++ dot
    :: render_year style (year d).
Proof.
  rewrite <- (app_nil_r (render_year style (year d))). reflexivity.
Qed.

Lemma render_year_four_digits (style : year_style) (y : Z) :
  style = FourDigits \/ 1000 <= y -> render_year style y = zfill 4 y.
Proof.
  intros [-> | H]; [reflexivity|].
  destruct style; [reflexivity|]. unfold render_year, plain_year.
  repeat match goal with
  | |- context [?a <? ?b] =>
      replace (a <? b) with false by (symmetry; apply Z.ltb_ge; lia)
  end.
  reflexivity.
Qed.

(** C5, as stated, fails: [Birthday] accepts [1.2.2024], which is not of
    the form [DD.MM.YYYY], as the first of February 2024. *)
Lemma birthday_accepts_unpadded_date :
  Birthday.init (lit "1.2.2024")
  = Ok {| Birthday.value := midnight 2024 2 1 |}
  /\ ~ (exists y m d, padded_date (lit "1.2.2024") y m d).
Proof.
  split; [reflexivity|].
  intros (y & m & d & d1 & d2 & m1 & m2 & y1 & y2 & y3 & y4 & E & _).
  apply (f_equal (@length Z)) in E. vm_compute in E. discriminate E.
Qed.

(** C5, amended: [Birthday] accepts a string exactly when it is a day, a
    month and a year as [strptime] reads [%d.%m.%Y] (the day and the month
    on one or two digits, the year on four digits, full stops between)
    that name a date of the years 1 to 9999, and the value is that date;
    every other string raises [ValueError].  Of the strings of the form
    [DD.MM.YYYY] it accepts those that name such a date and no other. *)
Theorem birthday_accepts_dotted_dates (s : str) :
  (forall b,
      Birthday.init s = Ok b <->
      exists y m d,
        dotted_date s y m d /\ check_date_fields y m d = true
        /\ b = {| Birthday.value := midnight y m d |})
  /\ ((~ exists y m d, dotted_date s y m d /\ check_date_fields y m d = true)
      -> Birthday.init s = Raise ValueError)
  /\ (forall y m d,
         padded_date s y m d -> check_date_fields y m d = true ->
         Birthday.init s = Ok {| Birthday.value := midnight y m d |})
  /\ (forall y m d,
         padded_date s y m d -> check_date_fields y m d = false ->
         Birthday.init s = Raise ValueError).
Proof.
  split; [intros b; apply birthday_init_ok|].
  assert (N : (~ exists y m d,
                  dotted_date s y m d /\ check_date_fields y m d = true)
              -> Birthday.init s = Raise ValueError).
  { intros H. destruct (birthday_init_raises s) as [[b Hb]|Hr]; [|exact Hr].
    apply birthday_init_ok in Hb as (y & m & d & Hd & C & _).
    exfalso. apply H. eauto. }
  split; [exact N|]. split.
  - intros y m d P C. apply birthday_init_ok.
    exists y, m, d. split; [now apply padded_date_dotted | auto].
  - intros y m d P C. apply N. intros (y' & m' & d' & D & C').
    destruct (padded_date_dotted_same s y m d y' m' d' P D) as (-> & -> & ->).
    congruence.
Qed.

(** C6, as stated, fails where the C library writes years without zeros
    in front: [Birthday] accepts [01.01.0999], and [str] of the birthday
    is [01.01.999]. *)
Lemma year_999_does_not_round_trip :
  padded_date (lit "01.01.0999") 999 1 1
  /\ check_date_fields 999 1 1 = true
  /\ Birthday.init (lit "01.01.0999")
     = Ok {| Birthday.value := midnight 999 1 1 |}
  /\ Birthday.to_str NoPadding {| Birthday.value := midnight 999 1 1 |}
     = lit "01.01.999"
  /\ lit "01.01.999" <> lit "01.01.0999".
Proof.
  split; [|repeat split; discriminate].
  exists 0, 1, 0, 1, 0, 9, 9, 9.
  split; [reflexivity|]. split; [|repeat split].
  repeat constructor; lia.
Qed.

(** C6, amended: a string of the form [DD.MM.YYYY] that names a date of
    the years 1000 to 9999 is accepted by [Birthday], as that date, and
    [str] of the birthday is the string again; so it is for the years 1 to
    999 where [%Y] is written on four digits. *)
Theorem birthday_round_trip (style : year_style) (s : str) (y m d : Z) :
  padded_date s y m d ->
  check_date_fields y m d = true ->
  style = FourDigits \/ 1000 <= y ->
  exists b,
    Birthday.init s = Ok b
    /\ Birthday.value b = midnight y m d
    /\ Birthday.to_str style b = s.
Proof.
  intros P C Hy. exists {| Birthday.value := midnight y m d |}.
  split; [|split; [reflexivity|]].
  - apply birthday_init_ok. exists y, m, d.
    split; [now apply padded_date_dotted | auto].
  - destruct P as (d1 & d2 & m1 & m2 & y1 & y2 & y3 & y4
                   & -> & R & -> & -> & ->).
    repeat match goal with
    | H : Forall _ (_ :: _) |- _ => inversion H; subst; clear H
    | H : Forall _ [] |- _ => clear H
    end.
    unfold Birthday.to_str. rewrite strftime_dmY.
    cbn [Birthday.value midnight dt_date year month day].
    rewrite (render_year_four_digits _ _ Hy).
    rewrite !zfill_2, zfill_4 by assumption. reflexivity.
Qed.

(** The leap day of 2024, without zeros in front of the year. *)
Lemma birthday_round_trip_witness :
  exists b,
    Birthday.init (lit "29.02.2024") = Ok b
    /\ Birthday.value b = midnight 2024 2 29
    /\ Birthday.to_str NoPadding b = lit "29.02.2024".
Proof.
  apply (birthday_round_trip NoPadding (lit "29.02.2024") 2024 2 29).
  - exists 2, 9, 0, 2, 2, 0, 2, 4.
    split; [reflexivity|]. split; [|repeat split].
    repeat constructor; lia.
  - reflexivity.
  - right. lia.
Defined.

(** ** [Record] *)

(** *** Editing the phone list *)

Lemma list_set_middle {A} (pre : list A) (x v : A) (post : list A) :
  list_set (length pre) v (pre ++ x :: post) = pre ++ v :: post.
Proof. induction pre as [|y pre IH]; simpl; [reflexivity | now rewrite IH]. Qed.

(** The loop of [edit_phone], started behind a prefix that does not hold
    the old number. *)
Lemma edit_phone_from_spec (self : Rec.t) (old_phone new_phone : str) :
  forall (ps pre : list Phone.t),
    Rec.phones self = pre ++ ps ->
    ~ In old_phone (values_of pre) ->
    In old_phone (values_of ps) ->
    exists before after,
      Rec.phones self = before ++ {| Phone.value := old_phone |} :: after
      /\ ~ In old_phone (values_of before)
      /\ Rec.edit_phone_from self old_phone new_phone (length pre) ps =
         match Phone.init new_phone with
         | Ok p => (Rec.set_phones self (before ++ p :: after), Ok tt)
         | Raise e => (self, Raise e)
         end.
Proof.
  induction ps as [|phone rest IH]; intros pre Hself Hpre Hin.
  - destruct Hin.
  - cbn [Rec.edit_phone_from].
    destruct (str_eqb (Phone.value phone) old_phone) eqn:E.
    + apply str_eqb_eq in E. destruct phone as [v]. cbn in E. subst v.
      exists pre, rest. split; [exact Hself|]. split; [exact Hpre|].
      destruct (Phone.init new_phone); [|reflexivity].
      rewrite Hself, list_set_middle. reflexivity.
    + apply str_eqb_neq in E.
      destruct Hin as [Hin|Hin]; [contradiction|].
      specialize (IH (pre ++ [phone])).
      rewrite length_app, Nat.add_1_r in IH. apply IH.
      * rewrite <- app_assoc. exact Hself.
      * unfold values_of. rewrite map_app, in_app_iff.
        intros [H|[H|[]]]; [exact (Hpre H) | exact (E H)].
      * exact Hin.
Qed.

Lemma edit_phone_spec (self : Rec.t) (old_phone new_phone : str) :
  In old_phone (values_of (Rec.phones self)) ->
  exists before after,
    Rec.phones self = before ++ {| Phone.value := old_phone |} :: after
    /\ ~ In old_phone (values_of before)
    /\ Rec.edit_phone self old_phone new_phone =
       match Phone.init new_phone with
       | Ok p => (Rec.set_phones self (before ++ p :: after), Ok tt)
       | Raise e => (self, Raise e)
       end.
Proof.
  intros Hin.
  exact (edit_phone_from_spec self old_phone new_phone (Rec.phones self) []
           eq_refl (fun H => H) Hin).
Qed.

Lemma first_occurrence_unique
  (x : str) (before before' after after' : list Phone.t) :
  before ++ {| Phone.value := x |} :: after
  = before' ++ {| Phone.value := x |} :: after' ->
  ~ In x (values_of before) -> ~ In x (values_of before') ->
  before = before' /\ after = after'.
Proof.
  revert before'.
  induction before as [|p before IH]; intros [|p' before'] E N N';
    cbn in E, N, N'.
  - injection E as ->. auto.
  - injection E as <- _. destruct N'. now left.
  - injection E as -> _. destruct N. now left.
  - injection E as -> E. destruct (IH before' E) as [-> ->]; auto.
Qed.

(** C7: when the phone list holds [old_phone] and [new_phone] is valid,
    [edit_phone] puts [new_phone] in the place of the first entry equal to
    [old_phone]: the call returns, the phones of the record are then the
    entries before that one, [new_phone], and the entries after it, so
    that the length and the order stay as they were, and the name and the
    birthday are those of before. *)
Theorem edit_phone_replaces_first (self : Rec.t) (old_phone new_phone : str) :
  In old_phone (values_of (Rec.phones self)) ->
  Phone.validate new_phone = Ok tt ->
  exists before after,
    Rec.phones self = before ++ {| Phone.value := old_phone |} :: after
    /\ ~ In old_phone (values_of before)
    /\ Rec.edit_phone self old_phone new_phone =
       ({| Rec.name := Rec.name self;
           Rec.phones := before ++ {| Phone.value := new_phone |} :: after;
           Rec.birthday := Rec.birthday self |}, Ok tt)
    /\ Rec.phones (fst (Rec.edit_phone self old_phone new_phone))
       = before ++ {| Phone.value := new_phone |} :: after
    /\ length (Rec.phones (fst (Rec.edit_phone self old_phone new_phone)))
       = length (Rec.phones self).
Proof.
  intros Hin Hnew.
  destruct (edit_phone_spec self old_phone new_phone Hin)
    as (before & after & Hself & Hbefore & Hedit).
  rewrite (init_ok _ Hnew) in Hedit. unfold Rec.set_phones in Hedit.
  exists before, after. rewrite Hedit. cbn [fst Rec.phones].
  repeat split; try assumption.
  rewrite Hself, !length_app. reflexivity.
Qed.

(** The second of Ann's three phones is the first equal to the old
    number, and the one that changes. *)
Lemma edit_phone_replaces_first_witness :
  Rec.edit_phone two_phones (lit "1111111111") (lit "2222222222")
  = ({| Rec.name := {| Name.value := lit "Ann" |};
        Rec.phones := [ {| Phone.value := lit "0123456789" |};
                        {| Phone.value := lit "2222222222" |};
                        {| Phone.value := lit "1111111111" |} ];
        Rec.birthday := None |}, Ok tt).
Proof.
  destruct (edit_phone_replaces_first two_phones (lit "1111111111")
              (lit "2222222222"))
    as (before & after & P & N & E & _).
  - simpl. right. left. reflexivity.
  - reflexivity.
  - destruct (first_occurrence_unique (lit "1111111111")
                before [ {| Phone.value := lit "0123456789" |} ]
                after [ {| Phone.value := lit "1111111111" |} ]
                (eq_sym P) N) as [-> ->].
    + intros [H|[]]. discriminate H.
    + exact E.
Defined.

(** *** Failed validation *)

Lemma edit_phone_from_raise (self : Rec.t) (old_phone new_phone : str) :
  forall (ps : list Phone.t) (i : nat) (e : exn),
    snd (Rec.edit_phone_from self old_phone new_phone i ps) = Raise e ->
    fst (Rec.edit_phone_from self old_phone new_phone i ps) = self.
Proof.
  induction ps as [|phone rest IH]; intros i e; cbn [Rec.edit_phone_from].
  - reflexivity.
  - destruct (str_eqb (Phone.value phone) old_phone).
    + destruct (Phone.init new_phone); [discriminate | reflexivity].
    + apply IH.
Qed.

(** C8: a call of [add_phone] or [edit_phone] that raises leaves the
    record as it was, name, phones and birthday; an invalid number makes
    [add_phone] raise [ValueError], and makes [edit_phone] raise it when
    the old number is in the list; [Record("Carl").add_phone("12345")]
    raises and the phone list stays empty. *)
Theorem failed_validation_keeps_record :
  (forall self phone e,
      snd (Rec.add_phone self phone) = Raise e ->
      fst (Rec.add_phone self phone) = self)
  /\ (forall self old_phone new_phone e,
      snd (Rec.edit_phone self old_phone new_phone) = Raise e ->
      fst (Rec.edit_phone self old_phone new_phone) = self)
  /\ (forall self phone,
      Phone.validate phone <> Ok tt ->
      Rec.add_phone self phone = (self, Raise ValueError))
  /\ (forall self old_phone new_phone,
      In old_phone (values_of (Rec.phones self)) ->
      Phone.validate new_phone <> Ok tt ->
      Rec.edit_phone self old_phone new_phone = (self, Raise ValueError))
  /\ Rec.add_phone (Rec.init (lit "Carl")) (lit "12345")
     = (Rec.init (lit "Carl"), Raise ValueError)
  /\ Rec.phones (fst (Rec.add_phone (Rec.init (lit "Carl")) (lit "12345")))
     = [].
Proof.
  repeat split.
  - intros self phone e. unfold Rec.add_phone.
    destruct (Phone.init phone); [discriminate | reflexivity].
  - intros self old_phone new_phone e. apply edit_phone_from_raise.
  - intros self phone H. unfold Rec.add_phone.
    rewrite (init_fails _ H). reflexivity.
  - intros self old_phone new_phone Hin H.
    destruct (edit_phone_spec self old_phone new_phone Hin)
      as (before & after & _ & _ & Hedit).
    rewrite (init_fails _ H) in Hedit. exact Hedit.
Qed.

(** *** Days to the next birthday *)

(** C3: what [days_to_birthday] does for a record with a birthday.  The
    birthday moved to the year of [today] is a [datetime], [today] is a
    [date], and comparing them raises [TypeError]; when the move itself
    fails the call raises that error.  So the call returns no number: on
    2024-06-03, for a birthday on 05.06 and for one on 03.06, the day
    itself, it raises [TypeError]. *)
Theorem days_to_birthday_raises :
  (forall today name phones b,
      Rec.days_to_birthday today
        {| Rec.name := name; Rec.phones := phones; Rec.birthday := Some b |}
      = match datetime_replace_year (Birthday.value b) (year today) with
        | Ok _ => Raise TypeError
        | Raise e => Raise e
        end)
  /\ Rec.days_to_birthday june_3_2024 (born "Anna" "05.06.1990")
     = Raise TypeError
  /\ Rec.days_to_birthday june_3_2024 (born "Dana" "03.06.1990")
     = Raise TypeError.
Proof.
  split; [|split; reflexivity].
  intros today name phones b. unfold Rec.days_to_birthday. cbn.
  destruct (datetime_replace_year (Birthday.value b) (year today));
    reflexivity.
Qed.

Lemma new_date_feb29 (y : Z) :
  is_leap y = false -> new_date y 2 29 = Raise ValueError.
Proof.
  intros H. unfold new_date, check_date_fields, days_in_month.
  rewrite H. cbn. now rewrite !andb_false_r.
Qed.

(** C9: what [days_to_birthday] does for a birthday on February 29 when
    the year of [today] is not a leap year: moving the birthday to that
    year raises [ValueError]. *)
Theorem days_to_birthday_feb29_raises
  (today : date) (self : Rec.t) (b : Birthday.t) :
  Rec.birthday self = Some b ->
  month (dt_date (Birthday.value b)) = 2 ->
  day (dt_date (Birthday.value b)) = 29 ->
  is_leap (year today) = false ->
  Rec.days_to_birthday today self = Raise ValueError.
Proof.
  intros Hb Hm Hd Hleap. unfold Rec.days_to_birthday, datetime_replace_year.
  rewrite Hb, Hm, Hd, (new_date_feb29 _ Hleap). reflexivity.
Qed.

(** Eve, born on 29.02.2000, seen from 2023-06-01. *)
Lemma days_to_birthday_feb29_raises_witness :
  Rec.days_to_birthday june_1_2023 (born "Eve" "29.02.2000")
  = Raise ValueError.
Proof.
  apply (days_to_birthday_feb29_raises june_1_2023 (born "Eve" "29.02.2000")
           {| Birthday.value :=
                {| dt_date := {| year := 2000; month := 2; day := 29 |};
                   hour := 0; minute := 0; second := 0; microsecond := 0 |} |});
    reflexivity.
Defined.

(** ** [AddressBook] *)

(** *** Keys and names *)

Section Dict.
Context {V : Type}.
Variable P : str * V -> Prop.

Lemma dict_set_Forall (k : str) (v : V) (d : dict V) :
  (forall k', k' = k -> P (k', v)) ->
  Forall P d -> Forall P (dict_set k v d).
Proof.
  intros Hkv. induction 1 as [|[k' v'] rest Hx Hrest IH]; cbn [dict_set].
  - constructor; [now apply Hkv | constructor].
  - destruct (str_eqb k' k) eqn:E.
    + constructor; [|assumption]. apply Hkv. now apply str_eqb_eq.
    + constructor; assumption.
Qed.

Lemma dict_del_Forall (k : str) (d : dict V) :
  Forall P d -> Forall P (dict_del k d).
Proof.
  induction 1 as [|[k' v'] rest Hx Hrest IH]; cbn [dict_del].
  - constructor.
  - destruct (str_eqb k' k); [assumption | constructor; assumption].
Qed.

Lemma dict_get_In (k : str) (v : V) (d : dict V) :
  dict_get k d = Some v -> In (k, v) d.
Proof.
  induction d as [|[k' v'] rest IH]; cbn [dict_get]; [discriminate|].
  destruct (str_eqb k' k) eqn:E.
  - intros [= ->]. apply str_eqb_eq in E. subst. now left.
  - intros H. right. now apply IH.
Qed.
End Dict.

Lemma step_keys_are_names (book : AddressBook.t) (o : op) :
  keys_are_names book -> keys_are_names (step book o).
Proof.
  unfold keys_are_names. intros H. destruct o as [record|name|name]; cbn.
  - apply dict_set_Forall; [|exact H]. intros k' ->. reflexivity.
  - unfold AddressBook.delete.
    destruct (dict_contains name (AddressBook.data book)); [|exact H].
    cbn. apply dict_del_Forall, H.
  - exact H.
Qed.

Lemma run_keys_are_names (ops : list op) (book : AddressBook.t) :
  keys_are_names book -> keys_are_names (fold_left step ops book).
Proof.
  revert book. induction ops as [|o ops IH]; intros book H; cbn.
  - exact H.
  - apply IH, step_keys_are_names, H.
Qed.

(** C10: after any sequence of [add_record], [delete] and [find] calls on
    an empty book, every key of the book is the name of the record stored
    under it, and a record [find] returns for a name has that name. *)
Theorem keys_match_names (ops : list op) :
  keys_are_names (run ops)
  /\ forall name record,
       AddressBook.find (run ops) name = Some record ->
       Name.value (Rec.name record) = name.
Proof.
  assert (H : keys_are_names (run ops))
    by (apply run_keys_are_names; constructor).
  split; [exact H|]. intros name record Hfind.
  apply dict_get_In in Hfind. unfold keys_are_names in H.
  rewrite Forall_forall in H. symmetry. exact (H _ Hfind).
Qed.

(** *** Upcoming birthdays *)

Lemma new_date_ok (y m d : Z) (x : date) :
  new_date y m d = Ok x ->
  valid_date x /\ x = {| year := y; month := m; day := d |}.
Proof.
  unfold new_date, valid_date.
  destruct (check_date_fields y m d) eqn:E; [|discriminate].
  intros [= <-]. split; [exact E | reflexivity].
Qed.

Lemma datetime_replace_year_ok (dt dt' : datetime) (y : Z) :
  datetime_replace_year dt y = Ok dt' -> valid_date (dt_date dt').
Proof.
  unfold datetime_replace_year.
  destruct (new_date y (month (dt_date dt)) (day (dt_date dt))) eqn:E;
    [|discriminate].
  cbn. intros [= <-]. cbn. now apply new_date_ok in E.
Qed.

Lemma birthday_this_year_valid (today bty : date) (b : Birthday.t) :
  AddressBook.birthday_this_year today b = Ok bty -> valid_date bty.
Proof.
  unfold AddressBook.birthday_this_year.
  destruct (datetime_replace_year (Birthday.value b) (year today))
    as [dt|] eqn:E1; [|discriminate]. cbn.
  destruct (date_lt (dt_date dt) today).
  - destruct (datetime_replace_year (Birthday.value b) (year today + 1))
      as [dt'|] eqn:E2; [|discriminate].
    cbn. intros [= <-]. eapply datetime_replace_year_ok, E2.
  - intros [= <-]. eapply datetime_replace_year_ok, E1.
Qed.

Section Window.
Variable style : year_style.
Variables today next_week first : date.

Hypothesis first_in_window :
  valid_date first
  /\ date_le today first = true /\ date_le first next_week = true.

Lemma visit_in_window (acc acc' : list upcoming) (record : Rec.t) :
  Forall (in_window style today next_week) acc ->
  AddressBook.visit style today next_week first acc record = Ok acc' ->
  Forall (in_window style today next_week) acc'.
Proof.
  intros Hacc. unfold AddressBook.visit.
  destruct (Rec.birthday record) as [b|]; [|now intros [= <-]].
  destruct (AddressBook.birthday_this_year today b) as [bty|] eqn:Eb;
    [|discriminate].
  cbn. apply birthday_this_year_valid in Eb.
  destruct (date_le today bty && date_le bty next_week) eqn:W;
    [|now intros [= <-]].
  apply andb_true_iff in W as [W1 W2].
  destruct (weekday bty <=? 4).
  - intros [= <-]. apply Forall_app. split; [exact Hacc|].
    constructor; [|constructor]. exists bty. cbn. auto.
  - destruct ((weekday bty =? 5) || (weekday bty =? 6));
      [|now intros [= <-]].
    intros [= <-]. apply Forall_app. split; [exact Hacc|].
    constructor; [|constructor]. exists first. cbn. tauto.
Qed.

Lemma visit_all_in_window (records : list Rec.t) :
  forall acc acc',
    Forall (in_window style today next_week) acc ->
    AddressBook.visit_all style today next_week first acc records = Ok acc' ->
    Forall (in_window style today next_week) acc'.
Proof.
  induction records as [|record rest IH]; intros acc acc' Hacc; cbn.
  - now intros [= <-].
  - destruct (AddressBook.visit style today next_week first acc record)
      as [u|] eqn:E; [|discriminate].
    cbn. apply IH. eapply visit_in_window; eassumption.
Qed.
End Window.

(** Sorting keeps the entries. *)

Lemma insert_by_perm {A} (key : A -> str) (x : A) (l : list A) :
  Permutation (insert_by key x l) (x :: l).
Proof.
  induction l as [|y l IH]; cbn.
  - reflexivity.
  - destruct (str_ltb (key x) (key y)); [reflexivity|].
    rewrite IH. apply perm_swap.
Qed.

Lemma sorted_perm {A} (key : A -> str) (l : list A) :
  Permutation (sorted key l) l.
Proof.
  unfold sorted.
  enough (H : forall acc,
             Permutation (fold_left (fun a x => insert_by key x a) l acc)
               (acc ++ l)) by apply (H []).
  induction l as [|x l IH]; intros acc; cbn.
  - now rewrite app_nil_r.
  - rewrite IH, insert_by_perm. apply Permutation_middle.
Qed.

(** A rendering names one date. *)

Lemma zfill_no_dot (w : nat) : forall n, ~ In dot (zfill w n).
Proof.
  induction w as [|w IH]; intros n; cbn [zfill]; [intros []|].
  rewrite in_app_iff. intros [H|[H|[]]]; [exact (IH _ H)|].
  unfold dot in H. pose proof (Z.mod_pos_bound n 10 ltac:(lia)). lia.
Qed.

Lemma render_year_no_dot (style : year_style) (y : Z) :
  ~ In dot (render_year style y).
Proof.
  destruct style; cbn [render_year]; [apply zfill_no_dot|].
  unfold plain_year.
  repeat match goal with |- context [if ?c then _ else _] => destruct c end;
    apply zfill_no_dot.
Qed.

Lemma zfill_length (w : nat) : forall n, length (zfill w n) = w.
Proof.
  induction w as [|w IH]; intros n; cbn [zfill]; [reflexivity|].
  rewrite length_app, IH. cbn. lia.
Qed.

Lemma zfill_inj (w : nat) :
  forall n n',
    0 <= n < 10 ^ Z.of_nat w -> 0 <= n' < 10 ^ Z.of_nat w ->
    zfill w n = zfill w n' -> n = n'.
Proof.
  induction w as [|w IH]; intros n n' Hn Hn' H.
  - change (10 ^ Z.of_nat 0) with 1 in *. lia.
  - rewrite Nat2Z.inj_succ, Z.pow_succ_r in Hn, Hn' by lia.
    cbn [zfill] in H. apply app_inj_tail in H as [H1 H2].
    apply IH in H1;
      [| split; [apply Z.div_pos | apply Z.div_lt_upper_bound]; lia
       | split; [apply Z.div_pos | apply Z.div_lt_upper_bound]; lia ].
    rewrite (Z.div_mod n 10), (Z.div_mod n' 10) by lia. lia.
Qed.

Lemma zfill_eq (w w' : nat) (n n' : Z) :
  0 <= n < 10 ^ Z.of_nat w -> 0 <= n' < 10 ^ Z.of_nat w' ->
  zfill w n = zfill w' n' -> n = n'.
Proof.
  intros Hn Hn' H.
  assert (E : w = w')
    by (rewrite <- (zfill_length w n), H; apply zfill_length).
  subst w'. eapply zfill_inj; eassumption.
Qed.

Lemma render_year_inj (style : year_style) (y y' : Z) :
  1 <= y <= 9999 -> 1 <= y' <= 9999 ->
  render_year style y = render_year style y' -> y = y'.
Proof.
  intros Hy Hy'. destruct style; cbn [render_year].
  - apply zfill_inj; change (10 ^ Z.of_nat 4) with 10000; lia.
  - unfold plain_year.
    destruct (Z.ltb_spec y 10); [|destruct (Z.ltb_spec y 100);
                                   [|destruct (Z.ltb_spec y 1000)]];
    (destruct (Z.ltb_spec y' 10); [|destruct (Z.ltb_spec y' 100);
                                     [|destruct (Z.ltb_spec y' 1000)]]);
    apply zfill_eq;
    repeat match goal with
    | |- context [10 ^ Z.of_nat ?k] =>
        let v := eval vm_compute in (10 ^ Z.of_nat k) in
        change (10 ^ Z.of_nat k) with v
    end; lia.
Qed.

Lemma strftime_Ymd (style : year_style) (d : date) :
  strftime style (lit "%Y.%m.%d") d
  = render_year style (year d) ++ dot :: zfill 2 (month d) ++ dot
    :: zfill 2 (day d).
Proof.
  rewrite <- (app_nil_r (zfill 2 (day d))). reflexivity.
Qed.

(** Two valid dates written alike with [%Y.%m.%d] are one date. *)
Lemma strftime_Ymd_inj (style : year_style) (a b : date) :
  valid_date a -> valid_date b ->
  strftime style (lit "%Y.%m.%d") a = strftime style (lit "%Y.%m.%d") b ->
  a = b.
Proof.
  intros Va Vb. rewrite !strftime_Ymd. intros E.
  apply check_date_fields_ranges in Va as (Ya & Ma & Da).
  apply check_date_fields_ranges in Vb as (Yb & Mb & Db).
  apply split_at_dot in E as [Ey E]; try apply render_year_no_dot.
  apply split_at_dot in E as [Em Ed]; try apply zfill_no_dot.
  apply render_year_inj in Ey; try assumption.
  apply zfill_inj in Em; try (change (10 ^ Z.of_nat 2) with 100; lia).
  apply zfill_inj in Ed; try (change (10 ^ Z.of_nat 2) with 100; lia).
  destruct a, b. cbn in *. congruence.
Qed.

(** C1: every entry [get_upcoming_birthdays] returns carries the
    rendering of a date [d] with [today <= d <= today + 7 days], also when
    the birthday was moved off a weekend; no other date is written so. *)
Theorem upcoming_within_window (style : year_style)
  (today : date) (book : AddressBook.t) (l : list upcoming) (e : upcoming) :
  valid_date today ->
  AddressBook.get_upcoming_birthdays style today book = Ok l ->
  In e l ->
  exists next_week d,
    date_add_days today 7 = Ok next_week
    /\ congratulation_date e = strftime style (lit "%Y.%m.%d") d
    /\ valid_date d
    /\ date_le today d = true /\ date_le d next_week = true
    /\ toordinal today <= toordinal d <= toordinal today + 7
    /\ forall d',
         valid_date d' ->
         congratulation_date e = strftime style (lit "%Y.%m.%d") d' ->
         d' = d.
Proof.
  intros Ht Hl He. unfold AddressBook.get_upcoming_birthdays in Hl.
  destruct (date_add_days today 7) as [next_week|] eqn:Hnw; [|discriminate].
  cbn in Hl.
  destruct (first_day_of_next_week_spec today next_week Ht Hnw)
    as (first & Hf & Vf & _ & _ & Of).
  rewrite Hf in Hl. cbn in Hl.
  destruct (AddressBook.visit_all style today next_week first []
              (dict_values (AddressBook.data book))) as [u|] eqn:Hu;
    [|discriminate].
  cbn in Hl. injection Hl as <-.
  pose proof (date_add_days_ok _ _ _ Hnw) as [Vnw Onw].
  assert (W : Forall (in_window style today next_week) u).
  { eapply (visit_all_in_window style today next_week first);
      [|constructor|exact Hu].
    split; [exact Vf|].
    split; apply date_le_ordinal; try assumption; lia. }
  rewrite Forall_forall in W.
  destruct (W e) as (d & Hd & Vd & L1 & L2).
  { eapply Permutation_in; [apply sorted_perm | exact He]. }
  exists next_week, d. repeat split; try assumption.
  - apply (date_le_ordinal today d Ht Vd), L1.
  - rewrite <- Onw. apply (date_le_ordinal d next_week Vd Vnw), L2.
  - intros d' Vd' Hd'. apply (strftime_Ymd_inj style); congruence.
Qed.

(** Bob's entry for 2024.06.10, returned on 2024-06-03. *)
Lemma upcoming_within_window_witness :
  exists next_week d,
    date_add_days june_3_2024 7 = Ok next_week
    /\ congratulation_date
         {| u_name := lit "Bob"; congratulation_date := lit "2024.06.10" |}
       = strftime FourDigits (lit "%Y.%m.%d") d
    /\ valid_date d
    /\ date_le june_3_2024 d = true /\ date_le d next_week = true
    /\ toordinal june_3_2024 <= toordinal d <= toordinal june_3_2024 + 7
    /\ forall d',
         valid_date d' ->
         congratulation_date
           {| u_name := lit "Bob"; congratulation_date := lit "2024.06.10" |}
         = strftime FourDigits (lit "%Y.%m.%d") d' ->
         d' = d.
Proof.
  apply (upcoming_within_window FourDigits june_3_2024 bob_book
           [{| u_name := lit "Bob";
               congratulation_date := lit "2024.06.10" |}]).
  - reflexivity.
  - reflexivity.
  - left. reflexivity.
Defined.

Section Reported.
Variable style : year_style.
Variables today next_week first : date.

(** What the loop adds for a birthday on [bty] inside the window. *)
Lemma visit_reports (acc : list upcoming) (record : Rec.t)
  (b : Birthday.t) (bty : date) :
  Rec.birthday record = Some b ->
  AddressBook.birthday_this_year today b = Ok bty ->
  date_le today bty = true -> date_le bty next_week = true ->
  AddressBook.visit style today next_week first acc record
  = Ok (acc ++ [entry style record (if weekday bty <=? 4 then bty else first)]).
Proof.
  intros Hb Hbty W1 W2. unfold AddressBook.visit.
  rewrite Hb, Hbty. cbn. rewrite W1, W2. cbn.
  destruct (Z.leb_spec (weekday bty) 4) as [|Hw]; [reflexivity|].
  pose proof (weekday_bounds bty).
  assert (Hw' : weekday bty = 5 \/ weekday bty = 6) by lia.
  destruct Hw' as [-> | ->]; reflexivity.
Qed.

Lemma visit_keeps (acc acc' : list upcoming) (record : Rec.t) :
  AddressBook.visit style today next_week first acc record = Ok acc' ->
  forall e, In e acc -> In e acc'.
Proof.
  unfold AddressBook.visit.
  destruct (Rec.birthday record) as [b|]; [|now intros [= <-]].
  destruct (AddressBook.birthday_this_year today b) as [bty|];
    [|discriminate].
  cbn.
  destruct (date_le today bty && date_le bty next_week);
    [|now intros [= <-]].
  destruct (weekday bty <=? 4);
    [|destruct ((weekday bty =? 5) || (weekday bty =? 6))];
    intros [= <-] e He; try assumption; apply in_or_app; now left.
Qed.

Lemma visit_total (acc : list upcoming) (record : Rec.t) :
  (forall b, Rec.birthday record = Some b ->
             exists bty, AddressBook.birthday_this_year today b = Ok bty) ->
  exists acc',
    AddressBook.visit style today next_week first acc record = Ok acc'.
Proof.
  intros H. unfold AddressBook.visit.
  destruct (Rec.birthday record) as [b|]; [|eauto].
  destruct (H b eq_refl) as [bty ->]. cbn.
  destruct (date_le today bty && date_le bty next_week); [|eauto].
  destruct (weekday bty <=? 4);
    [|destruct ((weekday bty =? 5) || (weekday bty =? 6))]; eauto.
Qed.

Lemma visit_all_reports (records : list Rec.t) :
  birthdays_movable today records ->
  forall acc,
  exists acc',
    AddressBook.visit_all style today next_week first acc records = Ok acc'
    /\ (forall e, In e acc -> In e acc')
    /\ forall record b bty,
         In record records -> Rec.birthday record = Some b ->
         AddressBook.birthday_this_year today b = Ok bty ->
         date_le today bty = true -> date_le bty next_week = true ->
         In (entry style record (if weekday bty <=? 4 then bty else first))
            acc'.
Proof.
  induction records as [|record rest IH]; intros Hmov acc; cbn.
  - exists acc. split; [reflexivity|]. split; [auto|]. intros ? ? ? [].
  - destruct (visit_total acc record) as [u Hu].
    { intros b Hb. apply (Hmov record b); [now left | exact Hb]. }
    rewrite Hu. cbn.
    destruct (IH (fun r b Hr => Hmov r b (or_intror Hr)) u)
      as (acc' & Hall & Hkeep & Hrep).
    exists acc'. split; [exact Hall|]. split.
    + intros e He. apply Hkeep. eapply visit_keeps; eassumption.
    + intros r b bty [<-|Hr] Hb Hbty W1 W2.
      * apply Hkeep.
        rewrite (visit_reports acc record b bty Hb Hbty W1 W2) in Hu.
        injection Hu as <-. apply in_or_app. right. now left.
      * eapply Hrep; eassumption.
Qed.
End Reported.

(** C2, as stated, fails, for either style of year.  On 9999-12-27 Bob's
    birthday, 28.12, is a Tuesday no later than seven days after [today],
    and the query reports nothing: [today + 7 days] is past the last date
    and raises [OverflowError].  On 2023-06-05 Bob's birthday, 10.06, is a
    Saturday inside the window, and the query reports nothing: it raises
    [ValueError], because the record of Eve, born on 29.02, cannot be
    moved to 2023. *)
Lemma query_raises_with_birthday_in_window :
  (In (born "Bob" "28.12.1990")
      (dict_values (AddressBook.data late_book))
   /\ (exists b,
         Rec.birthday (born "Bob" "28.12.1990") = Some b
         /\ AddressBook.birthday_this_year dec_27_9999 b
            = Ok {| year := 9999; month := 12; day := 28 |})
   /\ weekday {| year := 9999; month := 12; day := 28 |} = 1
   /\ toordinal dec_27_9999
      <= toordinal {| year := 9999; month := 12; day := 28 |}
      <= toordinal dec_27_9999 + 7
   /\ (forall style,
         AddressBook.get_upcoming_birthdays style dec_27_9999 late_book
         = Raise OverflowError))
  /\ (In (born "Bob" "10.06.1990")
         (dict_values (AddressBook.data bob_and_eve))
      /\ (exists b,
            Rec.birthday (born "Bob" "10.06.1990") = Some b
            /\ AddressBook.birthday_this_year june_5_2023 b
               = Ok {| year := 2023; month := 6; day := 10 |})
      /\ weekday {| year := 2023; month := 6; day := 10 |} = 5
      /\ toordinal june_5_2023
         <= toordinal {| year := 2023; month := 6; day := 10 |}
         <= toordinal june_5_2023 + 7
      /\ (forall style,
            AddressBook.get_upcoming_birthdays style june_5_2023 bob_and_eve
            = Raise ValueError)).
Proof.
  split.
  - split; [left; reflexivity|].
    split; [eexists; split; reflexivity|].
    split; [reflexivity|]. split; [vm_compute; split; discriminate|].
    intros style. destruct style; reflexivity.
  - split; [left; reflexivity|].
    split; [eexists; split; reflexivity|].
    split; [reflexivity|]. split; [vm_compute; split; discriminate|].
    intros style. destruct style; reflexivity.
Qed.

(** C2, amended: in a book whose birthdays can all be moved to the year
    the loop asks for, and with [today + 7 days] a date, the query returns
    a list; for a record whose birthday falls on [bty] inside the window
    the list holds the record's name with [bty] when [bty] is a Monday to
    Friday, and with the Monday of the week of [next_week] when [bty] is a
    Saturday or a Sunday.  On 2024-06-03 Bob, born on 08.06, is reported
    for 2024.06.10. *)
Theorem weekend_birthday_moves_to_monday (style : year_style) :
  (forall (today next_week : date) (book : AddressBook.t)
          (record : Rec.t) (b : Birthday.t) (bty : date),
      valid_date today ->
      date_add_days today 7 = Ok next_week ->
      birthdays_movable today (dict_values (AddressBook.data book)) ->
      In record (dict_values (AddressBook.data book)) ->
      Rec.birthday record = Some b ->
      AddressBook.birthday_this_year today b = Ok bty ->
      date_le today bty = true -> date_le bty next_week = true ->
      exists l monday,
        AddressBook.get_upcoming_birthdays style today book = Ok l
        /\ valid_date monday /\ weekday monday = 0
        /\ toordinal next_week - 6 <= toordinal monday
           <= toordinal next_week
        /\ (weekday bty <= 4 -> In (entry style record bty) l)
        /\ (5 <= weekday bty -> In (entry style record monday) l))
  /\ AddressBook.get_upcoming_birthdays style june_3_2024 bob_book
     = Ok [{| u_name := lit "Bob"; congratulation_date := lit "2024.06.10" |}].
Proof.
  split; [|destruct style; reflexivity].
  intros today next_week book record b bty Ht Hnw Hmov Hin Hb Hbty W1 W2.
  destruct (first_day_of_next_week_spec today next_week Ht Hnw)
    as (first & Hf & Vf & Wf & Of & Bf).
  destruct (visit_all_reports style today next_week first _ Hmov [])
    as (u & Hu & _ & Hrep).
  specialize (Hrep record b bty Hin Hb Hbty W1 W2).
  exists (sorted congratulation_date u), first.
  unfold AddressBook.get_upcoming_birthdays.
  rewrite Hnw. cbn. rewrite Hf. cbn. rewrite Hu. cbn.
  pose proof (weekday_bounds next_week).
  split; [reflexivity|]. split; [exact Vf|]. split; [exact Wf|].
  split; [lia|].
  split; intros Hw; (eapply Permutation_in;
                     [symmetry; apply sorted_perm|]).
  - replace (weekday bty <=? 4) with true in Hrep
      by (symmetry; apply Z.leb_le; lia). exact Hrep.
  - replace (weekday bty <=? 4) with false in Hrep
      by (symmetry; apply Z.leb_gt; lia). exact Hrep.
Qed.

(** Bob, born on 08.06, a Saturday in 2024, seen from Monday 2024-06-03. *)
Lemma weekend_birthday_moves_to_monday_witness :
  exists l monday,
    AddressBook.get_upcoming_birthdays FourDigits june_3_2024 bob_book = Ok l
    /\ valid_date monday /\ weekday monday = 0
    /\ toordinal {| year := 2024; month := 6; day := 10 |} - 6
       <= toordinal monday
       <= toordinal {| year := 2024; month := 6; day := 10 |}
    /\ (weekday {| year := 2024; month := 6; day := 8 |} <= 4 ->
        In (entry FourDigits (born "Bob" "08.06.1990")
              {| year := 2024; month := 6; day := 8 |}) l)
    /\ (5 <= weekday {| year := 2024; month := 6; day := 8 |} ->
        In (entry FourDigits (born "Bob" "08.06.1990") monday) l).
Proof.
  refine (proj1 (weekend_birthday_moves_to_monday FourDigits)
            june_3_2024 {| year := 2024; month := 6; day := 10 |}
            bob_book (born "Bob" "08.06.1990")
            {| Birthday.value :=
                 {| dt_date := {| year := 1990; month := 6; day := 8 |};
                    hour := 0; minute := 0; second := 0;
                    microsecond := 0 |} |}
            {| year := 2024; month := 6; day := 8 |}
            _ _ _ _ _ _ _ _); try reflexivity.
  - intros record b [<-|[]] [= <-]. eexists. reflexivity.
  - left. reflexivity.
Defined.

(** ** More on [Record] *)




Lemma edit_phone_from_absent (self : Rec.t) (old_phone new_phone : str) :
  forall (ps : list Phone.t) (i : nat),
    ~ In old_phone (values_of ps) ->
    Rec.edit_phone_from self old_phone new_phone i ps = (self, Ok tt).
Proof.
  induction ps as [|phone rest IH]; intros i H; cbn [Rec.edit_phone_from].
  - reflexivity.
  - destruct (str_eqb (Phone.value phone) old_phone) eqn:E.
    + apply str_eqb_eq in E. exfalso. apply H. now left.
    + apply IH. intros Hin. apply H. now right.
Qed.

(** When the old number is not in the list, [edit_phone] changes nothing
    and returns normally, whatever the new number is: an invalid new
    number is not even looked at. *)
Theorem edit_phone_absent_is_silent (self : Rec.t) (old_phone new_phone : str) :
  ~ In old_phone (values_of (Rec.phones self)) ->
  Rec.edit_phone self old_phone new_phone = (self, Ok tt).
Proof. apply edit_phone_from_absent. Qed.

(** A number that is no phone number, in place of one that is not there. *)
Lemma edit_phone_absent_is_silent_witness :
  Rec.edit_phone two_phones (lit "5555555555") (lit "oops")
  = (two_phones, Ok tt).
Proof.
  apply (edit_phone_absent_is_silent two_phones (lit "5555555555")
           (lit "oops")).
  cbn. intros [H|[H|[H|[]]]]; discriminate H.
Defined.

(** [add_birthday] either stores the date [Birthday] reads, in place of
    any earlier birthday and with the name and the phones as they were,
    or raises [ValueError] and leaves the record, an earlier birthday
    included, as it was. *)
Theorem add_birthday_sets_or_keeps (self : Rec.t) (birthday : str) :
  (exists y m d,
      dotted_date birthday y m d /\ check_date_fields y m d = true
      /\ Rec.add_birthday self birthday
         = ({| Rec.name := Rec.name self;
               Rec.phones := Rec.phones self;
               Rec.birthday :=
                 Some {| Birthday.value := midnight y m d |} |}, Ok tt))
  \/ ((~ exists y m d,
          dotted_date birthday y m d /\ check_date_fields y m d = true)
      /\ Rec.add_birthday self birthday = (self, Raise ValueError)).
Proof.
  unfold Rec.add_birthday.
  destruct (birthday_init_raises birthday) as [[b Hb]|Hr].
  - left. rewrite Hb. apply birthday_init_ok in Hb as (y & m & d & H & C & ->).
    exists y, m, d. auto.
  - right. rewrite Hr. split; [|reflexivity].
    intros (y & m & d & H & C).
    assert (E : Birthday.init birthday
                = Ok {| Birthday.value := midnight y m d |})
      by (apply birthday_init_ok; eauto 6).
    congruence.
Qed.

Lemma edit_phone_from_cases (self : Rec.t) (old_phone new_phone : str) :
  forall (ps : list Phone.t) (i : nat),
    fst (Rec.edit_phone_from self old_phone new_phone i ps) = self
    \/ exists p j,
         Phone.init new_phone = Ok p
         /\ Rec.edit_phone_from self old_phone new_phone i ps
            = (Rec.set_phones self (list_set j p (Rec.phones self)), Ok tt).
Proof.
  induction ps as [|q ps IH]; intros i; cbn [Rec.edit_phone_from].
  - now left.
  - destruct (str_eqb (Phone.value q) old_phone); [|apply IH].
    destruct (Phone.init new_phone) as [p|]; [|now left].
    right. exists p, i. auto.
Qed.

Lemma call_keeps_name (self : Rec.t) (m : method) :
  Rec.name (call self m) = Rec.name self.
Proof.
  destruct m as [phone|phone|old_phone new_phone|birthday]; cbn [call].
  - unfold Rec.add_phone. destruct (Phone.init phone); reflexivity.
  - reflexivity.
  - unfold Rec.edit_phone.
    destruct (edit_phone_from_cases self old_phone new_phone
                (Rec.phones self) 0) as [->|(p & j & _ & ->)]; reflexivity.
  - unfold Rec.add_birthday. destruct (Birthday.init birthday); reflexivity.
Qed.

Lemma phone_init_valid (s : str) (p : Phone.t) :
  Phone.init s = Ok p -> ten_decimals (Phone.value p).
Proof.
  unfold Phone.init. destruct (Phone.validate s) as [[]|] eqn:E;
    [|discriminate].
  cbn. intros [= <-]. cbn. now apply validate_ok_iff.
Qed.

Lemma list_set_Forall {A} (P : A -> Prop) (v : A) (l : list A) :
  P v -> Forall P l -> forall i, Forall P (list_set i v l).
Proof.
  intros Hv. induction 1 as [|x l Hx Hl IH]; intros i; destruct i; cbn;
    constructor; auto.
Qed.

Lemma call_keeps_well_formed (self : Rec.t) (m : method) :
  well_formed self -> well_formed (call self m).
Proof.
  intros [Hp Hb].
  destruct m as [phone|phone|old_phone new_phone|birthday]; cbn [call].
  - unfold Rec.add_phone. destruct (Phone.init phone) as [p|] eqn:E;
      [|split; assumption].
    split; [|exact Hb]. cbn. apply Forall_app. split; [exact Hp|].
    constructor; [|constructor]. eapply phone_init_valid, E.
  - split; [|exact Hb]. cbn. rewrite Forall_forall in *.
    intros p Hin. apply filter_In in Hin as [Hin _]. auto.
  - unfold Rec.edit_phone.
    destruct (edit_phone_from_cases self old_phone new_phone
                (Rec.phones self) 0) as [->|(p & j & E & ->)];
      [split; assumption|].
    split; [|exact Hb]. cbn.
    apply list_set_Forall; [eapply phone_init_valid, E | exact Hp].
  - unfold Rec.add_birthday.
    destruct (Birthday.init birthday) as [b|] eqn:E; [|split; assumption].
    split; [exact Hp|]. cbn.
    apply birthday_init_ok in E as (y & m & d & _ & C & ->). eauto.
Qed.

(** After any calls of [add_phone], [remove_phone], [edit_phone] and
    [add_birthday] on [Record(name)], failed calls included, the name is
    still [name], every phone in the list is ten decimal digits, and the
    birthday, if set, is the midnight of a real date. *)
Theorem record_stays_well_formed (name : str) (ms : list method) :
  Rec.name (fold_left call ms (Rec.init name)) = {| Name.value := name |}
  /\ well_formed (fold_left call ms (Rec.init name)).
Proof.
  assert (H : forall self,
             well_formed self ->
             Rec.name (fold_left call ms self) = Rec.name self
             /\ well_formed (fold_left call ms self)).
  { induction ms as [|m ms IH]; intros self Hw; cbn [fold_left].
    - auto.
    - destruct (IH (call self m) (call_keeps_well_formed self m Hw))
        as [Hn Hw'].
      rewrite Hn, call_keeps_name. auto. }
  apply (H (Rec.init name)). split; [constructor | exact I].
Qed.

(** ** More on the book as a container *)

Section DictLaws.
Context {V : Type}.

Lemma dict_get_set_same (k : str) (v : V) (d : dict V) :
  dict_get k (dict_set k v d) = Some v.
Proof.
  induction d as [|[k' v'] d IH]; cbn.
  - now rewrite str_eqb_refl.
  - destruct (str_eqb k' k) eqn:E; cbn; rewrite E; [reflexivity | exact IH].
Qed.

Lemma dict_get_set_other (k k' : str) (v : V) (d : dict V) :
  k' <> k -> dict_get k' (dict_set k v d) = dict_get k' d.
Proof.
  intros N. induction d as [|[k0 v0] d IH]; cbn.
  - replace (str_eqb k k') with false; [reflexivity|].
    symmetry. apply str_eqb_neq. congruence.
  - destruct (str_eqb k0 k) eqn:E; cbn; [|now rewrite IH].
    apply str_eqb_eq in E. subst k0.
    replace (str_eqb k k') with false; [reflexivity|].
    symmetry. apply str_eqb_neq. congruence.
Qed.

Lemma dict_get_None (k : str) (d : dict V) :
  dict_get k d = None <-> ~ In k (map fst d).
Proof.
  induction d as [|[k' v'] d IH]; cbn; [tauto|].
  destruct (str_eqb k' k) eqn:E.
  - apply str_eqb_eq in E. split; [discriminate | intros H; exfalso; auto].
  - apply str_eqb_neq in E. rewrite IH. tauto.
Qed.

Lemma dict_set_new (k : str) (v : V) (d : dict V) :
  dict_get k d = None -> dict_set k v d = d ++ [(k, v)].
Proof.
  induction d as [|[k' v'] d IH]; cbn; [reflexivity|].
  destruct (str_eqb k' k); [discriminate|]. intros H. now rewrite IH.
Qed.

Lemma dict_set_old (k : str) (v : V) (d : dict V) :
  dict_get k d <> None -> map fst (dict_set k v d) = map fst d.
Proof.
  induction d as [|[k' v'] d IH]; cbn; [congruence|].
  destruct (str_eqb k' k); cbn; [reflexivity|]. intros H. now rewrite IH.
Qed.

Lemma dict_set_NoDup (k : str) (v : V) (d : dict V) :
  NoDup (map fst d) -> NoDup (map fst (dict_set k v d)).
Proof.
  intros H. destruct (dict_get k d) eqn:E.
  - rewrite dict_set_old by congruence. exact H.
  - rewrite dict_set_new, map_app by exact E. cbn.
    apply NoDup_app; [exact H | repeat constructor; intros [] |].
    intros x Hx [<-|[]]. now apply dict_get_None in E.
Qed.

Lemma dict_del_keys (k : str) (d : dict V) :
  forall k', In k' (map fst (dict_del k d)) -> In k' (map fst d).
Proof.
  induction d as [|[k0 v0] d IH]; cbn; [tauto|].
  destruct (str_eqb k0 k); cbn; intros k' H; [now right|].
  destruct H as [H|H]; [now left | right; now apply IH].
Qed.

Lemma dict_del_NoDup (k : str) (d : dict V) :
  NoDup (map fst d) -> NoDup (map fst (dict_del k d)).
Proof.
  induction d as [|[k0 v0] d IH]; cbn; [auto|].
  intros H. inversion H as [|? ? Hk Hd]; subst.
  destruct (str_eqb k0 k); cbn; [exact Hd|].
  constructor; [|now apply IH]. intros Hin. apply Hk.
  eapply dict_del_keys, Hin.
Qed.

Lemma dict_get_del_same (k : str) (d : dict V) :
  NoDup (map fst d) -> dict_get k (dict_del k d) = None.
Proof.
  induction d as [|[k0 v0] d IH]; cbn; [reflexivity|].
  intros H. inversion H as [|? ? Hk Hd]; subst.
  destruct (str_eqb k0 k) eqn:E; cbn.
  - apply str_eqb_eq in E. subst k0. now apply dict_get_None.
  - rewrite E. now apply IH.
Qed.

Lemma dict_get_del_other (k k' : str) (d : dict V) :
  k' <> k -> dict_get k' (dict_del k d) = dict_get k' d.
Proof.
  intros N. induction d as [|[k0 v0] d IH]; cbn; [reflexivity|].
  destruct (str_eqb k0 k) eqn:E; cbn.
  - apply str_eqb_eq in E. subst k0.
    replace (str_eqb k k') with false; [reflexivity|].
    symmetry. apply str_eqb_neq. congruence.
  - now rewrite IH.
Qed.
End DictLaws.

(** [find] after [add_record]: the record just added is found under its
    own name, whatever was stored there before, and every other name
    finds what it found before. *)
Theorem find_after_add_record
  (book : AddressBook.t) (record : Rec.t) (name : str) :
  AddressBook.find (AddressBook.add_record book record) name
  = if str_eqb (Name.value (Rec.name record)) name then Some record
    else AddressBook.find book name.
Proof.
  unfold AddressBook.find, AddressBook.add_record. cbn [AddressBook.data].
  destruct (str_eqb (Name.value (Rec.name record)) name) eqn:E.
  - apply str_eqb_eq in E. subst name. apply dict_get_set_same.
  - apply str_eqb_neq in E. apply dict_get_set_other. congruence.
Qed.

Lemma step_keys_NoDup (book : AddressBook.t) (o : op) :
  NoDup (keys book) -> NoDup (keys (step book o)).
Proof.
  unfold keys. intros H. destruct o as [record|name|name]; cbn.
  - now apply dict_set_NoDup.
  - unfold AddressBook.delete.
    destruct (dict_contains name (AddressBook.data book)); [|exact H].
    cbn. now apply dict_del_NoDup.
  - exact H.
Qed.

(** The order of a book: [add_record] puts a new name behind all the
    others and leaves a name the book holds in its place, changing
    neither the keys nor their order; and in a book built from the empty
    one by [add_record], [delete] and [find] no name is there twice. *)
Theorem add_record_keeps_order :
  (forall book record,
      AddressBook.find book (Name.value (Rec.name record)) = None ->
      AddressBook.data (AddressBook.add_record book record)
      = AddressBook.data book ++ [(Name.value (Rec.name record), record)])
  /\ (forall book record,
         AddressBook.find book (Name.value (Rec.name record)) <> None ->
         keys (AddressBook.add_record book record) = keys book)
  /\ (forall ops, NoDup (keys (run ops))).
Proof.
  split; [|split].
  - intros book record H. now apply dict_set_new.
  - intros book record H. now apply dict_set_old.
  - intros ops. unfold run.
    assert (G : forall book,
               NoDup (keys book) -> NoDup (keys (fold_left step ops book))).
    { induction ops as [|o ops IH]; intros book H; cbn; [exact H|].
      apply IH, step_keys_NoDup, H. }
    apply G. constructor.
Qed.

(** [delete] in a book without repeated keys: the name deleted is found
    no more, every other name finds what it found before, and deleting a
    name the book does not hold leaves the book as it was. *)
Theorem find_after_delete (book : AddressBook.t) (name name' : str) :
  NoDup (keys book) ->
  AddressBook.find (AddressBook.delete book name) name'
  = (if str_eqb name name' then None else AddressBook.find book name')
  /\ (AddressBook.find book name = None ->
      AddressBook.delete book name = book).
Proof.
  intros H. unfold AddressBook.find, AddressBook.delete, dict_contains.
  split.
  - destruct (dict_get name (AddressBook.data book)) eqn:G; cbn.
    + destruct (str_eqb name name') eqn:E.
      * apply str_eqb_eq in E. subst name'. now apply dict_get_del_same.
      * apply str_eqb_neq in E. apply dict_get_del_other. congruence.
    + destruct (str_eqb name name') eqn:E; [|reflexivity].
      apply str_eqb_eq in E. subst name'. exact G.
  - intros ->. reflexivity.
Qed.

(** Bob deleted from a book with Bob and Eve: Eve is still found. *)
Lemma find_after_delete_witness :
  AddressBook.find (AddressBook.delete bob_and_eve (lit "Bob")) (lit "Eve")
  = (if str_eqb (lit "Bob") (lit "Eve") then None
     else AddressBook.find bob_and_eve (lit "Eve"))
  /\ (AddressBook.find bob_and_eve (lit "Bob") = None ->
      AddressBook.delete bob_and_eve (lit "Bob") = bob_and_eve).
Proof.
  apply (find_after_delete bob_and_eve (lit "Bob") (lit "Eve")).
  repeat constructor; cbn; intros H;
    repeat (destruct H as [H|H]; try discriminate H); exact H.
Defined.

(** ** More on the list of upcoming birthdays *)

(** *** The order of texts *)






(** *** [sorted] sorts, and keeps equal keys in their order *)

Section Sorting.





End Sorting.


(** *** What the loop collects *)

Lemma birthday_this_year_raises (today : date) (b : Birthday.t) (e : exn) :
  AddressBook.birthday_this_year today b = Raise e -> e = ValueError.
Proof.
  assert (R : forall dt y e',
             datetime_replace_year dt y = Raise e' -> e' = ValueError).
  { intros dt y e'. unfold datetime_replace_year, new_date.
    destruct (check_date_fields _ _ _); cbn; [discriminate|].
    now intros [= <-]. }
  unfold AddressBook.birthday_this_year.
  destruct (datetime_replace_year (Birthday.value b) (year today))
    as [dt|e1] eqn:E1; cbn.
  - destruct (date_lt (dt_date dt) today); [|discriminate].
    destruct (datetime_replace_year (Birthday.value b) (year today + 1))
      as [dt'|e2] eqn:E2; cbn; [discriminate|].
    intros [= <-]. eapply R, E2.
  - intros [= <-]. eapply R, E1.
Qed.

Section Collected.
Variable style : year_style.
Variables today next_week first : date.

Lemma visit_reported (acc : list upcoming) (record : Rec.t) :
  AddressBook.visit style today next_week first acc record
  = match Rec.birthday record with
    | Some b =>
        match AddressBook.birthday_this_year today b with
        | Ok _ => Ok (acc ++ reported style today next_week first record)
        | Raise e => Raise e
        end
    | None => Ok acc
    end.
Proof.
  unfold AddressBook.visit, reported.
  destruct (Rec.birthday record) as [b|]; [|reflexivity].
  destruct (AddressBook.birthday_this_year today b) as [bty|]; cbn;
    [|reflexivity].
  destruct (date_le today bty && date_le bty next_week);
    [|now rewrite app_nil_r].
  destruct (Z.leb_spec (weekday bty) 4) as [|Hw]; [reflexivity|].
  pose proof (weekday_bounds bty).
  assert (Hw' : weekday bty = 5 \/ weekday bty = 6) by lia.
  destruct Hw' as [-> | ->]; reflexivity.
Qed.

Lemma visit_all_collects (records : list Rec.t) :
  forall acc acc',
    AddressBook.visit_all style today next_week first acc records = Ok acc' ->
    acc' = acc ++ flat_map (reported style today next_week first) records.
Proof.
  induction records as [|record rest IH]; intros acc acc';
    cbn [AddressBook.visit_all flat_map].
  - intros [= <-]. now rewrite app_nil_r.
  - rewrite visit_reported.
    destruct (Rec.birthday record) as [b|] eqn:Hb.
    + destruct (AddressBook.birthday_this_year today b) as [bty|]; cbn [bind];
        [|discriminate].
      intros H. apply IH in H. now rewrite H, <- app_assoc.
    + cbn [bind]. intros H. apply IH in H. rewrite H.
      assert (N : reported style today next_week first record = [])
        by (unfold reported; now rewrite Hb).
      now rewrite N.
Qed.

(** The loop fails exactly on a birthday that cannot be moved, and then
    with [ValueError]. *)
Lemma visit_all_outcome (records : list Rec.t) :
  forall acc,
    (birthdays_movable today records
     /\ exists acc',
         AddressBook.visit_all style today next_week first acc records
         = Ok acc')
    \/ (~ birthdays_movable today records
        /\ AddressBook.visit_all style today next_week first acc records
           = Raise ValueError).
Proof.
  unfold birthdays_movable.
  induction records as [|record rest IH]; intros acc; cbn.
  - left. split; [intros ? ? []|eauto].
  - rewrite visit_reported.
    destruct (Rec.birthday record) as [b|] eqn:Hb; cbn.
    + destruct (AddressBook.birthday_this_year today b) as [bty|e] eqn:Eb;
        cbn.
      * destruct (IH (acc ++ reported style today next_week first record))
          as [[Hm Hok]|[Hm Hr]].
        -- left. split; [|exact Hok].
           intros r b' [<-|Hr] Hb'; [|eauto].
           rewrite Hb in Hb'. injection Hb' as <-. eauto.
        -- right. split; [|exact Hr].
           intros H. apply Hm. intros r b' Hr'. apply H. now right.
      * right. apply birthday_this_year_raises in Eb as E. subst e.
        split; [|reflexivity].
        intros H. destruct (H record b (or_introl eq_refl) Hb) as [bty E].
        congruence.
    + destruct (IH acc) as [[Hm Hok]|[Hm Hr]].
      * left. split; [|exact Hok].
        intros r b' [<-|Hr] Hb'; [congruence | eauto].
      * right. split; [|exact Hr].
        intros H. apply Hm. intros r b' Hr'. apply H. now right.
Qed.
End Collected.

Lemma get_upcoming_birthdays_ok
  (style : year_style) (today : date) (book : AddressBook.t)
  (l : list upcoming) :
  AddressBook.get_upcoming_birthdays style today book = Ok l ->
  exists next_week first,
    date_add_days today 7 = Ok next_week
    /\ date_sub_days next_week (weekday next_week) = Ok first
    /\ l = sorted congratulation_date
             (flat_map (reported style today next_week first)
                (dict_values (AddressBook.data book))).
Proof.
  unfold AddressBook.get_upcoming_birthdays.
  destruct (date_add_days today 7) as [next_week|] eqn:Hnw; [|discriminate].
  cbn [bind].
  destruct (date_sub_days next_week (weekday next_week)) as [first|] eqn:Hf;
    [|discriminate].
  cbn [bind].
  destruct (AddressBook.visit_all style today next_week first []
              (dict_values (AddressBook.data book))) as [u|] eqn:Hu;
    [|discriminate].
  cbn [bind]. intros [= <-]. apply visit_all_collects in Hu.
  exists next_week, first. subst u. auto.
Qed.

(** The list [get_upcoming_birthdays] returns holds one entry for each
    record whose birthday falls inside the window and nothing else: it is
    a rearrangement of those entries, so every entry names a record of
    the book with a birthday from [today] to [today + 7 days], and there
    are no more entries than records. *)
Theorem upcoming_lists_window_records
  (style : year_style) (today : date) (book : AddressBook.t)
  (l : list upcoming) :
  AddressBook.get_upcoming_birthdays style today book = Ok l ->
  exists next_week first,
    date_add_days today 7 = Ok next_week
    /\ date_sub_days next_week (weekday next_week) = Ok first
    /\ Permutation l
         (flat_map (reported style today next_week first)
            (dict_values (AddressBook.data book)))
    /\ (forall e,
          In e l ->
          exists record b bty,
            In record (dict_values (AddressBook.data book))
            /\ Rec.birthday record = Some b
            /\ AddressBook.birthday_this_year today b = Ok bty
            /\ date_le today bty = true /\ date_le bty next_week = true
            /\ e = entry style record
                     (if weekday bty <=? 4 then bty else first))
    /\ (length l <= length (AddressBook.data book))%nat.
Proof.
  intros H.
  destruct (get_upcoming_birthdays_ok style today book l H)
    as (next_week & first & Hnw & Hf & ->).
  exists next_week, first. split; [exact Hnw|]. split; [exact Hf|].
  split; [apply sorted_perm|]. split.
  - intros e He. eapply Permutation_in in He; [|apply sorted_perm].
    apply in_flat_map in He as (record & Hr & He).
    unfold reported in He.
    destruct (Rec.birthday record) as [b|] eqn:Hb; [|destruct He].
    destruct (AddressBook.birthday_this_year today b) as [bty|] eqn:Eb;
      [|destruct He].
    destruct (date_le today bty && date_le bty next_week) eqn:W;
      [|destruct He].
    apply andb_true_iff in W as [W1 W2].
    destruct He as [<-|[]]. exists record, b, bty. auto 10.
  - rewrite (Permutation_length (sorted_perm _ _)).
    unfold dict_values. rewrite <- (length_map snd).
    induction (map snd (AddressBook.data book)) as [|r rs IH];
      cbn [flat_map length]; [lia|].
    rewrite length_app.
    assert (length (reported style today next_week first r) <= 1)%nat.
    { unfold reported. destruct (Rec.birthday r); [|cbn; lia].
      destruct (AddressBook.birthday_this_year today _); [|cbn; lia].
      destruct (_ && _); cbn; lia. }
    lia.
Qed.

(** Bob's book on 2024-06-03. *)
Lemma upcoming_lists_window_records_witness :
  exists next_week first,
    date_add_days june_3_2024 7 = Ok next_week
    /\ date_sub_days next_week (weekday next_week) = Ok first
    /\ Permutation
         [{| u_name := lit "Bob"; congratulation_date := lit "2024.06.10" |}]
         (flat_map (reported FourDigits june_3_2024 next_week first)
            (dict_values (AddressBook.data bob_book)))
    /\ (forall e,
          In e [{| u_name := lit "Bob";
                   congratulation_date := lit "2024.06.10" |}] ->
          exists record b bty,
            In record (dict_values (AddressBook.data bob_book))
            /\ Rec.birthday record = Some b
            /\ AddressBook.birthday_this_year june_3_2024 b = Ok bty
            /\ date_le june_3_2024 bty = true
            /\ date_le bty next_week = true
            /\ e = entry FourDigits record
                     (if weekday bty <=? 4 then bty else first))
    /\ (length [{| u_name := lit "Bob";
                   congratulation_date := lit "2024.06.10" |}]
        <= length (AddressBook.data bob_book))%nat.
Proof.
  apply (upcoming_lists_window_records FourDigits june_3_2024 bob_book).
  reflexivity.
Defined.



(** *** When the query raises *)

Lemma date_le_dec_24 (today : date) :
  valid_date today ->
  (date_le today dec_24_9999 = true <-> toordinal today + 7 <= MAXORDINAL).
Proof.
  intros H.
  rewrite (date_le_ordinal today dec_24_9999 H) by reflexivity.
  change (toordinal dec_24_9999) with 3652052. unfold MAXORDINAL. lia.
Qed.

Lemma window_overflows (today : date) :
  valid_date today -> date_le today dec_24_9999 = false ->
  date_add_days today 7 = Raise OverflowError.
Proof.
  intros Ht L. pose proof (date_le_dec_24 today Ht) as D.
  unfold date_add_days.
  replace (toordinal today + 7 <=? MAXORDINAL) with false;
    [now rewrite andb_false_r|].
  symmetry. apply Z.leb_gt.
  destruct (Z_le_gt_dec (toordinal today + 7) MAXORDINAL) as [Hle|]; [|lia].
  apply D in Hle. congruence.
Qed.

Lemma window_exists (today : date) :
  valid_date today -> date_le today dec_24_9999 = true ->
  exists next_week first,
    date_add_days today 7 = Ok next_week
    /\ date_sub_days next_week (weekday next_week) = Ok first.
Proof.
  intros Ht L. apply (date_le_dec_24 today Ht) in L.
  pose proof (toordinal_bounds today Ht) as Bt.
  destruct (date_add_days_total today 7 ltac:(lia)) as [next_week Hnw].
  destruct (first_day_of_next_week_spec today next_week Ht Hnw)
    as (first & Hf & _).
  eauto.
Qed.

Lemma query_raises_ValueError
  (style : year_style) (today : date) (book : AddressBook.t) :
  valid_date today -> date_le today dec_24_9999 = true ->
  ~ birthdays_movable today (dict_values (AddressBook.data book)) ->
  AddressBook.get_upcoming_birthdays style today book = Raise ValueError.
Proof.
  intros Ht L Hm. unfold AddressBook.get_upcoming_birthdays.
  destruct (window_exists today Ht L) as (next_week & first & -> & Hf).
  cbn [bind]. rewrite Hf. cbn [bind].
  destruct (visit_all_outcome style today next_week first
              (dict_values (AddressBook.data book)) [])
    as [[M _]|[_ ->]]; [contradiction | reflexivity].
Qed.

Lemma query_returns
  (style : year_style) (today : date) (book : AddressBook.t) :
  valid_date today -> date_le today dec_24_9999 = true ->
  birthdays_movable today (dict_values (AddressBook.data book)) ->
  exists l, AddressBook.get_upcoming_birthdays style today book = Ok l.
Proof.
  intros Ht L Hm. unfold AddressBook.get_upcoming_birthdays.
  destruct (window_exists today Ht L) as (next_week & first & -> & Hf).
  cbn [bind]. rewrite Hf. cbn [bind].
  destruct (visit_all_outcome style today next_week first
              (dict_values (AddressBook.data book)) [])
    as [[_ [u ->]]|[N _]]; [|contradiction].
  cbn [bind]. eauto.
Qed.

Lemma query_overflows
  (style : year_style) (today : date) (book : AddressBook.t) :
  valid_date today -> date_le today dec_24_9999 = false ->
  AddressBook.get_upcoming_birthdays style today book = Raise OverflowError.
Proof.
  intros Ht L. unfold AddressBook.get_upcoming_birthdays.
  now rewrite (window_overflows today Ht L).
Qed.

(** When [get_upcoming_birthdays] returns and when it raises: after
    9999-12-24 it raises [OverflowError]; up to that day it raises
    [ValueError] when the birthday of some record cannot be moved to the
    year the loop asks for, and returns a list otherwise. *)
Theorem upcoming_outcome
  (style : year_style) (today : date) (book : AddressBook.t) :
  valid_date today ->
  (date_le today dec_24_9999 = false ->
   AddressBook.get_upcoming_birthdays style today book = Raise OverflowError)
  /\ (date_le today dec_24_9999 = true ->
      birthdays_movable today (dict_values (AddressBook.data book)) ->
      exists l, AddressBook.get_upcoming_birthdays style today book = Ok l)
  /\ (date_le today dec_24_9999 = true ->
      ~ birthdays_movable today (dict_values (AddressBook.data book)) ->
      AddressBook.get_upcoming_birthdays style today book = Raise ValueError).
Proof.
  intros Ht. split; [|split].
  - now apply query_overflows.
  - now apply query_returns.
  - now apply query_raises_ValueError.
Qed.

(** The three outcomes, for Bob's book on 2024-06-03. *)
Lemma upcoming_outcome_witness :
  (date_le june_3_2024 dec_24_9999 = false ->
   AddressBook.get_upcoming_birthdays FourDigits june_3_2024 bob_book
   = Raise OverflowError)
  /\ (date_le june_3_2024 dec_24_9999 = true ->
      birthdays_movable june_3_2024 (dict_values (AddressBook.data bob_book)) ->
      exists l,
        AddressBook.get_upcoming_birthdays FourDigits june_3_2024 bob_book
        = Ok l)
  /\ (date_le june_3_2024 dec_24_9999 = true ->
      ~ birthdays_movable june_3_2024
          (dict_values (AddressBook.data bob_book)) ->
      AddressBook.get_upcoming_birthdays FourDigits june_3_2024 bob_book
      = Raise ValueError).
Proof.
  apply (upcoming_outcome FourDigits june_3_2024 bob_book).
  reflexivity.
Defined.

(** *** A birthday on 29 February *)

Lemma is_leap_succ (y : Z) : is_leap y = true -> is_leap (y + 1) = false.
Proof.
  intros H. apply is_leap_spec in H as [H4 _].
  destruct (is_leap (y + 1)) eqn:E; [|reflexivity].
  apply is_leap_spec in E as [E4 _]. Z.div_mod_to_equations. lia.
Qed.

Lemma date_lt_le (a b : date) : date_lt a b = negb (date_le b a).
Proof.
  unfold date_lt, date_le. rewrite (date_cmp_antisym a b).
  destruct (date_cmp a b); reflexivity.
Qed.

Lemma check_feb29 (y : Z) :
  1 <= y <= 9999 -> check_date_fields y 2 29 = is_leap y.
Proof.
  intros H. unfold check_date_fields, days_in_month, MINYEAR, MAXYEAR.
  replace (1 <=? y) with true by (symmetry; apply Z.leb_le; lia).
  replace (y <=? 9999) with true by (symmetry; apply Z.leb_le; lia).
  destruct (is_leap y); reflexivity.
Qed.

Lemma feb29_this_year (today : date) (b : Birthday.t) :
  valid_date today ->
  month (dt_date (Birthday.value b)) = 2 ->
  day (dt_date (Birthday.value b)) = 29 ->
  AddressBook.birthday_this_year today b
  = if is_leap (year today)
       && date_le today {| year := year today; month := 2; day := 29 |}
    then Ok {| year := year today; month := 2; day := 29 |}
    else Raise ValueError.
Proof.
  intros Ht Hm Hd. apply valid_date_fields in Ht as (Hy & _ & _).
  unfold AddressBook.birthday_this_year, datetime_replace_year, new_date.
  rewrite Hm, Hd, check_feb29 by exact Hy.
  destruct (is_leap (year today)) eqn:L; cbn [bind andb dt_date];
    [|reflexivity].
  rewrite date_lt_le.
  destruct (date_le today {| year := year today; month := 2; day := 29 |});
    cbn [negb]; [reflexivity|].
  assert (C : check_date_fields (year today + 1) 2 29 = false).
  { unfold check_date_fields, days_in_month.
    rewrite (is_leap_succ _ L). cbn. now rewrite !andb_false_r. }
  now rewrite C.
Qed.

(** A record born on 29 February lets [get_upcoming_birthdays] return
    only in a leap year and no later than 29 February: then its birthday
    of the year is that day; in every other year, and after that day, the
    query raises [ValueError] for the whole book. *)
Theorem feb29_birthday_stops_query
  (style : year_style) (today : date) (book : AddressBook.t)
  (record : Rec.t) (b : Birthday.t) :
  valid_date today ->
  date_le today dec_24_9999 = true ->
  In record (dict_values (AddressBook.data book)) ->
  Rec.birthday record = Some b ->
  month (dt_date (Birthday.value b)) = 2 ->
  day (dt_date (Birthday.value b)) = 29 ->
  if is_leap (year today)
     && date_le today {| year := year today; month := 2; day := 29 |}
  then AddressBook.birthday_this_year today b
       = Ok {| year := year today; month := 2; day := 29 |}
  else AddressBook.get_upcoming_birthdays style today book
       = Raise ValueError.
Proof.
  intros Ht L Hin Hb Hm Hd.
  pose proof (feb29_this_year today b Ht Hm Hd) as F.
  destruct (is_leap (year today)
            && date_le today {| year := year today; month := 2; day := 29 |});
    [exact F|].
  apply query_raises_ValueError; try assumption.
  intros M. destruct (M record b Hin Hb) as [bty E]. congruence.
Qed.

(** Bob and Eve on 2023-06-05: Eve's 29 February stops the query. *)
Lemma feb29_birthday_stops_query_witness :
  AddressBook.get_upcoming_birthdays NoPadding june_5_2023 bob_and_eve
  = Raise ValueError.
Proof.
  exact (feb29_birthday_stops_query NoPadding june_5_2023 bob_and_eve
           (born "Eve" "29.02.2000")
           {| Birthday.value := midnight 2000 2 29 |}
           eq_refl eq_refl (or_intror (or_introl eq_refl))
           eq_refl eq_refl eq_refl).
Defined.

(** *** Where a weekend birthday goes *)

(** The Monday reported for a birthday on a Saturday or a Sunday inside
    the window is the Monday after the birthday, except when the birthday
    is in the week of [today + 7 days]: then it is the Monday of that
    week, five or six days before the birthday.  So on Saturday
    2024-06-08 Kim, born on 15.06, a Saturday, is reported for
    2024.06.10. *)
Theorem weekend_monday_before_or_after :
  (forall today next_week first bty,
      valid_date today ->
      date_add_days today 7 = Ok next_week ->
      date_sub_days next_week (weekday next_week) = Ok first ->
      valid_date bty ->
      date_le today bty = true -> date_le bty next_week = true ->
      5 <= weekday bty ->
      (toordinal next_week - toordinal bty <= 6 - weekday bty ->
       toordinal first = toordinal bty - weekday bty)
      /\ (6 - weekday bty < toordinal next_week - toordinal bty ->
          toordinal first = toordinal bty + (7 - weekday bty)))
  /\ (forall style,
        AddressBook.get_upcoming_birthdays style june_8_2024 kim_book
        = Ok [{| u_name := lit "Kim";
                 congratulation_date := lit "2024.06.10" |}])
  /\ weekday june_8_2024 = 5
  /\ weekday {| year := 2024; month := 6; day := 15 |} = 5.
Proof.
  split; [|split; [intros []; reflexivity | split; reflexivity]].
  intros today next_week first bty Ht Hnw Hf Vb W1 W2 Hw.
  pose proof (date_add_days_ok _ _ _ Hnw) as [Vnw Onw].
  destruct (first_day_of_next_week_spec today next_week Ht Hnw)
    as (first' & Hf' & _ & _ & Of & _).
  rewrite Hf in Hf'. injection Hf' as <-.
  apply (date_le_ordinal today bty Ht Vb) in W1.
  apply (date_le_ordinal bty next_week Vb Vnw) in W2.
  pose proof (weekday_bounds bty) as Bw.
  unfold weekday in *. rewrite Of.
  split; intros H; Z.div_mod_to_equations; lia.
Qed.

(** Kim's Saturday, 2024-06-15, seen from Saturday 2024-06-08. *)
Lemma weekend_monday_before_or_after_witness :
  (toordinal {| year := 2024; month := 6; day := 15 |}
   - toordinal {| year := 2024; month := 6; day := 15 |}
   <= 6 - weekday {| year := 2024; month := 6; day := 15 |} ->
   toordinal {| year := 2024; month := 6; day := 10 |}
   = toordinal {| year := 2024; month := 6; day := 15 |}
     - weekday {| year := 2024; month := 6; day := 15 |})
  /\ (6 - weekday {| year := 2024; month := 6; day := 15 |}
      < toordinal {| year := 2024; month := 6; day := 15 |}
        - toordinal {| year := 2024; month := 6; day := 15 |} ->
      toordinal {| year := 2024; month := 6; day := 10 |}
      = toordinal {| year := 2024; month := 6; day := 15 |}
        + (7 - weekday {| year := 2024; month := 6; day := 15 |})).
Proof.
  apply (proj1 weekend_monday_before_or_after june_8_2024
           {| year := 2024; month := 6; day := 15 |}
           {| year := 2024; month := 6; day := 10 |}
           {| year := 2024; month := 6; day := 15 |});
    reflexivity || (vm_compute; discriminate).
Defined.

(** ** More on [Birthday] *)

Lemma two_digits (n : Z) :
  0 <= n < 100 ->
  exists a b, n = 10 * a + b /\ 0 <= a <= 9 /\ 0 <= b <= 9.
Proof.
  intros H. exists (n / 10), (n mod 10). Z.div_mod_to_equations. lia.
Qed.

Lemma four_digits (n : Z) :
  0 <= n < 10000 ->
  exists a b c d,
    n = 1000 * a + 100 * b + 10 * c + d
    /\ 0 <= a <= 9 /\ 0 <= b <= 9 /\ 0 <= c <= 9 /\ 0 <= d <= 9.
Proof.
  intros H.
  exists (n / 1000), (n / 100 mod 10), (n / 10 mod 10), (n mod 10).
  Z.div_mod_to_equations. lia.
Qed.

Lemma written_in_full (y m d : Z) :
  check_date_fields y m d = true ->
  padded_date (zfill 2 d ++ dot :: zfill 2 m ++ dot :: zfill 4 y) y m d.
Proof.
  intros C. apply check_date_fields_ranges in C as (Hy & Hm & Hd).
  destruct (two_digits d ltac:(lia)) as (d1 & d2 & -> & ? & ?).
  destruct (two_digits m ltac:(lia)) as (m1 & m2 & -> & ? & ?).
  destruct (four_digits y ltac:(lia))
    as (y1 & y2 & y3 & y4 & -> & ? & ? & ? & ?).
  rewrite !zfill_2, zfill_4 by assumption.
  exists d1, d2, m1, m2, y1, y2, y3, y4.
  split; [reflexivity|]. split; [|auto].
  repeat (constructor; [assumption|]). constructor.
Qed.

(** The text of a birthday reads back as the birthday: what [str] gives
    for a birthday [Birthday] has read is accepted by [Birthday] again,
    with the same value, when the year is written on four digits.  Where
    the year is written without zeros in front, the text of a birthday of
    the year 999 is refused. *)
Theorem birthday_text_reads_back :
  (forall style b y m d,
      Birthday.value b = midnight y m d ->
      check_date_fields y m d = true ->
      style = FourDigits \/ 1000 <= y ->
      Birthday.init (Birthday.to_str style b) = Ok b)
  /\ Birthday.init
       (Birthday.to_str NoPadding {| Birthday.value := midnight 999 1 1 |})
     = Raise ValueError.
Proof.
  split; [|reflexivity].
  intros style [v] y m d Hv C Hy. cbn in Hv. subst v.
  unfold Birthday.to_str. rewrite strftime_dmY.
  cbn [Birthday.value midnight dt_date year month day].
  rewrite (render_year_four_digits _ _ Hy).
  apply birthday_init_ok. exists y, m, d.
  split; [|auto]. apply padded_date_dotted; [|exact C].
  now apply written_in_full.
Qed.

(** The leap day of 2024, years written without zeros in front. *)
Lemma birthday_text_reads_back_witness :
  Birthday.init
    (Birthday.to_str NoPadding {| Birthday.value := midnight 2024 2 29 |})
  = Ok {| Birthday.value := midnight 2024 2 29 |}.
Proof.
  apply (proj1 birthday_text_reads_back NoPadding
           {| Birthday.value := midnight 2024 2 29 |} 2024 2 29).
  - reflexivity.
  - reflexivity.
  - right. lia.
Defined.

(** ** The order of the dates in the list *)












(** ** The command handlers *)

(** *** Reading a line *)

Lemma split_from_spec (s : str) :
  forall word,
    Forall (fun c => is_space c = false) word ->
    Forall is_word (split_from word s)
    /\ concat (split_from word s)
       = word ++ filter (fun c => negb (is_space c)) s
    /\ (split_from word s = [] <->
        word = [] /\ Forall (fun c => is_space c = true) s).
Proof.
  induction s as [|c s IH]; intros word Hw; cbn [split_from filter].
  - destruct word as [|x word]; cbn.
    + split; [constructor|]. split; [reflexivity|]. split; auto.
    + split; [constructor; [split; [discriminate | exact Hw] | constructor]|].
      split; [now rewrite !app_nil_r|].
      split; [discriminate | intros [H _]; discriminate H].
  - destruct (is_space c) eqn:E; cbn [negb].
    + destruct (IH [] (Forall_nil _)) as (W & C & N).
      destruct word as [|x word].
      * split; [exact W|]. split; [exact C|]. rewrite N.
        split; intros [H1 H2]; (split; [reflexivity|]).
        -- now constructor.
        -- now inversion H2.
      * split; [constructor; [split; [discriminate | exact Hw] | exact W]|].
        split; [cbn [concat]; now rewrite C|].
        split; [discriminate | intros [H _]; discriminate H].
    + assert (Hw' : Forall (fun c => is_space c = false) (word ++ [c]))
        by (apply Forall_app; split; [exact Hw | now repeat constructor]).
      destruct (IH (word ++ [c]) Hw') as (W & C & N).
      split; [exact W|]. split; [rewrite C, <- app_assoc; reflexivity|].
      rewrite N. split.
      * intros [H _]. now destruct word.
      * intros [_ H]. inversion H. congruence.
Qed.

Lemma gapped_cons (gap word : str) (gaps words : list str) :
  gapped (gap :: gaps) (word :: words) = gap ++ word ++ gapped gaps words.
Proof. reflexivity. Qed.

(** Where [split] cuts: the line is the words that come out, in order,
    with white space before, between and behind them. *)
Lemma split_from_layout (s : str) :
  forall word first args,
    split_from word s = first :: args ->
    exists lead gaps trail,
      blank lead /\ blank trail /\ Forall blank gaps
      /\ Forall (fun gap => gap <> []) gaps
      /\ length gaps = length args
      /\ word ++ s = lead ++ first ++ gapped gaps args ++ trail.
Proof.
  induction s as [|c s IH]; intros word first args; cbn [split_from].
  - destruct word as [|x word]; [discriminate|]. intros [= <- <-].
    exists [], [], []. repeat split; constructor.
  - destruct (is_space c) eqn:E.
    + destruct word as [|x word].
      * intros H. destruct (IH _ _ _ H) as (lead & gaps & trail & L & R).
        exists (c :: lead), gaps, trail.
        split; [now constructor|].
        destruct R as (T & G & N & Len & Es). cbn [app] in Es |- *.
        rewrite Es. now repeat split.
      * intros [= <- H].
        destruct args as [|a args].
        -- exists [], [], (c :: s).
           destruct (split_from_spec s [] (Forall_nil _)) as (_ & _ & B).
           apply B in H as [_ H].
           repeat split; try constructor; assumption.
        -- destruct (IH _ _ _ H)
             as (lead & gaps & trail & L & T & G & N & Len & Es).
           exists [], ((c :: lead) :: gaps), trail.
           split; [constructor|]. split; [exact T|].
           split; [constructor; [now constructor | exact G]|].
           split; [constructor; [discriminate | exact N]|].
           split; [cbn [length]; now rewrite Len|].
           cbn [app] in Es. rewrite gapped_cons, Es. cbn [app].
           now rewrite <- !app_assoc.
    + intros H. destruct (IH _ _ _ H) as (lead & gaps & trail & L & R).
      exists lead, gaps, trail. split; [exact L|].
      destruct R as (T & G & N & Len & Es).
      repeat split; try assumption.
      rewrite <- Es, <- app_assoc. reflexivity.
Qed.

Lemma split_from_word (w rest : str) :
  Forall (fun c => is_space c = false) w ->
  forall word, split_from word (w ++ rest) = split_from (word ++ w) rest.
Proof.
  induction 1 as [|c w Hc _ IH]; intros word.
  - now rewrite app_nil_r.
  - cbn [app split_from]. rewrite Hc, IH, <- app_assoc. reflexivity.
Qed.

Lemma split_from_blank (gap rest : str) :
  blank gap -> split_from [] (gap ++ rest) = split_from [] rest.
Proof.
  induction 1 as [|c gap Hc _ IH]; [reflexivity|].
  cbn [app split_from]. now rewrite Hc.
Qed.

Lemma split_from_gap (gap rest word : str) :
  blank gap -> gap <> [] -> word <> [] ->
  split_from word (gap ++ rest) = word :: split_from [] rest.
Proof.
  intros B G W. destruct B as [|c gap Hc B]; [contradiction|].
  cbn [app split_from]. rewrite Hc.
  destruct word as [|x word]; [contradiction|].
  now rewrite (split_from_blank gap rest B).
Qed.

Lemma split_from_trail (trail word : str) :
  blank trail -> word <> [] -> split_from word trail = [word].
Proof.
  intros B W. destruct B as [|c trail Hc B].
  - destruct word; [contradiction | reflexivity].
  - rewrite <- (app_nil_r (c :: trail)).
    rewrite split_from_gap; [reflexivity | now constructor | discriminate
                            | exact W].
Qed.

Lemma split_gapped (trail : str) :
  blank trail ->
  forall args gaps first,
    Forall is_word (first :: args) ->
    Forall blank gaps -> Forall (fun gap => gap <> []) gaps ->
    length gaps = length args ->
    split_from [] (first ++ gapped gaps args ++ trail) = first :: args.
Proof.
  intros T. induction args as [|a args IH]; intros gaps first W G N Len;
    inversion W as [|? ? [W1 W2] W']; subst;
    rewrite (split_from_word _ _ W2); cbn [app].
  - destruct gaps; [|discriminate Len]. cbn [gapped app].
    now apply split_from_trail.
  - destruct gaps as [|gap gaps]; [discriminate Len|].
    inversion G; inversion N; subst. injection Len as Len.
    rewrite gapped_cons, <- !app_assoc.
    rewrite split_from_gap by assumption.
    now rewrite IH.
Qed.

(** [parse_input] raises [IndexError] exactly on a line of white space
    only, the empty line included.  Every other line is white space, a
    first word, and behind it the other words, each after a gap of white
    space, with white space at the end, where a word is not empty and
    holds no white space: [parse_input] returns the first word, lowered,
    and the list of the other words as they are.  And the other way
    round, a line laid out like this is cut into just these words. *)
Theorem parse_input_words (lower : str -> str) (user_input : str) :
  (blank user_input -> parse_input lower user_input = Raises IndexError)
  /\ (~ blank user_input ->
      exists first args lead gaps trail,
        parse_input lower user_input = Returns (lower first, args)
        /\ Forall is_word (first :: args)
        /\ blank lead /\ blank trail /\ Forall blank gaps
        /\ Forall (fun gap => gap <> []) gaps
        /\ length gaps = length args
        /\ user_input = lead ++ first ++ gapped gaps args ++ trail)
  /\ (forall first args lead gaps trail,
        Forall is_word (first :: args) ->
        blank lead -> blank trail -> Forall blank gaps ->
        Forall (fun gap => gap <> []) gaps ->
        length gaps = length args ->
        parse_input lower (lead ++ first ++ gapped gaps args ++ trail)
        = Returns (lower first, args)).
Proof.
  unfold parse_input, split. split; [|split].
  - intros H.
    destruct (split_from_spec user_input [] (Forall_nil _)) as (_ & _ & N).
    now rewrite (proj2 N (conj eq_refl H)).
  - intros H.
    destruct (split_from_spec user_input [] (Forall_nil _)) as (W & _ & N).
    destruct (split_from [] user_input) as [|first args] eqn:S.
    + destruct H. now apply (proj1 N eq_refl).
    + destruct (split_from_layout _ _ _ _ S)
        as (lead & gaps & trail & L & T & G & Ne & Len & Es).
      exists first, args, lead, gaps, trail. now repeat split.
  - intros first args lead gaps trail W L T G N Len.
    rewrite (split_from_blank _ _ L).
    now rewrite (split_gapped trail T args gaps first W G N Len).
Qed.

(** *** Records under their names *)

Section DictUpdates.
Context {V : Type}.

Lemma dict_set_twice (k : str) (v v' : V) (d : dict V) :
  dict_set k v' (dict_set k v d) = dict_set k v' d.
Proof.
  induction d as [|[k0 v0] d IH]; cbn.
  - now rewrite str_eqb_refl.
  - destruct (str_eqb k0 k) eqn:E; cbn; rewrite E; [reflexivity|].
    now rewrite IH.
Qed.

Lemma dict_set_found (k : str) (v : V) (d : dict V) :
  dict_get k d = Some v -> dict_set k v d = d.
Proof.
  induction d as [|[k0 v0] d IH]; cbn; [discriminate|].
  destruct (str_eqb k0 k); [now intros [= ->]|].
  intros H. now rewrite IH.
Qed.
End DictUpdates.

Lemma update_found (book : AddressBook.t) (name : str) (record : Rec.t) :
  AddressBook.find book name = Some record -> update book name record = book.
Proof.
  unfold update, AddressBook.find. intros H.
  rewrite (dict_set_found _ _ _ H). now destruct book.
Qed.

Lemma update_added (book : AddressBook.t) (name : str) (record : Rec.t) :
  update (AddressBook.add_record book (Rec.init name)) name record
  = update book name record.
Proof.
  unfold update, AddressBook.add_record. cbn. now rewrite dict_set_twice.
Qed.

Lemma find_update (book : AddressBook.t) (name name' : str) (record : Rec.t) :
  AddressBook.find (update book name record) name'
  = if str_eqb name name' then Some record else AddressBook.find book name'.
Proof.
  unfold AddressBook.find, update. cbn [AddressBook.data].
  destruct (str_eqb name name') eqn:E.
  - apply str_eqb_eq in E. subst. apply dict_get_set_same.
  - apply str_eqb_neq in E. apply dict_get_set_other. congruence.
Qed.

(** *** [add_contact] *)

Lemma add_contact_body_phone
  (book : AddressBook.t) (name phone : str) (rest : list str) :
  phone <> [] ->
  add_contact_body (name :: phone :: rest) book
  = let '(book, record, message) :=
      match AddressBook.find book name with
      | None =>
          (AddressBook.add_record book (Rec.init name), Rec.init name,
           lit "Contact added.")
      | Some record => (book, record, lit "Contact updated.")
      end in
    let '(record, r) := Rec.add_phone record phone in
    match r with
    | Ok _ => (update book name record, Returns (Text message))
    | Raise e => (update book name record, Raises (Core e))
    end.
Proof.
  intros H. destruct phone as [|c p]; [contradiction|].
  unfold add_contact_body.
  destruct (AddressBook.find book name); reflexivity.
Qed.



(** [add_contact] when it fails.  With fewer than two arguments the book
    is untouched and the reply is the text of a [ValueError], not the
    text for missing arguments.  With a phone number [Phone] refuses the
    reply is the text of the [ValueError] too; a record the book holds
    under the name is untouched, but for a name the book does not hold
    the contact has been created all the same, without a phone. *)
Theorem add_contact_failures (book : AddressBook.t) :
  add_contact [] book = (book, Returns ValueErrorText)
  /\ (forall name, add_contact [name] book = (book, Returns ValueErrorText))
  /\ (forall name phone rest,
         phone <> [] -> Phone.validate phone <> Ok tt ->
         add_contact (name :: phone :: rest) book
         = (match AddressBook.find book name with
            | None => AddressBook.add_record book (Rec.init name)
            | Some _ => book
            end, Returns ValueErrorText)).
Proof.
  split; [reflexivity|]. split; [reflexivity|].
  intros name phone rest Hne Hv.
  unfold add_contact. rewrite (add_contact_body_phone _ _ _ _ Hne).
  destruct (AddressBook.find book name) as [old|] eqn:F;
    unfold Rec.add_phone; rewrite (init_fails _ Hv);
    unfold input_error; cbn [fst snd].
  - now rewrite update_found.
  - rewrite update_added. unfold update, AddressBook.add_record. reflexivity.
Qed.

(** *** The birthday handlers *)

Lemma to_str_padded (style : year_style) (s : str) (y m d : Z) :
  padded_date s y m d ->
  style = FourDigits \/ 1000 <= y ->
  Birthday.to_str style {| Birthday.value := midnight y m d |} = s.
Proof.
  intros (d1 & d2 & m1 & m2 & y1 & y2 & y3 & y4 & -> & R & -> & -> & ->) Hy.
  repeat match goal with
  | H : Forall _ (_ :: _) |- _ => inversion H; subst; clear H
  | H : Forall _ [] |- _ => clear H
  end.
  unfold Birthday.to_str. rewrite strftime_dmY.
  cbn [Birthday.value midnight dt_date year month day].
  rewrite (render_year_four_digits _ _ Hy).
  rewrite !zfill_2, zfill_4 by assumption. reflexivity.
Qed.

(** A birthday entered is the birthday shown: for a contact of the book
    and a date written [DD.MM.YYYY] that exists (years from 1000 on, or
    any year where the year is written on four digits), the handler
    [add_birthday] stores the date and answers
    [Birthday added successfully.], and [show_birthday] for that name then
    answers with the very text that was entered. *)
Theorem birthday_shown_as_entered
  (style : year_style) (book : AddressBook.t) (name s : str)
  (record : Rec.t) (y m d : Z) (rest rest' : list str) :
  AddressBook.find book name = Some record ->
  padded_date s y m d ->
  check_date_fields y m d = true ->
  style = FourDigits \/ 1000 <= y ->
  add_birthday (name :: s :: rest) book
  = (update book name
       (Rec.set_birthday record
          (Some {| Birthday.value := midnight y m d |})),
     Returns (Text (lit "Birthday added successfully.")))
  /\ show_birthday style (name :: rest')
       (fst (add_birthday (name :: s :: rest) book))
     = (fst (add_birthday (name :: s :: rest) book),
        Returns (Text (name ++ lit "'s birthday is on " ++ s))).
Proof.
  intros F P C Hy.
  assert (E : add_birthday (name :: s :: rest) book
              = (update book name
                   (Rec.set_birthday record
                      (Some {| Birthday.value := midnight y m d |})),
                 Returns (Text (lit "Birthday added successfully.")))).
  { unfold add_birthday, add_birthday_body, Rec.add_birthday. rewrite F.
    assert (I : Birthday.init s = Ok {| Birthday.value := midnight y m d |}).
    { apply birthday_init_ok. exists y, m, d.
      split; [now apply padded_date_dotted | auto]. }
    rewrite I. reflexivity. }
  split; [exact E|]. rewrite E. cbn [fst].
  unfold show_birthday, show_birthday_body.
  rewrite find_update, str_eqb_refl. cbn [Rec.set_birthday].
  rewrite (to_str_padded style s y m d P Hy). reflexivity.
Qed.

(** Eve's birthday, entered and shown. *)
Lemma birthday_shown_as_entered_witness :
  add_birthday [lit "Eve"; lit "29.02.2000"] bob_and_eve
  = (update bob_and_eve (lit "Eve")
       (Rec.set_birthday (born "Eve" "29.02.2000")
          (Some {| Birthday.value := midnight 2000 2 29 |})),
     Returns (Text (lit "Birthday added successfully.")))
  /\ show_birthday NoPadding [lit "Eve"]
       (fst (add_birthday [lit "Eve"; lit "29.02.2000"] bob_and_eve))
     = (fst (add_birthday [lit "Eve"; lit "29.02.2000"] bob_and_eve),
        Returns
          (Text (lit "Eve" ++ lit "'s birthday is on " ++ lit "29.02.2000"))).
Proof.
  apply (birthday_shown_as_entered NoPadding bob_and_eve (lit "Eve")
           (lit "29.02.2000") (born "Eve" "29.02.2000") 2000 2 29 [] []).
  - reflexivity.
  - exists 2, 9, 0, 2, 2, 0, 0, 0.
    split; [reflexivity|]. split; [|repeat split].
    repeat (constructor; [lia|]). constructor.
  - reflexivity.
  - right. lia.
Defined.

(** The birthday handlers when there is nothing to do.  [add_birthday]
    leaves the book as it was when arguments are missing (the reply is
    the text of a [ValueError]), when the book does not hold the name
    (the reply is [Error: contact not found.]) and when [Birthday]
    refuses the date (the text of the [ValueError]).  [show_birthday]
    never changes the book; without arguments it answers with the text
    for missing arguments, and for a name the book does not hold, or a
    record without a birthday, with
    [No birthday information found for this contact.] *)
Theorem birthday_handlers_failures
  (style : year_style) (book : AddressBook.t) :
  add_birthday [] book = (book, Returns ValueErrorText)
  /\ (forall name, add_birthday [name] book = (book, Returns ValueErrorText))
  /\ (forall name s rest,
         AddressBook.find book name = None ->
         add_birthday (name :: s :: rest) book
         = (book, Returns (Text (lit "Error: contact not found."))))
  /\ (forall name s rest record,
         AddressBook.find book name = Some record ->
         (forall b, Birthday.init s <> Ok b) ->
         add_birthday (name :: s :: rest) book
         = (book, Returns ValueErrorText))
  /\ show_birthday style [] book
     = (book, Returns (Text not_enough_arguments))
  /\ (forall name rest,
         match AddressBook.find book name with
         | Some record => Rec.birthday record = None
         | None => True
         end ->
         show_birthday style (name :: rest) book
         = (book,
            Returns
              (Text
                 (lit "No birthday information found for this contact.")))).
Proof.
  split; [reflexivity|]. split; [reflexivity|].
  split; [|split; [|split; [reflexivity|]]].
  - intros name s rest F. unfold add_birthday, add_birthday_body.
    now rewrite F.
  - intros name s rest record F N.
    unfold add_birthday, add_birthday_body, Rec.add_birthday. rewrite F.
    destruct (birthday_init_raises s) as [[b Hb] | ->];
      [destruct (N b Hb)|].
    unfold input_error. cbn [fst snd]. now rewrite update_found.
  - intros name rest H. unfold show_birthday, show_birthday_body.
    destruct (AddressBook.find book name) as [[n ps [b|]]|];
      [discriminate H | reflexivity | reflexivity].
Qed.

(** *** [birthdays] *)

Lemma join_lines (e : upcoming) (rest : list upcoming) :
  join [10] (map line_of (e :: rest))
  = u_name e ++ lit ": " ++ congratulation_date e
    ++ flat_map
         (fun x => [10] ++ u_name x ++ lit ": " ++ congratulation_date x)
         rest.
Proof.
  cbn [map join]. unfold line_of at 1. rewrite <- !app_assoc.
  do 3 f_equal. induction rest as [|x rest IH]; [reflexivity|].
  cbn [map flat_map]. rewrite IH. unfold line_of. now rewrite <- !app_assoc.
Qed.

(** The handler [birthdays] never changes the book.  Up to 9999-12-24 it
    always returns a text: the text of the [ValueError] when the birthday
    of some record cannot be moved to the year the query asks for,
    [No birthdays in the coming week.] when the query returns no entry,
    and otherwise, for each entry of the query and in its order, the
    name, a colon, a blank and the date, with a line feed between one
    entry and the next.  After 9999-12-24 the [OverflowError] of the
    query goes through [input_error] to the caller. *)
Theorem birthdays_replies
  (style : year_style) (today : date) (args : list str)
  (book : AddressBook.t) :
  valid_date today ->
  fst (birthdays style today args book) = book
  /\ (date_le today dec_24_9999 = false ->
      snd (birthdays style today args book) = Raises (Core OverflowError))
  /\ (date_le today dec_24_9999 = true ->
      ~ birthdays_movable today (dict_values (AddressBook.data book)) ->
      snd (birthdays style today args book) = Returns ValueErrorText)
  /\ (date_le today dec_24_9999 = true ->
      birthdays_movable today (dict_values (AddressBook.data book)) ->
      exists l,
        AddressBook.get_upcoming_birthdays style today book = Ok l
        /\ snd (birthdays style today args book)
           = Returns
               (Text
                  match l with
                  | [] => lit "No birthdays in the coming week."
                  | e :: rest =>
                      u_name e ++ lit ": " ++ congratulation_date e
                      ++ flat_map
                           (fun x =>
                              [10] ++ u_name x ++ lit ": "
                              ++ congratulation_date x)
                           rest
                  end)).
Proof.
  intros Ht. unfold birthdays, birthdays_body. split; [|split; [|split]].
  - destruct (AddressBook.get_upcoming_birthdays style today book)
      as [[|e l] | []]; reflexivity.
  - intros L. now rewrite (query_overflows style today book Ht L).
  - intros L N. now rewrite (query_raises_ValueError style today book Ht L N).
  - intros L M. destruct (query_returns style today book Ht L M) as [l E].
    exists l. split; [exact E|]. rewrite E.
    destruct l as [|e rest]; [reflexivity|].
    unfold input_error. cbn [fst snd]. now rewrite join_lines.
Qed.

(** On Saturday 2024-06-08, Bob, born on Monday 10.06, and Kim, born on
    Saturday 15.06, are both to be greeted on Monday 2024-06-10: two
    lines, Bob's first. *)
Lemma birthdays_replies_witness :
  birthdays FourDigits june_8_2024 [] bob_and_kim
  = (bob_and_kim,
     Returns
       (Text (lit "Bob: 2024.06.10" ++ [10] ++ lit "Kim: 2024.06.10"))).
Proof.
  destruct (birthdays_replies FourDigits june_8_2024 [] bob_and_kim)
    as (B & _ & _ & H); [reflexivity|].
  destruct H as (l & E & R); [reflexivity | |].
  - intros record b [<- | [<- | []]] [= <-]; eexists; reflexivity.
  - vm_compute in E. injection E as <-.
    rewrite (surjective_pairing (birthdays FourDigits june_8_2024 []
                                   bob_and_kim)), B, R.
    reflexivity.
Defined.

(** ** The loop of [main] *)

Lemma split_blank (s : str) :
  Forall (fun c => is_space c = true) s -> split s = [].
Proof.
  intros H. unfold split.
  destruct (split_from_spec s [] (Forall_nil _)) as (_ & _ & N).
  now apply N.
Qed.

Lemma main_loop_command
  (lower : str -> str) (style : year_style) (book : AddressBook.t)
  (today : date) (user_input : str) (inputs : list (date * str))
  (first : str) (args : list str) :
  split user_input = first :: args ->
  lower first <> lit "close" -> lower first <> lit "exit" ->
  main_loop lower style book ((today, user_input) :: inputs)
  = match run_command style today (lower first) args book with
    | (book, Returns printed) =>
        let '(more, e) := main_loop lower style book inputs in
        (printed ++ more, e)
    | (_, Raises r) => ([], Uncaught r)
    end.
Proof.
  intros S C E. cbn [main_loop]. unfold parse_input. rewrite S.
  apply str_eqb_neq in C, E. now rewrite C, E.
Qed.

Lemma run_command_cases
  (style : year_style) (today : date) (args : list str)
  (book : AddressBook.t) :
  run_command style today (lit "hello") args book
  = (book, Returns [Text (lit "How can I help you?")])
  /\ run_command style today (lit "add") args book
     = print (add_contact args book)
  /\ run_command style today (lit "change") args book
     = print (case_change args book)
  /\ run_command style today (lit "phone") args book
     = print (case_phone args book)
  /\ run_command style today (lit "all") args book = case_all style book
  /\ run_command style today (lit "add-birthday") args book
     = print (add_birthday args book)
  /\ run_command style today (lit "show-birthday") args book
     = print (show_birthday style args book)
  /\ run_command style today (lit "birthdays") args book
     = print (birthdays style today args book).
Proof. repeat split. Qed.

Lemma case_change_arity (args : list str) (book : AddressBook.t) :
  length args <> 3%nat ->
  case_change args book = (book, Raises (Core ValueError)).
Proof.
  destruct args as [|a [|b [|c [|d args]]]]; try reflexivity.
  intros H. now destruct H.
Qed.

(** Lines that end the program with an exception nothing catches, so
    that [save_data] is not reached and what the run changed is lost: a
    line of white space only, the empty line included ([IndexError] of
    [parse_input]); [change] with other than three arguments
    ([ValueError]); [change] of a number the record holds to one [Phone]
    refuses ([ValueError]); [phone] without a name ([IndexError]); and
    [birthdays] after 9999-12-24 ([OverflowError]).  The lines after it
    are not read. *)
Theorem main_uncaught
  (lower : str -> str) (style : year_style) (book : AddressBook.t)
  (today : date) (user_input : str) (inputs : list (date * str)) :
  (Forall (fun c => is_space c = true) user_input ->
   main_loop lower style book ((today, user_input) :: inputs)
   = ([], Uncaught IndexError))
  /\ (forall first args,
        split user_input = first :: args ->
        lower first = lit "change" -> length args <> 3%nat ->
        main_loop lower style book ((today, user_input) :: inputs)
        = ([], Uncaught (Core ValueError)))
  /\ (forall first name old_phone new_phone record,
        split user_input = [first; name; old_phone; new_phone] ->
        lower first = lit "change" ->
        AddressBook.find book name = Some record ->
        In old_phone (values_of (Rec.phones record)) ->
        Phone.validate new_phone <> Ok tt ->
        main_loop lower style book ((today, user_input) :: inputs)
        = ([], Uncaught (Core ValueError)))
  /\ (forall first,
        split user_input = [first] -> lower first = lit "phone" ->
        main_loop lower style book ((today, user_input) :: inputs)
        = ([], Uncaught IndexError))
  /\ (forall first args,
        split user_input = first :: args ->
        lower first = lit "birthdays" ->
        valid_date today -> date_le today dec_24_9999 = false ->
        main_loop lower style book ((today, user_input) :: inputs)
        = ([], Uncaught (Core OverflowError))).
Proof.
  pose proof (run_command_cases style today) as R.
  split; [|split; [|split; [|split]]].
  - intros H. cbn [main_loop]. unfold parse_input.
    now rewrite (split_blank _ H).
  - intros first args S C L.
    rewrite (main_loop_command _ _ _ _ _ _ _ _ S)
      by (rewrite C; discriminate).
    rewrite C. destruct (R args book) as (_ & _ & -> & _).
    now rewrite (case_change_arity _ _ L).
  - intros first name old_phone new_phone record S C F I V.
    rewrite (main_loop_command _ _ _ _ _ _ _ _ S)
      by (rewrite C; discriminate).
    rewrite C.
    destruct (R [name; old_phone; new_phone] book) as (_ & _ & -> & _).
    unfold case_change. rewrite F.
    destruct (edit_phone_spec record old_phone new_phone I)
      as (before & after & _ & _ & ->).
    now rewrite (init_fails _ V).
  - intros first S C.
    rewrite (main_loop_command _ _ _ _ _ _ _ _ S)
      by (rewrite C; discriminate).
    rewrite C. now destruct (R [] book) as (_ & _ & _ & -> & _).
  - intros first args S C Ht L.
    rewrite (main_loop_command _ _ _ _ _ _ _ _ S)
      by (rewrite C; discriminate).
    rewrite C.
    destruct (R args book) as (_ & _ & _ & _ & _ & _ & _ & ->).
    unfold birthdays, birthdays_body.
    now rewrite (query_overflows style today book Ht L).
Qed.

Lemma main_loop_app
  (lower : str -> str) (style : year_style) (more : list (date * str)) :
  forall (inputs : list (date * str)) (book : AddressBook.t),
    main_loop lower style book (inputs ++ more)
    = match main_loop lower style book inputs with
      | (printed, Reading book') =>
          (printed ++ fst (main_loop lower style book' more),
           snd (main_loop lower style book' more))
      | stopped => stopped
      end.
Proof.
  induction inputs as [|[today user_input] inputs IH]; intros book.
  - cbn [app main_loop]. now destruct (main_loop lower style book more).
  - cbn [app main_loop].
    destruct (parse_input lower user_input) as [[command args]|r];
      [|reflexivity].
    destruct (str_eqb command (lit "close") || str_eqb command (lit "exit"));
      [reflexivity|].
    destruct (run_command style today command args book)
      as [book1 [printed|r]]; [|reflexivity].
    rewrite IH.
    destruct (main_loop lower style book1 inputs) as [out [b|r|b]];
      try reflexivity.
    now rewrite app_assoc.
Qed.

Lemma main_loop_saved (lower : str -> str) (style : year_style) :
  forall (inputs : list (date * str)) (book book' : AddressBook.t)
         (printed : list reply),
    main_loop lower style book inputs = (printed, Saved book') ->
    exists before today user_input after printed',
      inputs = before ++ (today, user_input) :: after
      /\ (exists first args,
            split user_input = first :: args
            /\ (lower first = lit "close" \/ lower first = lit "exit"))
      /\ main_loop lower style book before = (printed', Reading book')
      /\ printed = printed' ++ [Text (lit "Good bye!")].
Proof.
  induction inputs as [|[today user_input] inputs IH];
    intros book book' printed; cbn [main_loop]; [discriminate|].
  unfold parse_input.
  destruct (split user_input) as [|first args] eqn:S; [discriminate|].
  destruct (str_eqb (lower first) (lit "close")
            || str_eqb (lower first) (lit "exit")) eqn:E.
  - intros [= <- <-]. exists [], today, user_input, inputs, [].
    split; [reflexivity|]. split; [|split; reflexivity].
    exists first, args. split; [exact S|].
    apply orb_true_iff in E as [E|E]; apply str_eqb_eq in E; auto.
  - destruct (run_command style today (lower first) args book)
      as [book1 [out|r]] eqn:R; [|discriminate].
    destruct (main_loop lower style book1 inputs) as [more e] eqn:M.
    intros [= <- ->].
    destruct (IH _ _ _ M)
      as (before & today' & line & after & printed' & -> & X & B & ->).
    exists ((today, user_input) :: before), today', line, after,
      (out ++ printed').
    split; [reflexivity|]. split; [exact X|].
    split; [|now rewrite app_assoc].
    cbn [main_loop]. unfold parse_input. now rewrite S, E, R, B.
Qed.

(** A run of [main] is read line by line: the run over more lines goes
    on from the book the lines before have left, and adds nothing once
    the program has ended.  A line whose first word is [close] or [exit],
    in any case [str.lower] brings to these, prints [Good bye!] and saves
    the book, whatever follows on the line and after it.  The program
    saves the book in no other way: what is saved is the book as the
    lines before that line left it, and the lines printed are the
    welcome, what these lines printed, and [Good bye!]. *)
Theorem main_session
  (lower : str -> str) (style : year_style) (book : AddressBook.t) :
  (forall inputs more,
      main_loop lower style book (inputs ++ more)
      = match main_loop lower style book inputs with
        | (printed, Reading book') =>
            (printed ++ fst (main_loop lower style book' more),
             snd (main_loop lower style book' more))
        | stopped => stopped
        end)
  /\ (forall today user_input inputs first args,
        split user_input = first :: args ->
        lower first = lit "close" \/ lower first = lit "exit" ->
        main lower style book ((today, user_input) :: inputs)
        = ([Text (lit "Welcome to the assistant bot!");
            Text (lit "Good bye!")], Saved book))
  /\ (forall inputs printed book',
        main lower style book inputs = (printed, Saved book') ->
        exists before today user_input after printed',
          inputs = before ++ (today, user_input) :: after
          /\ (exists first args,
                split user_input = first :: args
                /\ (lower first = lit "close" \/ lower first = lit "exit"))
          /\ main_loop lower style book before = (printed', Reading book')
          /\ printed
             = Text (lit "Welcome to the assistant bot!")
               :: printed' ++ [Text (lit "Good bye!")]).
Proof.
  split; [|split].
  - intros inputs more. apply main_loop_app.
  - intros today user_input inputs first args S C.
    unfold main. cbn [main_loop]. unfold parse_input. rewrite S.
    now destruct C as [-> | ->].
  - intros inputs printed book'. unfold main.
    destruct (main_loop lower style book inputs) as [out e] eqn:M.
    intros [= <- ->].
    destruct (main_loop_saved _ _ _ _ _ _ M)
      as (before & today & line & after & printed' & -> & X & B & ->).
    now exists before, today, line, after, printed'.
Qed.

Lemma fst_print (h : AddressBook.t * outcome reply) :
  fst (print h) = fst h.
Proof. now destruct h as [b [r|e]]. Qed.

Lemma run_command_keeps_book
  (style : year_style) (today : date) (command : str) (args : list str)
  (book : AddressBook.t) :
  command <> lit "add" -> command <> lit "change" ->
  command <> lit "add-birthday" ->
  fst (run_command style today command args book) = book.
Proof.
  intros A C B. apply str_eqb_neq in A, C, B.
  unfold run_command. rewrite A, C, B.
  repeat match goal with
  | |- context [if str_eqb command ?c then _ else _] =>
      destruct (str_eqb command c)
  end; try reflexivity; rewrite fst_print.
  - unfold case_phone. destruct args as [|name args]; [reflexivity|].
    now destruct (AddressBook.find book name).
  - unfold show_birthday, show_birthday_body.
    destruct args as [|name args]; [reflexivity|].
    now destruct (AddressBook.find book name) as [[n ps [b|]]|].
  - unfold birthdays, birthdays_body.
    now destruct (AddressBook.get_upcoming_birthdays style today book)
      as [[|e l] | []].
Qed.

(** Only [add], [change] and [add-birthday] change the book: over lines
    none of which has one of them for its command, the book the run
    saves, or goes on with, is the book it began with. *)
Theorem main_keeps_book
  (lower : str -> str) (style : year_style) (book : AddressBook.t)
  (inputs : list (date * str)) :
  Forall (fun input =>
            forall first args,
              split (snd input) = first :: args ->
              lower first <> lit "add" /\ lower first <> lit "change"
              /\ lower first <> lit "add-birthday") inputs ->
  match snd (main lower style book inputs) with
  | Saved book' | Reading book' => book' = book
  | Uncaught _ => True
  end.
Proof.
  unfold main. intros H.
  enough (match snd (main_loop lower style book inputs) with
          | Saved book' | Reading book' => book' = book
          | Uncaught _ => True
          end)
    by now destruct (main_loop lower style book inputs).
  induction H as [|[today user_input] inputs Hx _ IH]; [reflexivity|].
  cbn [main_loop]. unfold parse_input.
  destruct (split user_input) as [|first args] eqn:S; [exact I|].
  destruct (str_eqb (lower first) (lit "close")
            || str_eqb (lower first) (lit "exit")); [reflexivity|].
  destruct (Hx first args S) as (A & C & B).
  pose proof (run_command_keeps_book style today _ args book A C B) as K.
  destruct (run_command style today (lower first) args book)
    as [book1 [out|r]]; [|exact I].
  cbn [fst] in K. subst book1.
  now destruct (main_loop lower style book inputs).
Qed.

(** Bob's book, listed and saved. *)
Lemma main_keeps_book_witness :
  match
    snd (main ascii_lower FourDigits bob_book
           [(june_3_2024, lit "all"); (june_3_2024, lit "EXIT now")])
  with
  | Saved book' | Reading book' => book' = bob_book
  | Uncaught _ => True
  end.
Proof.
  apply (main_keeps_book ascii_lower FourDigits bob_book
           [(june_3_2024, lit "all"); (june_3_2024, lit "EXIT now")]).
  apply Forall_cons; [|apply Forall_cons; [|apply Forall_nil]];
    intros first args S; vm_compute in S; injection S as <- <-;
    repeat split; discriminate.
Defined.

Lemma print_returns (book : AddressBook.t) (r : reply) :
  print (book, Returns r) = (book, Returns [r]).
Proof. reflexivity. Qed.

(** What the command [change] with three arguments does.  For a name the
    book does not hold it prints [Contact not found.]  For a name the
    book holds it prints [Phone number updated.] also when the record
    does not hold the old number: then the book is the same, and the new
    number is not looked at.  When the record holds the old number and
    [Phone] accepts the new one, the run goes on with a book of the same
    keys in which the name finds the record with the new number in the
    place of the first entry of the old one, with the other phones, the
    name and the birthday as they were, and every other name finds what
    it found before. *)
Theorem change_command
  (lower : str -> str) (style : year_style) (book : AddressBook.t)
  (today : date) (user_input : str) (inputs : list (date * str))
  (first name old_phone new_phone : str) :
  split user_input = [first; name; old_phone; new_phone] ->
  lower first = lit "change" ->
  match AddressBook.find book name with
  | None =>
      main_loop lower style book ((today, user_input) :: inputs)
      = (Text (lit "Contact not found.")
         :: fst (main_loop lower style book inputs),
         snd (main_loop lower style book inputs))
  | Some record =>
      (~ In old_phone (values_of (Rec.phones record)) ->
       main_loop lower style book ((today, user_input) :: inputs)
       = (Text (lit "Phone number updated.")
          :: fst (main_loop lower style book inputs),
          snd (main_loop lower style book inputs)))
      /\ (forall before after,
            Rec.phones record
            = before ++ {| Phone.value := old_phone |} :: after ->
            ~ In old_phone (values_of before) ->
            Phone.validate new_phone = Ok tt ->
            exists book',
              (forall name',
                  AddressBook.find book' name'
                  = if str_eqb name name' then
                      Some
                        {| Rec.name := Rec.name record;
                           Rec.phones :=
                             before ++ {| Phone.value := new_phone |}
                             :: after;
                           Rec.birthday := Rec.birthday record |}
                    else AddressBook.find book name')
              /\ keys book' = keys book
              /\ main_loop lower style book ((today, user_input) :: inputs)
                 = (Text (lit "Phone number updated.")
                    :: fst (main_loop lower style book' inputs),
                    snd (main_loop lower style book' inputs)))
  end.
Proof.
  intros S C.
  rewrite (main_loop_command _ _ _ _ _ _ _ _ S) by (rewrite C; discriminate).
  rewrite C.
  destruct (run_command_cases style today [name; old_phone; new_phone] book)
    as (_ & _ & -> & _).
  unfold case_change.
  destruct (AddressBook.find book name) as [record|] eqn:F.
  - split.
    + intros N. unfold Rec.edit_phone.
      rewrite (edit_phone_from_absent record old_phone new_phone _ 0%nat N).
      rewrite (update_found _ _ _ F), print_returns.
      now destruct (main_loop lower style book inputs).
    + intros before after P N V.
      assert (I : In old_phone (values_of (Rec.phones record))).
      { rewrite P. unfold values_of. rewrite map_app. apply in_or_app.
        right. now left. }
      destruct (edit_phone_spec record old_phone new_phone I)
        as (before' & after' & P' & N' & ->).
      rewrite P in P'.
      destruct (first_occurrence_unique _ _ _ _ _ P' N N') as [<- <-].
      rewrite (init_ok _ V), print_returns. unfold Rec.set_phones.
      eexists. split; [intros name'; apply find_update|].
      split.
      * unfold keys, update. cbn [AddressBook.data].
        apply dict_set_old. unfold AddressBook.find in F. congruence.
      * now destruct (main_loop lower style _ inputs).
  - rewrite print_returns.
    now destruct (main_loop lower style book inputs).
Qed.

(** Ann's second number, the first [1111111111] of her three, is the one
    changed. *)
Lemma change_command_witness :
  exists book',
    AddressBook.find book' (lit "Ann")
    = Some
        {| Rec.name := {| Name.value := lit "Ann" |};
           Rec.phones := [ {| Phone.value := lit "0123456789" |};
                           {| Phone.value := lit "2222222222" |};
                           {| Phone.value := lit "1111111111" |} ];
           Rec.birthday := None |}
    /\ keys book' = [lit "Ann"]
    /\ main_loop ascii_lower FourDigits ann_book
         [(june_3_2024, lit "Change Ann 1111111111 2222222222")]
       = ([Text (lit "Phone number updated.")], Reading book').
Proof.
  pose proof (change_command ascii_lower FourDigits ann_book june_3_2024
                (lit "Change Ann 1111111111 2222222222") [] (lit "Change")
                (lit "Ann") (lit "1111111111") (lit "2222222222")
                eq_refl eq_refl) as H.
  change (AddressBook.find ann_book (lit "Ann")) with (Some two_phones) in H.
  destruct H as [_ H].
  destruct (H [ {| Phone.value := lit "0123456789" |} ]
              [ {| Phone.value := lit "1111111111" |} ])
    as (book' & F & K & M).
  - reflexivity.
  - intros [E|[]]. discriminate E.
  - reflexivity.
  - exists book'. split; [exact (F (lit "Ann"))|]. split; [exact K|].
    exact M.
Defined.

Lemma add_contact_valid
  (book : AddressBook.t) (name number : str) (rest : list str) :
  Phone.validate number = Ok tt ->
  add_contact (name :: number :: rest) book
  = match AddressBook.find book name with
    | None =>
        (update book name
           {| Rec.name := {| Name.value := name |};
              Rec.phones := [{| Phone.value := number |}];
              Rec.birthday := None |},
         Returns (Text (lit "Contact added.")))
    | Some old =>
        (update book name
           (Rec.set_phones old
              (Rec.phones old ++ [{| Phone.value := number |}])),
         Returns (Text (lit "Contact updated.")))
    end.
Proof.
  intros Hv.
  assert (Hne : number <> []).
  { intros ->. apply validate_ok_iff in Hv as [Hl _]. discriminate Hl. }
  unfold add_contact. rewrite (add_contact_body_phone _ _ _ _ Hne).
  destruct (AddressBook.find book name) as [old|] eqn:F;
    unfold Rec.add_phone; rewrite (init_ok _ Hv); unfold input_error;
    cbn [fst snd]; [reflexivity|].
  now rewrite update_added.
Qed.

(** A number added is a number shown: after [add] with a name and a
    number [Phone] accepts, [phone] with that name prints the numbers
    the contact had before, if any, and then the new one. *)
Theorem added_number_is_shown
  (lower : str -> str) (style : year_style) (book : AddressBook.t)
  (day1 day2 : date) (line1 line2 : str)
  (first1 first2 name number : str) (rest : list str) :
  split line1 = [first1; name; number] -> lower first1 = lit "add" ->
  split line2 = first2 :: name :: rest -> lower first2 = lit "phone" ->
  Phone.validate number = Ok tt ->
  exists message before book',
    main_loop lower style book [(day1, line1); (day2, line2)]
    = ([Text message;
        Text (name ++ lit "'s phones: "
              ++ join (lit ", ") (before ++ [number]))],
       Reading book')
    /\ match AddressBook.find book name with
       | None => message = lit "Contact added." /\ before = []
       | Some old =>
           message = lit "Contact updated."
           /\ before = map Phone.value (Rec.phones old)
       end
    /\ (forall name',
          name' <> name ->
          AddressBook.find book' name' = AddressBook.find book name').
Proof.
  intros S1 C1 S2 C2 V.
  rewrite (main_loop_command _ _ _ _ _ _ _ _ S1)
    by (rewrite C1; discriminate).
  rewrite C1.
  destruct (run_command_cases style day1 [name; number] book)
    as (_ & -> & _).
  rewrite (add_contact_valid _ _ _ _ V).
  destruct (AddressBook.find book name) as [old|] eqn:F;
    rewrite print_returns;
    rewrite (main_loop_command _ _ _ _ _ _ _ _ S2)
      by (rewrite C2; discriminate);
    rewrite C2;
    match goal with
    | |- context [run_command _ _ _ _ ?b] =>
        destruct (run_command_cases style day2 (name :: rest) b)
          as (_ & _ & _ & -> & _)
    end;
    unfold case_phone; rewrite find_update, str_eqb_refl, print_returns;
    cbn [Rec.phones Rec.set_phones main_loop app].
  - exists (lit "Contact updated."), (map Phone.value (Rec.phones old)).
    eexists. split; [now rewrite map_app|]. split; [auto|].
    intros name' N. rewrite find_update.
    apply not_eq_sym, str_eqb_neq in N. now rewrite N.
  - exists (lit "Contact added."), []. eexists.
    split; [reflexivity|]. split; [auto|].
    intros name' N. rewrite find_update.
    apply not_eq_sym, str_eqb_neq in N. now rewrite N.
Qed.

(** Ann gets a number, and asks for it. *)
Lemma added_number_is_shown_witness :
  exists message before book',
    main_loop ascii_lower NoPadding AddressBook.init
      [(june_3_2024, lit "ADD Ann 0123456789");
       (june_3_2024, lit "  phone   Ann ")]
    = ([Text message;
        Text (lit "Ann" ++ lit "'s phones: "
              ++ join (lit ", ") (before ++ [lit "0123456789"]))],
       Reading book')
    /\ match AddressBook.find AddressBook.init (lit "Ann") with
       | None => message = lit "Contact added." /\ before = []
       | Some old =>
           message = lit "Contact updated."
           /\ before = map Phone.value (Rec.phones old)
       end
    /\ (forall name',
          name' <> lit "Ann" ->
          AddressBook.find book' name'
          = AddressBook.find AddressBook.init name').
Proof.
  apply (added_number_is_shown ascii_lower NoPadding AddressBook.init
           june_3_2024 june_3_2024 (lit "ADD Ann 0123456789")
           (lit "  phone   Ann ") (lit "ADD") (lit "phone") (lit "Ann")
           (lit "0123456789") []);
    reflexivity.
Defined.
